(** * microbundle: build-plan synthesis, external classification,
      shebang table, mangle cache, batch and watch execution.

    A shallow embedding of the main module ([microbundle], [createConfig],
    [doWatch]) and of the bundle module of [src/lib] ([getExternals],
    [generateBundle]), with the host facilities they call
    ([String.prototype.split], [Array.prototype.sort], Node's POSIX [path]
    module, the [RegExp] constructor) modelled next to them. *)

From Stdlib Require Import String Ascii List ZArith Lia Bool.
From stdpp Require Import base option list gmap strings.
Import ListNotations.

Local Open Scope Z_scope.
Local Open Scope nat_scope.

(** ** Outcomes of JavaScript evaluation *)

(** The exceptions that the embedded code can raise. [ConfigurationError]
    is the error kind that the specification names for colliding output
    paths; no embedded function constructs it. *)
Inductive js_error : Type :=
  | TypeError
  | SyntaxError
  | ConfigurationError.

(** [Ok v]: the JavaScript code returns [v]. [Throw e]: it throws.
    [Unmodelled]: the run leaves the fragment of the host that this
    development embeds (regular-expression syntax other than literals,
    [.], [|], [^], [$] and groups; arrays of 64 or more elements handed to
    [sort]). *)
Inductive outcome (A : Type) : Type :=
  | Ok (a : A)
  | Throw (e : js_error)
  | Unmodelled.
Arguments Ok {A} a.
Arguments Throw {A} e.
Arguments Unmodelled {A}.

Global Instance outcome_ret : MRet outcome := @Ok.
Global Instance outcome_bind : MBind outcome := fun A B k m =>
  match m with
  | Ok a => k a
  | Throw e => Throw e
  | Unmodelled => Unmodelled
  end.

(** ** JavaScript strings *)

Module JsString.

(** [a === b] on strings. *)
Definition eqb (a b : string) : bool := String.eqb a b.

(** [a > b] on strings: code-unit lexicographic order. *)
Definition gtb (a b : string) : bool := String.ltb b a.

(** Truthiness of a string: only the empty string is falsy. *)
Definition truthy (s : string) : bool :=
  match s with EmptyString => false | String _ _ => true end.

(** [x || y] where [x], [y] are a string or [undefined]. *)
Definition or_else (x y : option string) : option string :=
  match x with
  | Some s => if truthy s then x else y
  | None => y
  end.

(** [x || d] with a string default. *)
Definition or_default (x : option string) (d : string) : string :=
  match x with
  | Some s => if truthy s then s else d
  | None => d
  end.

(** [s.split(c)] for a one-character separator: the pieces between the
    separators, so the empty string splits into one empty piece. *)
Fixpoint split (c : ascii) (s : string) : list string :=
  match s with
  | EmptyString => [EmptyString]
  | String a s' =>
      if Ascii.eqb a c then EmptyString :: split c s'
      else match split c s' with
           | [] => [String a EmptyString]
           | x :: xs => String a x :: xs
           end
  end.

(** [arr.join(sep)]. *)
Definition join (sep : string) (l : list string) : string :=
  String.concat sep l.

(** Does [s] contain the character [c]? *)
Fixpoint mem (c : ascii) (s : string) : bool :=
  match s with
  | EmptyString => false
  | String a s' => Ascii.eqb a c || mem c s'
  end.

End JsString.

(** ** [Array.prototype.sort] *)

(** The engine's sort (V8, Node 11 and later) is TimSort. For an array of
    fewer than 64 elements the minimum run length is the array length, so
    the whole sort is: count the run that starts the array (reversing it
    when it descends), then extend that run over the rest of the array by
    binary insertion. Every decision tests only whether the comparator's
    result is negative. Longer arrays also merge runs; they are outside
    this model. *)
Module ArraySort.
Section Sort.
Context {A : Type} (comparefn : A -> A -> Z).

(** The loop of [CountAndMakeRun]: how many more elements extend the run
    after [prev]. *)
Fixpoint run_tail (isDescending : bool) (prev : A) (l : list A) : nat :=
  match l with
  | [] => 0
  | cur :: l' =>
      let order := comparefn cur prev in
      let stop := if isDescending then (0 <=? order)%Z else (order <? 0)%Z in
      if stop then 0 else S (run_tail isDescending cur l')
  end.

(** [CountAndMakeRun(0, length)]: the run length and the array with a
    descending run reversed in place. *)
Definition CountAndMakeRun (l : list A) : nat * list A :=
  match l with
  | a0 :: a1 :: rest =>
      let isDescending := (comparefn a1 a0 <? 0)%Z in
      let n := 2 + run_tail isDescending a1 rest in
      (n, if isDescending then rev (take n l) ++ drop n l else l)
  | _ => (length l, l)
  end.

(** The binary search of [BinaryInsertionSort] for the slot of [pivot] in
    [work[left, right)]. [fuel] bounds the iterations of the [while]
    loop; the interval shrinks at every iteration, so its width plus one
    is enough ([search_fuel_enough]). *)
Fixpoint search (fuel : nat) (pivot : A) (work : list A) (left right : nat) : nat :=
  match fuel with
  | 0 => left
  | S fuel' =>
      if left <? right then
        let mid := left + (right - left) / 2 in
        match work !! mid with
        | Some x =>
            if (comparefn pivot x <? 0)%Z
            then search fuel' pivot work left mid
            else search fuel' pivot work (mid + 1) right
        | None => left
        end
      else left
  end.

(** One pass of the outer loop: [pivot] is moved into its slot of the
    sorted prefix [sorted]. *)
Definition insert_pivot (sorted : list A) (pivot : A) : list A :=
  let left := search (S (length sorted)) pivot sorted 0 (length sorted) in
  take left sorted ++ pivot :: drop left sorted.

Definition BinaryInsertionSort (run rest : list A) : list A :=
  fold_left insert_pivot rest run.

(** [arr.sort(comparefn)]. *)
Definition sort (l : list A) : outcome (list A) :=
  if 64 <=? length l then Unmodelled
  else if length l <? 2 then Ok l
  else
    let '(n, work) := CountAndMakeRun l in
    Ok (BinaryInsertionSort (take n work) (drop n work)).
End Sort.
End ArraySort.

(** The comparator of [microbundle] and [generateBundle]:
    [(a, b) => (a === 'cjs' ? -1 : a > b ? 1 : 0)]. *)
Definition cjs_first (a b : string) : Z :=
  if JsString.eqb a "cjs" then (-1)%Z
  else if JsString.gtb a b then 1%Z else 0%Z.

(** ** Node's [path] module, POSIX flavour *)

Module Path.

Definition slash : ascii := "/"%char.

Definition isAbsolute (p : string) : bool :=
  match p with String a _ => Ascii.eqb a slash | EmptyString => false end.

(** [normalizeString(path, allowAboveRoot, '/')] on the segments of the
    path: empty and [.] segments vanish, [..] removes the segment before
    it; with nothing to remove it vanishes too, or is kept when
    [allowAboveRoot]. *)
Definition normalize_step (allowAboveRoot : bool) (res : list string) (seg : string)
  : list string :=
  if String.eqb seg "" || String.eqb seg "." then res
  else if String.eqb seg ".." then
    match last res with
    | None => if allowAboveRoot then [seg] else []
    | Some top =>
        if allowAboveRoot && String.eqb top ".." then res ++ [seg]
        else removelast res
    end
  else res ++ [seg].

Definition normalizeString (path : string) (allowAboveRoot : bool) : string :=
  JsString.join "/" (fold_left (normalize_step allowAboveRoot) (JsString.split slash path) []).

(** The loop of [resolve]: arguments are taken from the right until one
    is absolute; [args_rev] is the argument list reversed, and the
    process working directory comes after the leftmost argument. *)
Fixpoint resolve_loop (process_cwd : string) (args_rev : list string)
    (resolvedPath : string) : string * bool :=
  match args_rev with
  | [] =>
      if String.eqb process_cwd "" then (resolvedPath, false)
      else (process_cwd +:+ "/" +:+ resolvedPath, isAbsolute process_cwd)
  | path :: more =>
      if String.eqb path "" then resolve_loop process_cwd more resolvedPath
      else
        let resolvedPath' := path +:+ "/" +:+ resolvedPath in
        if isAbsolute path then (resolvedPath', true)
        else resolve_loop process_cwd more resolvedPath'
  end.

(** [path.resolve(...args)]. *)
Definition resolve (process_cwd : string) (args : list string) : string :=
  let '(resolvedPath, resolvedAbsolute) := resolve_loop process_cwd (rev args) "" in
  let normalized := normalizeString resolvedPath (negb resolvedAbsolute) in
  if resolvedAbsolute then "/" +:+ normalized
  else if String.eqb normalized "" then "." else normalized.

(** The backwards scan of [dirname] over [path[1..]], given reversed:
    the characters before the slash that ends the directory part. *)
Fixpoint dirname_scan (matchedSlash : bool) (r : string) : option string :=
  match r with
  | EmptyString => None
  | String c r' =>
      if Ascii.eqb c slash then
        if matchedSlash then dirname_scan true r' else Some r'
      else dirname_scan false r'
  end.

(** [path.dirname(path)]. *)
Definition dirname (path : string) : string :=
  match path with
  | EmptyString => "."
  | String c0 t =>
      let hasRoot := Ascii.eqb c0 slash in
      match dirname_scan true (String.rev t) with
      | None => if hasRoot then "/" else "."
      | Some r' =>
          if hasRoot && String.eqb r' "" then "//"
          else String c0 (String.rev r')
      end
  end.

(** The backwards scan of [basename] over the reversed path: trailing
    slashes are skipped, then characters are taken up to the next
    slash. *)
Fixpoint basename_scan (matchedSlash : bool) (r : string) (acc : string) : string :=
  match r with
  | EmptyString => acc
  | String c r' =>
      if Ascii.eqb c slash then
        if matchedSlash then basename_scan true r' acc else acc
      else basename_scan false r' (String c acc)
  end.

(** [path.basename(path)]. *)
Definition basename (path : string) : string :=
  basename_scan true (String.rev path) "".

End Path.

(** ** The [RegExp] fragment used for the external predicate *)

Module RegExp.

Inductive regex : Type :=
  | Empty                       (* the empty alternative *)
  | Char (c : ascii)            (* a pattern character *)
  | Dot                         (* [.] *)
  | Bol                         (* [^] *)
  | Eol                         (* [$] *)
  | Seq (r1 r2 : regex)
  | Alt (r1 r2 : regex).

(** A disjunction being read: the alternatives already closed by [|] and
    the alternative under construction. *)
Definition frame : Type := option regex * regex.

Definition close (f : frame) : regex :=
  match f with
  | (None, cur) => cur
  | (Some alts, cur) => Alt alts cur
  end.

Definition push_term (f : frame) (r : regex) : frame := (f.1, Seq f.2 r).

(** Syntax characters whose constructs this fragment leaves out:
    escapes, quantifiers, classes and braces. *)
Definition outside_fragment (c : ascii) : bool :=
  JsString.mem c "\*+?[]{}".

(** The parser reads the pattern source left to right; [stack] holds the
    frames of the groups that are still open. *)
Fixpoint parse (src : string) (cur : frame) (stack : list frame) : outcome regex :=
  match src with
  | EmptyString =>
      match stack with
      | [] => Ok (close cur)
      | _ :: _ => Throw SyntaxError           (* unterminated group *)
      end
  | String c src' =>
      if outside_fragment c then Unmodelled
      else if Ascii.eqb c "("%char then parse src' (None, Empty) (cur :: stack)
      else if Ascii.eqb c ")"%char then
        match stack with
        | [] => Throw SyntaxError             (* unmatched ')' *)
        | outer :: stack' => parse src' (push_term outer (close cur)) stack'
        end
      else if Ascii.eqb c "|"%char then parse src' (Some (close cur), Empty) stack
      else if Ascii.eqb c "^"%char then parse src' (push_term cur Bol) stack
      else if Ascii.eqb c "$"%char then parse src' (push_term cur Eol) stack
      else if Ascii.eqb c "."%char then parse src' (push_term cur Dot) stack
      else parse src' (push_term cur (Char c)) stack
  end.

(** [new RegExp(src)]. *)
Definition new (src : string) : outcome regex := parse src (None, Empty) [].

(** [.] matches every character but a line terminator. *)
Definition line_terminator (c : ascii) : bool :=
  Ascii.eqb c "010"%char || Ascii.eqb c "013"%char.

(** Backtracking matcher: [matches r at_start s k] tries [r] at the
    current position, where [s] is the rest of the input and [at_start]
    tells whether the position is the start of the input, and hands the
    position after the match to [k]. *)
Fixpoint matches (r : regex) (at_start : bool) (s : string)
    (k : bool -> string -> bool) : bool :=
  match r with
  | Empty => k at_start s
  | Char c =>
      match s with
      | String a s' => Ascii.eqb a c && k false s'
      | EmptyString => false
      end
  | Dot =>
      match s with
      | String a s' => negb (line_terminator a) && k false s'
      | EmptyString => false
      end
  | Bol => at_start && k at_start s
  | Eol => match s with EmptyString => k at_start s | String _ _ => false end
  | Seq r1 r2 => matches r1 at_start s (fun b s' => matches r2 b s' k)
  | Alt r1 r2 => matches r1 at_start s k || matches r2 at_start s k
  end.

Fixpoint test_from (r : regex) (at_start : bool) (s : string) : bool :=
  matches r at_start s (fun _ _ => true)
  || match s with
     | EmptyString => false
     | String _ s' => test_from r false s'
     end.

(** [re.test(s)] for a regular expression without flags. *)
Definition test (r : regex) (s : string) : bool := test_from r true s.

End RegExp.

(** ** Data model *)

(** JSON values, as [JSON.parse] returns them. *)
#[warnings="-register-all"]
Inductive json : Type :=
  | JNull
  | JBool (b : bool)
  | JNumber (n : Z)
  | JString (s : string)
  | JArray (l : list json)
  | JObject (fields : list (string * json)).

Module Json.
(** Truthiness of a parsed value. *)
Definition truthy (v : json) : bool :=
  match v with
  | JNull => false
  | JBool b => b
  | JNumber n => negb (n =? 0)%Z
  | JString s => JsString.truthy s
  | JArray _ | JObject _ => true
  end.
End Json.

(** The host the build runs on: the working directory of the process, the
    files [fs.readFileSync] can read ([None]: the read throws) and
    [JSON.parse] ([None]: the text does not parse and the call throws). *)
Module World.
Record t : Type := {
  process_cwd : string;
  readFileSync : string -> option string;
  JSON_parse : string -> option json;
}.
End World.

(** The [minify] and [mangle] fields of package.json: a path to the cache
    file, or an options object. *)
Inductive minify_field : Type :=
  | MinifyPath (p : string)
  | MinifyObject (o : json).

(** The fields of package.json that [createConfig] reads. Dependency
    tables are given by their keys, in order. *)
Module Pkg.
Record t : Type := {
  peerDependencies : option (list string);
  dependencies : option (list string);
  module_ : option string;
  jsnext_main : option string;       (* pkg['jsnext:main'] *)
  cjs_main : option string;          (* pkg['cjs:main'] *)
  umd_main : option string;          (* pkg['umd:main'] *)
  syntax_esmodules : option string;  (* pkg.syntax && pkg.syntax.esmodules *)
  esmodule : option string;
  minify : option minify_field;
  mangle : option minify_field;
}.
End Pkg.

(** The options object after [microbundle] has resolved [cwd], [output]
    and [entries] (its lines 38 to 78). [compress] stands
    for [options.compress !== false]. *)
Module Options.
Record t : Type := {
  cwd : string;
  entries : list string;
  output : string;
  multipleEntries : bool;
  name : string;
  format : option string;
  formats : option string;
  external : option string;
  compress : bool;
  watch : bool;
  pkg : Pkg.t;
}.

Definition set_multipleEntries (b : bool) (o : t) : t :=
  {| cwd := cwd o; entries := entries o; output := output o;
     multipleEntries := b; name := name o; format := format o;
     formats := formats o; external := external o; compress := compress o;
     watch := watch o; pkg := pkg o |}.
End Options.

(** The shebang table: the module-level object [shebang], keyed by build
    name. *)
Abbreviation ShebangTable := (gmap string string).

(** The stages of a step's pipeline that the properties below speak about,
    in the order of the [plugins] array: CSS extraction, the shebang
    transform, the minifier with its name cache, and the hooks that reload
    and write back the name cache. The other stages (alias, node-resolve,
    commonjs, json, typescript, babel, size report) carry no state that
    these properties depend on and are left out of the list. *)
Inductive plugin : Type :=
  | Postcss (extract : bool)
  | ShebangTransform (name : string)
  | Terser (nameCache : json)
  | NameCacheHooks (writeMeta : bool) (nameCachePath : string).

(** [inputOptions.cache]: [undefined], [false], or a bundle of an earlier
    build. *)
Inductive cache_value (Bundle : Type) : Type :=
  | CacheUndefined
  | CacheFalse
  | CacheBundle (b : Bundle).
Arguments CacheUndefined {Bundle}.
Arguments CacheFalse {Bundle}.
Arguments CacheBundle {Bundle} b.

(** The fields of [inputOptions] that the properties below read;
    [treeshake] is a constant and is not embedded. *)
Module InputOptions.
Record t (Bundle : Type) : Type := {
  cache : cache_value Bundle;
  input : string;
  external : string -> bool;
  plugins : list plugin;
}.
Arguments cache {Bundle} _.
Arguments input {Bundle} _.
Arguments external {Bundle} _ _.
Arguments plugins {Bundle} _.

Definition set_cache {B1 B2 : Type} (c : cache_value B2) (i : t B1) : t B2 :=
  {| cache := c; input := input i; external := external i;
     plugins := plugins i |}.
End InputOptions.

(** The fields of [outputOptions] that the properties below read, with
    the getter [banner]; [globals], [strict], [sourcemap] and the constant
    fields are not embedded. *)
Module OutputOptions.
Record t : Type := {
  paths : list (string * string);
  format : string;
  name : string;
  file : string;
}.

(** [get banner() { return shebang[options.name]; }]: read from the
    table when the output is generated. Under the name [__proto__] the
    read gives the prototype of the table, which is no text; the
    properties on banners are about the other names. *)
Definition banner (o : t) (shebang : ShebangTable) : option string :=
  shebang !! name o.
End OutputOptions.

(** A build step: the object [config] that [createConfig] returns. *)
Module Config.
Record t (Bundle : Type) : Type := {
  inputOptions : InputOptions.t Bundle;
  outputOptions : OutputOptions.t;
}.
Arguments inputOptions {Bundle} _.
Arguments outputOptions {Bundle} _.
End Config.

(** ** String tests of [createConfig] written as regular expressions *)

Module Patterns.

(** [s] ends with [suffix]. *)
Definition ends_with (suffix s : string) : bool :=
  String.prefix (String.rev suffix) (String.rev s).

(** [s] without its last [n] characters. *)
Definition drop_end (n : nat) (s : string) : string :=
  String.substring 0 (String.length s - n) s.

(** [s.includes(sub)]. *)
Fixpoint includes (sub s : string) : bool :=
  String.prefix sub s
  || match s with
     | EmptyString => false
     | String _ s' => includes sub s'
     end.

(** The words of [(\.(umd|cjs|es|m))?]. *)
Definition format_infixes : list string := [""; ".umd"; ".cjs"; ".es"; ".m"].

(** The words of [\.(mjs|[tj]sx?)]. *)
Definition source_extensions : list string :=
  [".mjs"; ".ts"; ".tsx"; ".js"; ".jsx"].

(** The words of [(\.(umd|cjs|es|m))?\.(mjs|[tj]sx?)]. *)
Definition main_suffixes : list string :=
  i ← format_infixes; e ← source_extensions; [i +:+ e].

(** [/([\\/])index(\.(umd|cjs|es|m))?\.(mjs|[tj]sx?)$/.test(entry)]. *)
Definition is_index_entry (entry : string) : bool :=
  existsb (fun w => ends_with w entry)
    (sep ← ["\"; "/"]; w ← main_suffixes; [sep +:+ "index" +:+ w]).

(** [s.replace(/(\.(umd|cjs|es|m))?\.(mjs|[tj]sx?)$/, '')]: the match
    that starts leftmost is the longest of the suffixes that fit. *)
Definition longest (l : list string) : option string :=
  foldr (fun w best =>
           match best with
           | Some b => if String.length b <? String.length w then Some w else best
           | None => Some w
           end) None l.

Definition strip_main_suffix (s : string) : string :=
  match longest (filter (fun w => ends_with w s = true) main_suffixes) with
  | Some w => drop_end (String.length w) s
  | None => s
  end.

(** [s.replace(/^[^.]+/, '')]: the characters before the first dot are
    dropped. *)
Fixpoint strip_leading_name (s : string) : string :=
  match s with
  | EmptyString => EmptyString
  | String c s' => if Ascii.eqb c "."%char then s else strip_leading_name s'
  end.

(** [/src\//.test(s)]. *)
Definition mentions_src (s : string) : bool := includes "src/" s.

End Patterns.

(** ** [createConfig] *)

Section CreateConfig.
Context {Bundle : Type}.
Variable world : World.t.

Definition resolve (args : list string) : string :=
  Path.resolve (World.process_cwd world) args.

(** [Object.keys(table || {})]. *)
Definition Object_keys (table : option (list string)) : list string :=
  default [] table.

(** The [external] array of [createConfig]. *)
Definition createConfig_external (options : Options.t) (entry : string) : list string :=
  let external :=
    ["dns"; "fs"; "path"; "url"]
      ++ filter (fun e => e ≠ entry) (Options.entries options) in
  let peerDeps := Object_keys (Pkg.peerDependencies (Options.pkg options)) in
  match Options.external options with
  | Some override =>
      if String.eqb override "none" then
        (* bundle everything (external=[]) *)
        external
      else if JsString.truthy override then
        external ++ peerDeps ++ JsString.split "," override
      else
        external ++ peerDeps
          ++ Object_keys (Pkg.dependencies (Options.pkg options))
  | None =>
      external ++ peerDeps
        ++ Object_keys (Pkg.dependencies (Options.pkg options))
  end.

(** [outputAliases]. *)
Definition outputAliases (options : Options.t) : list (string * string) :=
  if Options.multipleEntries options
  then [(".", "./" +:+ Path.basename (Options.output options))]
  else [].

(** The local function [replaceName(filename, name)]. *)
Definition replaceName (filename name : string) : string :=
  resolve [Path.dirname filename;
           name +:+ Patterns.strip_leading_name (Path.basename filename)].

Definition mainNoExtension (options : Options.t) (entry : string) : string :=
  let mainNoExtension := Options.output options in
  let mainNoExtension :=
    if Options.multipleEntries options then
      let name := if Patterns.is_index_entry entry then mainNoExtension else entry in
      resolve [Path.dirname mainNoExtension; Path.basename name]
    else mainNoExtension in
  Patterns.strip_main_suffix mainNoExtension.

Definition moduleMain (options : Options.t) (entry : string) : string :=
  let pkg := Options.pkg options in
  let filename :=
    match Pkg.module_ pkg with
    | Some m =>
        if JsString.truthy m && negb (Patterns.mentions_src m) then m
        else JsString.or_default (Pkg.jsnext_main pkg) "x.esm.js"
    | None => JsString.or_default (Pkg.jsnext_main pkg) "x.esm.js"
    end in
  replaceName filename (mainNoExtension options entry).

Definition modernMain (options : Options.t) (entry : string) : string :=
  let pkg := Options.pkg options in
  replaceName
    (JsString.or_default
       (JsString.or_else (Pkg.syntax_esmodules pkg) (Pkg.esmodule pkg))
       "x.modern.js")
    (mainNoExtension options entry).

Definition cjsMain (options : Options.t) (entry : string) : string :=
  replaceName (JsString.or_default (Pkg.cjs_main (Options.pkg options)) "x.js")
    (mainNoExtension options entry).

Definition umdMain (options : Options.t) (entry : string) : string :=
  replaceName (JsString.or_default (Pkg.umd_main (Options.pkg options)) "x.umd.js")
    (mainNoExtension options entry).

(** The names every object inherits from [Object.prototype]: looked up
    in the literal [{ modern, es, umd }] they yield a function or an
    object, which [path.resolve] rejects. *)
Definition Object_prototype_keys : list string :=
  ["constructor"; "__defineGetter__"; "__defineSetter__"; "hasOwnProperty";
   "__lookupGetter__"; "__lookupSetter__"; "isPrototypeOf";
   "propertyIsEnumerable"; "toString"; "valueOf"; "__proto__";
   "toLocaleString"].

(** [outputOptions.file]:
    [resolve(options.cwd, { modern, es, umd }[format] || cjsMain)]. *)
Definition output_file (options : Options.t) (entry format : string) : outcome string :=
  if String.eqb format "modern" then
    Ok (resolve [Options.cwd options; modernMain options entry])
  else if String.eqb format "es" then
    Ok (resolve [Options.cwd options; moduleMain options entry])
  else if String.eqb format "umd" then
    Ok (resolve [Options.cwd options; umdMain options entry])
  else if bool_decide (format ∈ Object_prototype_keys) then Throw TypeError
  else Ok (resolve [Options.cwd options; cjsMain options entry]).

(** [rawMinifyValue = options.pkg.minify || options.pkg.mangle || {}]
    and [getNameCachePath]. *)
Definition minify_truthy (v : option minify_field) : bool :=
  match v with
  | Some (MinifyPath p) => JsString.truthy p
  | Some (MinifyObject _) => true
  | None => false
  end.

Definition rawMinifyValue (options : Options.t) : option minify_field :=
  let pkg := Options.pkg options in
  if minify_truthy (Pkg.minify pkg) then Pkg.minify pkg
  else if minify_truthy (Pkg.mangle pkg) then Pkg.mangle pkg
  else None.

Definition getNameCachePath (options : Options.t) : string :=
  match rawMinifyValue options with
  | Some (MinifyPath p) => resolve [Options.cwd options; p]
  | _ => resolve [Options.cwd options; "mangle.json"]
  end.

(** [loadNameCache]: the value assigned to [nameCache], or [None] when
    the read or the parse throws before the assignment. A parsed [null]
    is assigned before [nameCache.minify] throws; every exception is
    caught. *)
Definition loadNameCache (options : Options.t) : option json :=
  text ← World.readFileSync world (getNameCachePath options);
  World.JSON_parse world text.

(** [nameCache] once [createConfig] has run [loadNameCache] and
    [if (nameCache === bareNameCache) nameCache = null]. *)
Definition createConfig_nameCache (options : Options.t) : json :=
  match loadNameCache options with
  | Some loaded => loaded
  | None => JNull
  end.

(** [externalPredicate] and [externalTest]. *)
Definition externalPredicate_source (external : list string) : string :=
  "^(" +:+ JsString.join "|" external +:+ ")($|/)".

Definition externalTest (external : list string) (externalPredicate : RegExp.regex)
    (id : string) : bool :=
  match external with
  | [] => false
  | _ :: _ => RegExp.test externalPredicate id
  end.

(** [inputOptions.external]. *)
Definition inputOptions_external (options : Options.t) (external : list string)
    (externalPredicate : RegExp.regex) (id : string) : bool :=
  if String.eqb id "babel-plugin-transform-async-to-promises/helpers" then false
  else if Options.multipleEntries options && String.eqb id "." then true
  else externalTest external externalPredicate id.

(** The stages kept in the model, in the order of the [plugins] array;
    [.filter(Boolean)] drops the [false] and [null] members. *)
Definition createConfig_plugins (options : Options.t) (writeMeta : bool) : list plugin :=
  let nameCache := createConfig_nameCache options in
  [Postcss writeMeta; ShebangTransform (Options.name options)]
    ++ (if Options.compress options then
          Terser nameCache
            :: (if Json.truthy nameCache
                then [NameCacheHooks writeMeta (getNameCachePath options)]
                else [])
        else []).

Definition createConfig (options : Options.t) (entry format : string)
    (writeMeta : bool) : outcome (Config.t Bundle) :=
  let external := createConfig_external options entry in
  let modern := String.eqb format "modern" in
  externalPredicate ← RegExp.new (externalPredicate_source external);
  file ← output_file options entry format;
  mret {|
    Config.inputOptions := {|
      InputOptions.cache := if modern then CacheFalse else CacheUndefined;
      InputOptions.input := entry;
      InputOptions.external :=
        inputOptions_external options external externalPredicate;
      InputOptions.plugins := createConfig_plugins options writeMeta;
    |};
    Config.outputOptions := {|
      OutputOptions.paths := outputAliases options;
      OutputOptions.format := if modern then "es" else format;
      OutputOptions.name := Options.name options;
      OutputOptions.file := file;
    |};
  |}.

End CreateConfig.

(** ** [microbundle]: synthesis of the build plan *)

Section Microbundle.
Context {Bundle : Type}.
Variable world : World.t.

(** [(options.format || options.formats).split(',')]; the call throws
    when neither option is set. *)
Definition requested_formats (options : Options.t) : outcome (list string) :=
  match JsString.or_else (Options.format options) (Options.formats options) with
  | Some list => Ok (JsString.split "," list)
  | None => Throw TypeError
  end.

(** The inner loop, [for (let j = 0; j < formats.length; j++)], over the
    formats from index [j] on. *)
Fixpoint push_formats (options : Options.t) (entry : string) (i : nat)
    (formats : list string) (j : nat) (steps : list (Config.t Bundle))
  : outcome (list (Config.t Bundle)) :=
  match formats with
  | [] => Ok steps
  | format :: formats' =>
      config ← createConfig world options entry format ((i =? 0) && (j =? 0));
      push_formats options entry i formats' (S j) (steps ++ [config])
  end.

(** The outer loop, [for (let i = 0; i < options.entries.length; i++)],
    over the entries from index [i] on. *)
Fixpoint push_entries (options : Options.t) (entries : list string) (i : nat)
    (formats : list string) (steps : list (Config.t Bundle))
  : outcome (list (Config.t Bundle)) :=
  match entries with
  | [] => Ok steps
  | entry :: entries' =>
      steps' ← push_formats options entry i formats 0 steps;
      push_entries options entries' (S i) formats steps'
  end.

(** Lines 80 to 98 of [microbundle]: the [steps] array. *)
Definition microbundle_steps (options : Options.t) : outcome (list (Config.t Bundle)) :=
  let options :=
    Options.set_multipleEntries (1 <? length (Options.entries options)) options in
  formats ← requested_formats options;
  formats ← ArraySort.sort cjs_first formats;
  push_entries options (Options.entries options) 0 formats [].

End Microbundle.

(** ** Pipeline stages with state: the shebang transform and the name cache *)

Module Shebang.

Definition newline : ascii := "010"%char.

(** The characters matched by [[^\n]*]. *)
Fixpoint line (s : string) : string :=
  match s with
  | EmptyString => EmptyString
  | String c s' => if Ascii.eqb c newline then EmptyString else String c (line s')
  end.

(** What follows them. *)
Fixpoint after_line (s : string) : string :=
  match s with
  | EmptyString => EmptyString
  | String c s' => if Ascii.eqb c newline then s else after_line s'
  end.

(** The match of [/^#![^\n]*/] in [code]. *)
Definition bang (code : string) : option string :=
  match code with
  | String "#" (String "!" rest) => Some ("#!" +:+ line rest)
  | _ => None
  end.

(** The [transform] hook:
    [code.replace(/^#![^\n]*/, bang => { shebang[options.name] = bang; })].
    The replacer stores the match and returns nothing, so [replace]
    puts the text of [undefined] where the match was. The assignment adds
    or replaces the entry of the name, except that for the name
    [__proto__] it calls the setter that objects inherit, which ignores
    a string: the table then stays as it is. *)
Definition transform (name code : string) (shebang : ShebangTable)
  : string * ShebangTable :=
  match code with
  | String "#" (String "!" rest) =>
      ("undefined" +:+ after_line rest,
       if String.eqb name "__proto__" then shebang
       else <[name := "#!" +:+ line rest]> shebang)
  | _ => (code, shebang)
  end.

(** The bundler writes the banner, when there is one, on a line of its
    own before the rendered code. *)
Definition emit (banner : option string) (rendered : string) : string :=
  match banner with
  | Some b => b +:+ String newline rendered
  | None => rendered
  end.

End Shebang.

(** A write of the name cache: [fs.writeFile(path, JSON.stringify(value))]. *)
Inductive fs_write : Type :=
  | WriteFile (path : string) (value : json).

Section NameCache.
Variable world : World.t.

(** The [options] hook of the cache plugin is [loadNameCache]: before a
    build, [nameCache] is replaced when the file loads and kept when it
    does not. *)
Definition hook_options (options : Options.t) (nameCache : json) : json :=
  match loadNameCache world options with
  | Some loaded => loaded
  | None => nameCache
  end.

(** The [writeBundle] hook of one stage, with the current [nameCache]. *)
Definition hook_writeBundle (nameCache : json) (p : plugin) : list fs_write :=
  match p with
  | NameCacheHooks writeMeta nameCachePath =>
      if writeMeta && Json.truthy nameCache
      then [WriteFile nameCachePath nameCache]
      else []
  | _ => []
  end.

(** The cache writes of a whole step when its bundle has been written. *)
Definition writeBundle_writes {Bundle : Type} (config : Config.t Bundle)
    (nameCache : json) : list fs_write :=
  p ← InputOptions.plugins (Config.inputOptions config);
  hook_writeBundle nameCache p.

End NameCache.

(** ** The batch executor *)

Section Batch.
Context {Bundle : Type}.
(** The bundler: [rollup(inputOptions)] and [bundle.write(outputOptions)]
    may reject; [sizeInfo] is the text [config._sizeInfo] resolves to. *)
Variable rollup : InputOptions.t Bundle -> outcome Bundle.
Variable bundle_write : Bundle -> OutputOptions.t -> outcome unit.
Variable sizeInfo : Config.t Bundle -> string.

Definition cache_of (cache : option Bundle) : cache_value Bundle :=
  match cache with
  | None => CacheUndefined
  | Some bundle => CacheBundle bundle
  end.

(** [if (inputOptions.cache !== false) inputOptions.cache = cache]. *)
Definition with_cache (cache : option Bundle) (inputOptions : InputOptions.t Bundle)
  : InputOptions.t Bundle :=
  match InputOptions.cache inputOptions with
  | CacheFalse => inputOptions
  | _ => InputOptions.set_cache (cache_of cache) inputOptions
  end.

(** [series(steps.map(config => async () => ...))] from the state
    [cache]: the calls made to [rollup], in order, and the result. The
    first rejection ends the series. *)
Fixpoint series (steps : list (Config.t Bundle)) (cache : option Bundle)
  : list (InputOptions.t Bundle) * outcome (list string) :=
  match steps with
  | [] => ([], Ok [])
  | config :: steps' =>
      let inputOptions := with_cache cache (Config.inputOptions config) in
      match rollup inputOptions with
      | Ok bundle =>
          match bundle_write bundle (Config.outputOptions config) with
          | Ok _ =>
              let '(calls, out) := series steps' (Some bundle) in
              (inputOptions :: calls, texts ← out; mret (sizeInfo config :: texts))
          | Throw e => ([inputOptions], Throw e)
          | Unmodelled => ([inputOptions], Unmodelled)
          end
      | Throw e => ([inputOptions], Throw e)
      | Unmodelled => ([inputOptions], Unmodelled)
      end
  end.

(** The batch branch of [microbundle]: [let cache;] then the series. *)
Definition batch (steps : list (Config.t Bundle))
  : list (InputOptions.t Bundle) * outcome (list string) :=
  series steps None.

End Batch.

(** ** The watch orchestrator *)

Module Watch.

(** The event codes a watcher emits. *)
Inductive code : Type := START | BUNDLE_START | BUNDLE_END | END | ERROR.

Record event : Type := {
  event_code : code;
  event_error : string;
}.

(** What code of the orchestrator can do to its surroundings. *)
Inductive action : Type :=
  | LogError (error : string)
  | Stdout (text : string)
  | OnBuild (e : event)
  | CloseWatcher (step : nat)
  | ExitProcess
  | Settle.

Definition is_whitespace (c : ascii) : bool :=
  bool_decide (nat_of_ascii c ∈ [9; 10; 11; 12; 13; 32; 160]).

Fixpoint trim_start (s : string) : string :=
  match s with
  | EmptyString => EmptyString
  | String c s' => if is_whitespace c then trim_start s' else s
  end.

(** [text.trim()]. *)
Definition trim (s : string) : string :=
  String.rev (trim_start (String.rev (trim_start s))).

(** The listener [doWatch] registers on the watcher of one step.
    [onBuild] tells whether [options.onBuild] is a function and
    [sizeInfo] is the text the step's [_sizeInfo] resolves to; the
    callback of [then] runs after the listener has returned. *)
Definition on_event (onBuild : bool) (sizeInfo : string) (e : event) : list action :=
  (match event_code e with
   | ERROR => [LogError (event_error e)]
   | _ => []
   end)
  ++ (match event_code e with
      | END =>
          (if onBuild then [OnBuild e] else [])
            ++ [Stdout ("Wrote " +:+ trim sizeInfo)]
      | _ => []
      end).

(** The surroundings: which watchers still observe their step, whether
    the process runs, whether the promise [doWatch] returned is still
    pending, and what has been done so far. *)
Record state : Type := {
  observing : list bool;
  running : bool;
  pending : bool;
  done_ : list action;
}.

(** Modelled from the spec: [logError] and [stdout], helpers of this
    repository whose modules are not among the sources. The
    specification has the error logged while the watcher remains alive,
    and the size report printed; so [LogError] and [Stdout] are recorded
    in [done_] and change nothing else, and so is the call of the
    caller's [onBuild]. *)
Definition perform (st : state) (a : action) : state :=
  match a with
  | CloseWatcher i =>
      {| observing := <[i := false]> (observing st); running := running st;
         pending := pending st; done_ := done_ st ++ [a] |}
  | ExitProcess =>
      {| observing := (fun _ => false) <$> observing st; running := false;
         pending := pending st; done_ := done_ st ++ [a] |}
  | Settle =>
      {| observing := observing st; running := running st;
         pending := false; done_ := done_ st ++ [a] |}
  | _ =>
      {| observing := observing st; running := running st;
         pending := pending st; done_ := done_ st ++ [a] |}
  end.


(** A watcher that still observes delivers [e] to its listener. The
    report that the listener asks for at [END] is recorded with the
    actions of the listener: it is printed when the promise [_sizeInfo]
    of the step is fulfilled, at a time that the model does not follow,
    so the place of a report in [done_] says that it was asked for, not
    when it is printed. *)
Definition deliver (onBuild : bool) (sizeInfo : nat -> string)
    (st : state) (ev : nat * event) : state :=
  match observing st !! ev.1 with
  | Some true =>
      if running st
      then fold_left perform (on_event onBuild (sizeInfo ev.1) ev.2) st
      else st
  | _ => st
  end.

Definition run (onBuild : bool) (sizeInfo : nat -> string)
    (st : state) (events : list (nat * event)) : state :=
  fold_left (deliver onBuild sizeInfo) events st.

End Watch.

(** ** The bundle module: [getExternals] and [generateBundle] *)

(** [getExternals(external, dependencies, peerDependencies)]. *)
Definition getExternals (external : option string)
    (dependencies peerDependencies : option (list string)) : list string :=
  match external with
  | Some override =>
      if String.eqb override "none" then []
      else
        let peerDeps := Object_keys peerDependencies in
        if negb (JsString.truthy override) then
          ["dns"; "fs"; "path"; "url"] ++ peerDeps ++ Object_keys dependencies
        else
          ["dns"; "fs"; "path"; "url"] ++ peerDeps ++ JsString.split "," override
  | None =>
      ["dns"; "fs"; "path"; "url"]
        ++ Object_keys peerDependencies ++ Object_keys dependencies
  end.

(** The bundler treats a module as external when its id is a member of
    an [external] array of strings. *)
Definition array_external (external : list string) (id : string) : bool :=
  bool_decide (id ∈ external).

(** [FORMATS[format].ext] as it appears in a template string: the [ext]
    column of the table, the text [undefined] for a name that the table
    inherits from [Object.prototype], and [None], where the access
    throws, for any other format. *)
Definition FORMATS_ext (format : string) : option string :=
  if String.eqb format "modern" then Some ".modern.js"
  else if String.eqb format "es" then Some ".esm.js"
  else if String.eqb format "esm" then Some ".esm.js"
  else if String.eqb format "cjs" then Some ".js"
  else if String.eqb format "umd" then Some ".umd.js"
  else if bool_decide (format ∈ Object_prototype_keys) then Some "undefined"
  else None.

(** The options of one [bundle.write] call of [generateBundle]. *)
Module WriteOptions.
Record t : Type := {
  name : string;
  banner : option string;
  format : string;
  entryFileNames : string;
}.
End WriteOptions.

(** The tail of [generateBundle]: the formats are split and sorted and
    the bundle is written once per format, with the banner read from the
    shebang table of this call. *)
Definition generateBundle_writes (name format : string) (shebang : ShebangTable)
  : outcome (list WriteOptions.t) :=
  formats ← ArraySort.sort cjs_first (JsString.split "," format);
  mapM (M := outcome) (fun format =>
          match FORMATS_ext format with
          | Some ext =>
              Ok {| WriteOptions.name := name;
                    WriteOptions.banner := shebang !! name;
                    WriteOptions.format :=
                      if String.eqb format "modern" then "es" else format;
                    WriteOptions.entryFileNames := "[name]" +:+ ext |}
          | None => Throw TypeError
          end) formats.

(** ** The requests of a plan *)

(** A request is what one call of [createConfig] is given besides the
    options: the entry, the format and [writeMeta]. *)
Module Request.
Record t : Type := {
  entry : string;
  format : string;
  writeMeta : bool;
}.
End Request.

(** The requests in the order in which the two loops of [microbundle]
    visit them, from entry index [i] and format index [j] on. *)
Fixpoint requests_formats (entry : string) (i : nat) (formats : list string) (j : nat)
  : list Request.t :=
  match formats with
  | [] => []
  | format :: formats' =>
      {| Request.entry := entry; Request.format := format;
         Request.writeMeta := (i =? 0) && (j =? 0) |}
        :: requests_formats entry i formats' (S j)
  end.

Fixpoint requests_entries (entries : list string) (i : nat) (formats : list string)
  : list Request.t :=
  match entries with
  | [] => []
  | entry :: entries' =>
      requests_formats entry i formats 0 ++ requests_entries entries' (S i) formats
  end.

(** [config] is what [createConfig] returns for [request]. *)
Definition built {Bundle : Type} (world : World.t) (options : Options.t)
    (request : Request.t) (config : Config.t Bundle) : Prop :=
  createConfig world options (Request.entry request) (Request.format request)
    (Request.writeMeta request) = Ok config.

(** The options as [createConfig] sees them: [multipleEntries] is set
    from the number of entries. *)
Definition plan_options (options : Options.t) : Options.t :=
  Options.set_multipleEntries (1 <? length (Options.entries options)) options.

(** The bundle that the step at index [k] of a batch finds in the
    variable [cache]: nothing at the first step, and afterwards the bundle
    that [rollup] returned for the call before. *)
Definition previous_bundle {Bundle : Type}
    (rollup : InputOptions.t Bundle -> outcome Bundle)
    (calls : list (InputOptions.t Bundle)) (k : nat) (cache : option Bundle) : Prop :=
  match k with
  | 0 => cache = None
  | S j =>
      exists call bundle,
        calls !! j = Some call /\ rollup call = Ok bundle /\ cache = Some bundle
  end.

(** ** Vocabulary of the statements *)

(** The suffixes that [replaceName] appends to the main name: a dot, then
    at least two more characters, none of them a slash. *)
Definition dotted_suffix (s : string) : Prop :=
  (exists t, s = String "." t)
  /\ JsString.mem Path.slash s = false
  /\ 3 <= String.length s.

(** [join] of the segments that precede a last segment. *)
Definition join_before (segments : list string) : string :=
  match segments with
  | [] => ""
  | _ :: _ => JsString.join "/" segments +:+ "/"
  end.

(** The formats with a file name of their own. *)
Definition known_formats : list string := ["cjs"; "es"; "umd"; "modern"].

(** The suffix of the default file name of a format:
    [x.js], [x.esm.js], [x.umd.js], [x.modern.js] without the [x]. *)
Definition default_suffix (format : string) : string :=
  if String.eqb format "modern" then ".modern.js"
  else if String.eqb format "es" then ".esm.js"
  else if String.eqb format "umd" then ".umd.js"
  else ".js".

(** The manifest names no file for any format. *)
Definition no_main_overrides (pkg : Pkg.t) : Prop :=
  Pkg.module_ pkg = None /\ Pkg.jsnext_main pkg = None
  /\ Pkg.cjs_main pkg = None /\ Pkg.umd_main pkg = None
  /\ Pkg.syntax_esmodules pkg = None /\ Pkg.esmodule pkg = None.

(** ** Names as patterns *)

(** The characters that the parser of the fragment reads without opening
    or closing a group: everything but the characters outside the
    fragment and the two parentheses. *)
Definition flat_character (c : ascii) : bool :=
  negb (RegExp.outside_fragment c)
  && negb (Ascii.eqb c "("%char) && negb (Ascii.eqb c ")"%char).

Fixpoint flat (s : string) : bool :=
  match s with
  | EmptyString => true
  | String c s' => flat_character c && flat s'
  end.

(** The frame after a flat character. *)
Definition read_flat (c : ascii) (cur : RegExp.frame) : RegExp.frame :=
  if Ascii.eqb c "|"%char then (Some (RegExp.close cur), RegExp.Empty)
  else if Ascii.eqb c "^"%char then RegExp.push_term cur RegExp.Bol
  else if Ascii.eqb c "$"%char then RegExp.push_term cur RegExp.Eol
  else if Ascii.eqb c "."%char then RegExp.push_term cur RegExp.Dot
  else RegExp.push_term cur (RegExp.Char c).

(** The characters that stand for themselves in a pattern. *)
Definition literal_character (c : ascii) : bool :=
  flat_character c
  && negb (Ascii.eqb c "|"%char) && negb (Ascii.eqb c "^"%char)
  && negb (Ascii.eqb c "$"%char) && negb (Ascii.eqb c "."%char).

Fixpoint literal (s : string) : bool :=
  match s with
  | EmptyString => true
  | String c s' => literal_character c && literal s'
  end.

(** The pattern read from a literal name, after [r]. *)
Fixpoint literal_seq (r : RegExp.regex) (name : string) : RegExp.regex :=
  match name with
  | EmptyString => r
  | String c name' => literal_seq (RegExp.Seq r (RegExp.Char c)) name'
  end.

(** The frame of the parser after the names of an alternation. *)
Fixpoint alternation (alts : option RegExp.regex) (name : string) (names : list string)
  : RegExp.frame :=
  match names with
  | [] => (alts, literal_seq RegExp.Empty name)
  | name' :: names' =>
      alternation (Some (RegExp.close (alts, literal_seq RegExp.Empty name)))
        name' names'
  end.

(** The pattern [^(name|...)($|/)] for literal names. *)
Definition external_pattern (name : string) (names : list string) : RegExp.regex :=
  RegExp.Seq
    (RegExp.Seq (RegExp.Seq RegExp.Empty RegExp.Bol)
       (RegExp.close (alternation None name names)))
    (RegExp.Alt (RegExp.Seq RegExp.Empty RegExp.Eol)
       (RegExp.Seq RegExp.Empty (RegExp.Char "/"))).

(** [id] is [name] or a path below it. *)
Definition equals_or_is_below (name id : string) : Prop :=
  id = name \/ exists sub, id = name +:+ "/" +:+ sub.

(** Every name that can reach the pattern of externals is flat: the
    entries, the keys of both dependency tables and the pieces of the
    override. *)
Definition flat_names (options : Options.t) : Prop :=
  Forall (fun name => flat name = true) (Options.entries options)
  /\ Forall (fun name => flat name = true)
       (Object_keys (Pkg.peerDependencies (Options.pkg options)))
  /\ Forall (fun name => flat name = true)
       (Object_keys (Pkg.dependencies (Options.pkg options)))
  /\ forall override, Options.external options = Some override ->
       Forall (fun name => flat name = true) (JsString.split "," override).

(** What the matcher does with the pattern of a literal name: the input
    must begin with the name, and the rest goes to [k]. *)
Fixpoint literal_k (name : string) (at_start : bool) (s : string)
    (k : bool -> string -> bool) : bool :=
  match name with
  | EmptyString => k at_start s
  | String c name' =>
      match s with
      | String a s' => Ascii.eqb a c && literal_k name' false s' k
      | EmptyString => false
      end
  end.

(** What the group [($|/)] accepts: the end of the input or a slash. *)
Definition boundary (s : string) : bool :=
  match s with
  | EmptyString => true
  | String a _ => Ascii.eqb a "/"%char
  end.

(** ** Sample projects *)

Module Examples.

(** A host whose working directory is [/home/u] and where no cache file
    can be read. *)
Definition world : World.t :=
  {| World.process_cwd := "/home/u";
     World.readFileSync := fun _ => None;
     World.JSON_parse := fun _ => None |}.

(** A manifest with the given dependencies and nothing else. *)
Definition manifest (dependencies : list string) : Pkg.t :=
  {| Pkg.peerDependencies := None;
     Pkg.dependencies := Some dependencies;
     Pkg.module_ := None;
     Pkg.jsnext_main := None;
     Pkg.cjs_main := None;
     Pkg.umd_main := None;
     Pkg.syntax_esmodules := None;
     Pkg.esmodule := None;
     Pkg.minify := None;
     Pkg.mangle := None |}.

(** The package [demo] in [/p], built to [/p/dist/demo.js]. *)
Definition project (entries : list string) (formats : string)
    (external : option string) (pkg : Pkg.t) : Options.t :=
  {| Options.cwd := "/p";
     Options.entries := entries;
     Options.output := "/p/dist/demo.js";
     Options.multipleEntries := false;
     Options.name := "demo";
     Options.format := None;
     Options.formats := Some formats;
     Options.external := external;
     Options.compress := true;
     Options.watch := false;
     Options.pkg := pkg |}.

Definition demo : Options.t :=
  project ["/p/src/index.js"] "modern,es,cjs,umd" None (manifest ["react"]).

Definition two_entries : Options.t :=
  project ["/p/src/index.js"; "/p/src/cli.js"] "cjs" None (manifest ["react"]).

Definition repeated_format : Options.t :=
  project ["/p/src/index.js"] "cjs,cjs" None (manifest ["react"]).

Definition bundle_everything : Options.t :=
  project ["/p/src/index.js"] "cjs" (Some "none") (manifest ["react"]).

Definition dotted_dependency : Options.t :=
  project ["/p/src/index.js"] "cjs" None (manifest ["lodash.debounce"]).

Definition helpers_declared : Options.t :=
  project ["/p/src/index.js"; "/p/src/cli.js"] "cjs" None
    (manifest ["babel-plugin-transform-async-to-promises"]).

(** A manifest whose [minify] field names the cache file, and a host
    where that file holds an empty object. *)
Definition cache_manifest : Pkg.t :=
  {| Pkg.peerDependencies := None;
     Pkg.dependencies := None;
     Pkg.module_ := None;
     Pkg.jsnext_main := None;
     Pkg.cjs_main := None;
     Pkg.umd_main := None;
     Pkg.syntax_esmodules := None;
     Pkg.esmodule := None;
     Pkg.minify := Some (MinifyPath "names.json");
     Pkg.mangle := None |}.

Definition with_cache_path : Options.t :=
  project ["/p/src/index.js"] "cjs" None cache_manifest.

Definition cached_world : World.t :=
  {| World.process_cwd := "/home/u";
     World.readFileSync :=
       fun path => if String.eqb path "/p/names.json" then Some "{}" else None;
     World.JSON_parse :=
       fun text => if String.eqb text "{}" then Some (JObject []) else None |}.

(** A bundler that never rejects; a bundle is named after its input. *)
Definition rollup (inputOptions : InputOptions.t string) : outcome string :=
  Ok ("bundle of " +:+ InputOptions.input inputOptions).

Definition bundle_write (bundle : string) (outputOptions : OutputOptions.t)
  : outcome unit := Ok tt.

Definition sizeInfo (config : Config.t string) : string :=
  OutputOptions.file (Config.outputOptions config).

(** A command-line script. *)
Definition cli_source : string :=
  "#!/usr/bin/env node" +:+ String Shebang.newline "console.log(1)".

End Examples.

(** ** The resolver of entries and output: [jsOrTs], [getInput],
       [getOutput], [getEntries] *)

(** What the resolver asks of the file system. Modelled from the spec:
    [isDir] and [isFile], helpers of this repository whose module is not
    among the sources, are the predicates "is an existing directory" and
    "is an existing file"; [glob] is the pattern expansion of the host. *)
Module Files.
Record t : Type := {
  isDir : string -> bool;
  isFile : string -> bool;
  glob : string -> list string;
}.
End Files.

(** The [source] field of package.json: a path or an array of paths. *)
Inductive source_field : Type :=
  | SourcePath (file : string)
  | SourceArray (files : list string).

Section Resolver.
Variable world : World.t.
Variable files : Files.t.

(** [jsOrTs(cwd, filename)]. *)
Definition jsOrTs (cwd filename : string) : string :=
  let extension :=
    if Files.isFile files (resolve world [cwd; filename +:+ ".ts"]) then ".ts"
    else if Files.isFile files (resolve world [cwd; filename +:+ ".tsx"]) then ".tsx"
    else ".js" in
  resolve world [cwd; filename +:+ extension].

(** The last three operands of the [||] chain in [getInput]:
    [(isDir(src) && jsOrTs(cwd, 'src/index')) || jsOrTs(cwd, 'index')
    || module]. [None] stands for a result that is [false] or
    [undefined]. *)
Definition getInput_fallback (cwd : string) (module_ : option string) : option string :=
  JsString.or_else
    (JsString.or_else
       (if Files.isDir files (resolve world [cwd; "src"])
        then Some (jsOrTs cwd "src/index")
        else None)
       (Some (jsOrTs cwd "index")))
    module_.

(** The argument of [[].concat(...)] in [getInput], as the array that
    [concat] makes of it. A chain that ends in [undefined] hands
    [undefined] to [glob], which is outside the model. *)
Definition getInput_candidates (entries : option (list string)) (cwd : string)
    (source : option source_field) (module_ : option string) : outcome (list string) :=
  let fallback :=
    match getInput_fallback cwd module_ with
    | Some file => Ok [file]
    | None => Unmodelled
    end in
  match entries with
  | Some (entry :: more) => Ok (entry :: more)
  | _ =>
      match source with
      | Some (SourceArray sources) =>
          Ok (map (fun file => resolve world [cwd; file]) sources)
      | Some (SourcePath file) =>
          if JsString.truthy file then Ok [resolve world [cwd; file]] else fallback
      | None => fallback
      end
  end.

(** [getInput({ entries, cwd, source, module })]: every candidate is
    expanded by [glob] and the results are pushed in order. *)
Definition getInput (entries : option (list string)) (cwd : string)
    (source : option source_field) (module_ : option string) : outcome (list string) :=
  candidates ← getInput_candidates entries cwd source module_;
  mret (concat (map (Files.glob files) candidates)).

(** [[a-z]]. *)
Definition lower_case (c : ascii) : bool :=
  (97 <=? nat_of_ascii c) && (nat_of_ascii c <=? 122).

(** The scan of a string from its end, given reversed: lower-case
    letters, at least one ([seen]), then a dot. *)
Fixpoint after_letters (seen : bool) (r : string) : bool :=
  match r with
  | EmptyString => false
  | String c r' =>
      if lower_case c then after_letters true r'
      else seen && Ascii.eqb c "."%char
  end.

(** [/\.[a-z]+$/.test(s)]. *)
Definition has_extension (s : string) : bool := after_letters false (String.rev s).

(** [getOutput({ cwd, output, pkgMain, pkgName })]. [removeScope], a
    helper of this repository whose module is not among the sources, is
    taken as given. *)
Definition getOutput (removeScope : string -> string) (cwd : string)
    (output pkgMain : option string) (pkgName : string) : string :=
  let main :=
    resolve world [cwd; JsString.or_default (JsString.or_else output pkgMain) "dist"] in
  if negb (has_extension main) || Files.isDir files main
  then resolve world [main; removeScope pkgName +:+ ".js"]
  else main.





End Resolver.

(** ** The global names inferred by [createConfig] *)

(** [/^[a-z_$][a-z0-9_$]*$/.test(name)]. *)
Definition identifier_start (c : ascii) : bool :=
  lower_case c || Ascii.eqb c "_"%char || Ascii.eqb c "$"%char.

Definition identifier_part (c : ascii) : bool :=
  identifier_start c || ((48 <=? nat_of_ascii c) && (nat_of_ascii c <=? 57)).

Fixpoint identifier_parts (s : string) : bool :=
  match s with
  | EmptyString => true
  | String c s' => identifier_part c && identifier_parts s'
  end.

Definition is_global_name (name : string) : bool :=
  match name with
  | EmptyString => false
  | String c rest => identifier_start c && identifier_parts rest
  end.

(** [external.reduce((globals, name) => ..., {})]: the object [globals]
    of [createConfig] before [options.globals] is merged into it. The
    assignment [globals[name] = name] adds the key, except that for the
    name [__proto__] it calls the setter that objects inherit, which
    ignores a string. *)
Definition inferred_globals (external : list string) : gmap string string :=
  fold_left
    (fun globals name =>
       if is_global_name name
       then if String.eqb name "__proto__" then globals else <[name := name]> globals
       else globals)
    external ∅.

(** ** [mergeConfigItems] of the Babel plugin *)

(** A Babel config item that was loaded from a file, by the fields
    [mergeConfigItems] reads. *)
Module ConfigItem.
Record t (Options : Type) : Type := {
  name : option string;
  file_resolved : string;
  options : Options;
}.
Arguments name {Options} _.
Arguments file_resolved {Options} _.
Arguments options {Options} _.
End ConfigItem.

Section MergeConfigItems.
Context {Options : Type}.
(** Babel's [createConfigItem([file, options], { type })] and lodash's
    [merge], taken as given. [merge] also writes the merged options into
    its first argument; the model follows the items of [mergedItems]
    only, where the item merged into is replaced. *)
Variable createConfigItem : string -> Options -> string -> ConfigItem.t Options.
Variable merge : Options -> Options -> Options.

(** [item.name || item.file.resolved]. *)
Definition item_key (item : ConfigItem.t Options) : string :=
  JsString.or_default (ConfigItem.name item) (ConfigItem.file_resolved item).

(** [mergedItems.findIndex(mergedItem => key(mergedItem) === key(item))];
    [None] stands for [-1]. *)
Fixpoint findIndex_key (key : string) (mergedItems : list (ConfigItem.t Options))
  : option nat :=
  match mergedItems with
  | [] => None
  | m :: rest =>
      if String.eqb (item_key m) key then Some 0 else S <$> findIndex_key key rest
  end.

(** The body of the inner [forEach]: [item] is pushed, or merged into
    the item that has its key. *)
Definition merge_item (type : string) (mergedItems : list (ConfigItem.t Options))
    (item : ConfigItem.t Options) : list (ConfigItem.t Options) :=
  match findIndex_key (item_key item) mergedItems with
  | None => mergedItems ++ [item]
  | Some i =>
      match mergedItems !! i with
      | Some found =>
          <[i := createConfigItem (ConfigItem.file_resolved found)
                   (merge (ConfigItem.options found) (ConfigItem.options item))
                   type]> mergedItems
      | None => mergedItems
      end
  end.

(** [mergeConfigItems(type, ...configItemsToMerge)]. *)
Definition mergeConfigItems (type : string)
    (configItemsToMerge : list (list (ConfigItem.t Options)))
  : list (ConfigItem.t Options) :=
  fold_left (fun mergedItems configItemToMerge =>
               fold_left (merge_item type) configItemToMerge mergedItems)
    configItemsToMerge [].

End MergeConfigItems.

(** ** Vocabulary of the statements on batches *)

Section BatchVocabulary.
Context {Bundle : Type}.
Variable rollup : InputOptions.t Bundle -> outcome Bundle.
Variable bundle_write : Bundle -> OutputOptions.t -> outcome unit.

(** The call made for [config] built the bundle and wrote it. *)
Definition step_completed (config : Config.t Bundle) (call : InputOptions.t Bundle)
  : Prop :=
  exists bundle,
    rollup call = Ok bundle
    /\ exists done, bundle_write bundle (Config.outputOptions config) = Ok done.

(** The call made for [config] was rejected with [e], by the build or
    by the write. *)
Definition step_rejected (e : js_error) (config : Config.t Bundle)
    (call : InputOptions.t Bundle) : Prop :=
  rollup call = Throw e
  \/ exists bundle,
       rollup call = Ok bundle
       /\ bundle_write bundle (Config.outputOptions config) = Throw e.

End BatchVocabulary.

(** ** Vocabulary of the statements on patterns and paths *)

(** No character of [s] is outside the fragment of [RegExp]. *)
Fixpoint in_fragment (s : string) : bool :=
  match s with
  | EmptyString => true
  | String c s' => negb (RegExp.outside_fragment c) && in_fragment s'
  end.

(** The parentheses of [s] balance when [depth] groups are open before
    it: none closes a group that is not open, and none is left open. *)
Fixpoint balanced (depth : nat) (s : string) : bool :=
  match s with
  | EmptyString => depth =? 0
  | String c s' =>
      if Ascii.eqb c "("%char then balanced (S depth) s'
      else if Ascii.eqb c ")"%char then
        match depth with
        | 0 => false
        | S depth' => balanced depth' s'
        end
      else balanced depth s'
  end.

(** A segment that [normalizeString] keeps as it is: it is not empty,
    holds no slash and is neither [.] nor [..]. *)
Definition plain_segment (seg : string) : bool :=
  negb (String.eqb seg "") && negb (JsString.mem Path.slash seg)
  && negb (String.eqb seg ".") && negb (String.eqb seg "..").

(** ** Names with dots as patterns *)

(** The characters of the names met in practice: those that stand for
    themselves in a pattern, and the dot. *)
Definition name_character (c : ascii) : bool :=
  literal_character c || Ascii.eqb c "."%char.

Fixpoint plain_name (s : string) : bool :=
  match s with
  | EmptyString => true
  | String c s' => name_character c && plain_name s'
  end.

(** The term that the parser reads from one character of a name. *)
Definition name_term (c : ascii) : RegExp.regex :=
  if Ascii.eqb c "."%char then RegExp.Dot else RegExp.Char c.

(** The pattern read from a name, after [r]. *)
Fixpoint name_seq (r : RegExp.regex) (name : string) : RegExp.regex :=
  match name with
  | EmptyString => r
  | String c name' => name_seq (RegExp.Seq r (name_term c)) name'
  end.

(** The frame of the parser after the names of an alternation. *)
Fixpoint names_alternation (alts : option RegExp.regex) (name : string)
    (names : list string) : RegExp.frame :=
  match names with
  | [] => (alts, name_seq RegExp.Empty name)
  | name' :: names' =>
      names_alternation (Some (RegExp.close (alts, name_seq RegExp.Empty name)))
        name' names'
  end.

(** The pattern [^(name|...)($|/)] for such names. *)
Definition names_pattern (name : string) (names : list string) : RegExp.regex :=
  RegExp.Seq
    (RegExp.Seq (RegExp.Seq RegExp.Empty RegExp.Bol)
       (RegExp.close (names_alternation None name names)))
    (RegExp.Alt (RegExp.Seq RegExp.Empty RegExp.Eol)
       (RegExp.Seq RegExp.Empty (RegExp.Char "/"))).

(** What one character of a name accepts: itself, or for a dot any
    character but a line terminator. *)
Definition accepts (c a : ascii) : bool :=
  if Ascii.eqb c "."%char then negb (RegExp.line_terminator a) else Ascii.eqb a c.

(** [text] is [name] with some character in the place of each dot. *)
Fixpoint reads_as (name text : string) : bool :=
  match name, text with
  | EmptyString, EmptyString => true
  | String c name', String a text' => accepts c a && reads_as name' text'
  | _, _ => false
  end.

(** What the matcher does with the pattern of a name: the input must
    begin with a text that the name reads as, and the rest goes to [k]. *)
Fixpoint name_k (name : string) (at_start : bool) (s : string)
    (k : bool -> string -> bool) : bool :=
  match name with
  | EmptyString => k at_start s
  | String c name' =>
      match s with
      | String a s' => accepts c a && name_k name' false s' k
      | EmptyString => false
      end
  end.

(** ** Sample hosts and bundlers *)

Module Hosts.

(** A project in [/p] whose sources are in [/p/src], with a TypeScript
    index and a directory [/p/src/cli]; [glob] finds the file it is
    given. *)
Definition typescript_project : Files.t :=
  {| Files.isDir := fun path => String.eqb path "/p/src" || String.eqb path "/p/src/cli";
     Files.isFile := fun path => String.eqb path "/p/src/index.ts";
     Files.glob := fun pattern => [pattern] |}.

(** A bundler that rejects the build of [/p/src/cli.js]. *)
Definition rollup_without_cli (inputOptions : InputOptions.t string) : outcome string :=
  if String.eqb (InputOptions.input inputOptions) "/p/src/cli.js"
  then Throw SyntaxError
  else Ok ("bundle of " +:+ InputOptions.input inputOptions).

(** A package with two index files, one of them in a directory. *)
Definition two_index_entries : Options.t :=
  Examples.project ["/p/src/index.js"; "/p/src/cli/index.js"] "cjs" None
    (Examples.manifest []).

(** Babel's [createConfigItem] on a file and its options: the item has
    no name. Options are lists of settings, merged by appending. *)
Definition createConfigItem (file : string) (options : list string) (type : string)
  : ConfigItem.t (list string) :=
  {| ConfigItem.name := None;
     ConfigItem.file_resolved := file;
     ConfigItem.options := options |}.

Definition preset_env (options : list string) : ConfigItem.t (list string) :=
  createConfigItem "/m/@babel/preset-env/lib/index.js" options "preset".

Definition preset_react (options : list string) : ConfigItem.t (list string) :=
  createConfigItem "/m/@babel/preset-react/lib/index.js" options "preset".

End Hosts.

(** ** Vocabulary of the statements on output files *)

(** What can follow a path as the rest of its last segment: a text
    without a slash, of three characters or more (so that the segment is
    neither [.] nor [..]). *)
Definition segment_tail (t : string) : Prop :=
  JsString.mem Path.slash t = false /\ 3 <= String.length t.

(** The [name] of [createConfig], line 260: the output of the package
    for an entry named [index], the entry itself for any other. *)
Definition entry_name (options : Options.t) (entry : string) : string :=
  if Patterns.is_index_entry entry then Options.output options else entry.

(** The base name that the files of an entry share when the plan has
    several entries: the base name of [entry_name], without the
    extension that [mainNoExtension] strips. *)
Definition main_name (options : Options.t) (entry : string) : string :=
  Patterns.strip_main_suffix (Path.basename (entry_name options entry)).

(** The format that a step was built for, read back from the step:
    [createConfig] turns the cache off for [modern] and for no other
    format, and hands every other format on as it is. *)
Definition step_format {Bundle : Type} (config : Config.t Bundle) : string :=
  match InputOptions.cache (Config.inputOptions config) with
  | CacheFalse => "modern"
  | _ => OutputOptions.format (Config.outputOptions config)
  end.

(** The end of the file name of a step, the part that depends on the
    step: the suffix of its format, after the base name shared by the
    files of its entry when the plan has several entries. *)
Definition file_key {Bundle : Type} (options : Options.t) (config : Config.t Bundle)
  : string :=
  (if 1 <? length (Options.entries options)
   then main_name options (InputOptions.input (Config.inputOptions config))
   else "")
    +:+ default_suffix (step_format config).

(** With several entries, the name of every entry ends in a segment that
    [resolve] keeps. *)
Definition plain_entry_names (options : Options.t) : Prop :=
  1 < length (Options.entries options) ->
  Forall (fun entry => plain_segment (Path.basename (entry_name options entry)) = true)
    (Options.entries options).

(** ** More sample projects *)

Module Plans.

(** Two scripts of the same name in two directories, two formats. *)
Definition two_scripts : Options.t :=
  Examples.project ["/p/src/a/cli.js"; "/p/src/b/cli.js"] "es,cjs" None
    (Examples.manifest ["react"]).



End Plans.

(** ** Vocabulary of the statement on the size of a plan *)



(** ** Vocabulary of the statements on the classification of specifiers *)





(** The term read from a flat character other than the bar. *)
Definition flat_term (c : ascii) : RegExp.regex :=
  if Ascii.eqb c "^"%char then RegExp.Bol
  else if Ascii.eqb c "$"%char then RegExp.Eol
  else if Ascii.eqb c "."%char then RegExp.Dot
  else RegExp.Char c.

(** What the matcher does with the alternatives written in a flat text:
    [pre] tries the alternative read so far, [start] the empty
    alternative, both at the position where the alternatives begin; a
    bar closes the alternative read so far. *)
Fixpoint alternatives_k (s : string) (pre start : (bool -> string -> bool) -> bool)
    (k : bool -> string -> bool) : bool :=
  match s with
  | EmptyString => pre k
  | String c s' =>
      if Ascii.eqb c "|"%char then pre k || alternatives_k s' start start k
      else
        alternatives_k s'
          (fun k' => pre (fun b rest => RegExp.matches (flat_term c) b rest k'))
          start k
  end.




(** * Properties *)

(** ** Outcomes *)

Lemma bind_Ok {A B : Type} (m : outcome A) (k : A -> outcome B) (b : B) :
  m ≫= k = Ok b -> exists a, m = Ok a /\ k a = Ok b.
Proof. destruct m as [a| |]; simpl; [eauto | discriminate..]. Qed.

Ltac bind_inv H :=
  let a := fresh "a" in
  let Ha := fresh "Ha" in
  apply bind_Ok in H as (a & Ha & H).

(** ** The sort *)

Lemma cjs_first_negative (a b : string) :
  (cjs_first a b <? 0)%Z = String.eqb a "cjs".
Proof.
  unfold cjs_first, JsString.eqb.
  destruct (String.eqb a "cjs"); [reflexivity |].
  destruct (JsString.gtb a b); reflexivity.
Qed.

Lemma cjs_first_nonnegative (a b : string) :
  (0 <=? cjs_first a b)%Z = negb (String.eqb a "cjs").
Proof.
  unfold cjs_first, JsString.eqb.
  destruct (String.eqb a "cjs"); [reflexivity |].
  destruct (JsString.gtb a b); reflexivity.
Qed.

Section SortFacts.
Context {A : Type} (comparefn : A -> A -> Z).

Lemma run_tail_le (d : bool) (prev : A) (l : list A) :
  ArraySort.run_tail comparefn d prev l <= length l.
Proof.
  revert prev. induction l as [|cur l IH]; intros prev; simpl; [lia |].
  destruct (if d then _ else _); [lia |]. specialize (IH cur). lia.
Qed.

Lemma CountAndMakeRun_perm (l : list A) :
  (ArraySort.CountAndMakeRun comparefn l).2 ≡ₚ l.
Proof.
  unfold ArraySort.CountAndMakeRun.
  destruct l as [|a0 [|a1 rest]]; [reflexivity.. |].
  cbv zeta. destruct (comparefn a1 a0 <? 0)%Z; [| reflexivity].
  cbn [snd]. rewrite <- Permutation_rev. rewrite take_drop. reflexivity.
Qed.

Lemma insert_pivot_perm (sorted : list A) (pivot : A) :
  ArraySort.insert_pivot comparefn sorted pivot ≡ₚ sorted ++ [pivot].
Proof.
  unfold ArraySort.insert_pivot.
  set (left := ArraySort.search _ _ _ _ _ _).
  rewrite <- (take_drop left sorted) at 3.
  rewrite <- Permutation_middle, <- app_assoc.
  rewrite (Permutation_app_comm (drop left sorted) [pivot]). simpl.
  rewrite <- Permutation_middle. reflexivity.
Qed.

Lemma BinaryInsertionSort_perm (rest run : list A) :
  ArraySort.BinaryInsertionSort comparefn run rest ≡ₚ run ++ rest.
Proof.
  unfold ArraySort.BinaryInsertionSort. revert run.
  induction rest as [|p rest IH]; intros run; simpl.
  - rewrite app_nil_r. reflexivity.
  - rewrite IH, insert_pivot_perm, <- app_assoc. reflexivity.
Qed.

(** The sorted array is a rearrangement of the array. *)
Lemma sort_perm (l l' : list A) :
  ArraySort.sort comparefn l = Ok l' -> l' ≡ₚ l.
Proof.
  unfold ArraySort.sort. destruct (64 <=? length l); [discriminate |].
  destruct (length l <? 2); [intros [= <-]; reflexivity |].
  pose proof (CountAndMakeRun_perm l) as Hp.
  destruct (ArraySort.CountAndMakeRun comparefn l) as [n work]; simpl in Hp.
  intros [= <-]. rewrite BinaryInsertionSort_perm, take_drop. exact Hp.
Qed.

Lemma sort_length (l l' : list A) :
  ArraySort.sort comparefn l = Ok l' -> length l' = length l.
Proof. intros H. apply Permutation_length, sort_perm, H. Qed.

Lemma search_ge_left (fuel : nat) (pivot : A) (work : list A) (left right : nat) :
  left <= ArraySort.search comparefn fuel pivot work left right.
Proof.
  revert left right. induction fuel as [|fuel IH]; intros left right; cbn [ArraySort.search]; [lia |].
  destruct (left <? right); [| lia].
  destruct (work !! _); [| lia].
  destruct (_ <? 0)%Z.
  - apply IH.
  - etransitivity; [| apply IH]. lia.
Qed.

(** The search never runs out of fuel: the slot it returns lies in
    [[left, right]] and more fuel does not change it. *)
Lemma search_fuel_enough (fuel extra : nat) (pivot : A) (work : list A) (left right : nat) :
  right <= length work -> right - left < fuel ->
  ArraySort.search comparefn (fuel + extra) pivot work left right
  = ArraySort.search comparefn fuel pivot work left right.
Proof.
  revert left right. induction fuel as [|fuel IH]; intros left right Hr Hf; [lia |].
  cbn [ArraySort.search Nat.add]. destruct (left <? right) eqn:Hlt; [| reflexivity].
  apply Nat.ltb_lt in Hlt.
  assert (Hdiv : (right - left) / 2 < right - left)
    by (apply Nat.Div0.div_lt_upper_bound; lia).
  destruct (work !! _); [| reflexivity].
  destruct (_ <? 0)%Z; apply IH; lia.
Qed.
End SortFacts.

Section SearchSlots.
Context {A : Type} (comparefn : A -> A -> Z).

(** A pivot that compares below everything goes to the front. *)
Lemma search_front (fuel : nat) (pivot : A) (work : list A) (right : nat) :
  (forall x, (comparefn pivot x <? 0)%Z = true) ->
  ArraySort.search comparefn fuel pivot work 0 right = 0.
Proof.
  intros Hneg. revert right.
  induction fuel as [|fuel IH]; intros right; cbn [ArraySort.search]; [reflexivity |].
  destruct (0 <? right); [| reflexivity].
  destruct (work !! _); [| reflexivity].
  rewrite Hneg. apply IH.
Qed.

(** A pivot that compares below nothing stays behind the sorted prefix. *)
Lemma search_back (fuel : nat) (pivot : A) (work : list A) (left right : nat) :
  (forall x, (comparefn pivot x <? 0)%Z = false) ->
  left <= right <= length work -> right - left < fuel ->
  ArraySort.search comparefn fuel pivot work left right = right.
Proof.
  intros Hneg. revert left.
  induction fuel as [|fuel IH]; intros left Hr Hf; [lia |].
  cbn [ArraySort.search].
  destruct (left <? right) eqn:Hlt;
    [apply Nat.ltb_lt in Hlt | apply Nat.ltb_ge in Hlt; lia].
  assert (Hdiv : (right - left) / 2 < right - left)
    by (apply Nat.Div0.div_lt_upper_bound; lia).
  destruct (lookup_lt_is_Some_2 work (left + (right - left) / 2)) as [x Hx]; [lia |].
  rewrite Hx, Hneg. apply IH; lia.
Qed.

Lemma insert_pivot_front (sorted : list A) (pivot : A) :
  (forall x, (comparefn pivot x <? 0)%Z = true) ->
  ArraySort.insert_pivot comparefn sorted pivot = pivot :: sorted.
Proof.
  intros Hneg. unfold ArraySort.insert_pivot.
  rewrite search_front by exact Hneg. rewrite take_0, drop_0. reflexivity.
Qed.

Lemma insert_pivot_back (sorted : list A) (pivot : A) :
  (forall x, (comparefn pivot x <? 0)%Z = false) ->
  ArraySort.insert_pivot comparefn sorted pivot = sorted ++ [pivot].
Proof.
  intros Hneg. unfold ArraySort.insert_pivot.
  rewrite search_back by (try exact Hneg; lia).
  rewrite firstn_all, drop_all. reflexivity.
Qed.
End SearchSlots.

(** With the comparator of [microbundle], binary insertion moves each
    [cjs] to the front and leaves every other format where it is. *)
Lemma insert_pivot_cjs_first (sorted : list string) (pivot : string) :
  ArraySort.insert_pivot cjs_first sorted pivot
  = if String.eqb pivot "cjs" then pivot :: sorted else sorted ++ [pivot].
Proof.
  destruct (String.eqb pivot "cjs") eqn:E.
  - apply insert_pivot_front. intros x. rewrite cjs_first_negative. exact E.
  - apply insert_pivot_back. intros x. rewrite cjs_first_negative. exact E.
Qed.

Lemma BinaryInsertionSort_head (rest run : list string) :
  head run = Some "cjs" \/ "cjs" ∈ rest ->
  head (ArraySort.BinaryInsertionSort cjs_first run rest) = Some "cjs".
Proof.
  unfold ArraySort.BinaryInsertionSort. revert run.
  induction rest as [|p rest IH]; intros run H; simpl.
  - destruct H as [H | H]; [exact H | inversion H].
  - apply IH. rewrite insert_pivot_cjs_first.
    destruct (String.eqb p "cjs") eqn:E.
    + apply String.eqb_eq in E. subst p. left. reflexivity.
    + destruct H as [H | H].
      * left. destruct run; [discriminate | exact H].
      * apply String.eqb_neq in E.
        apply elem_of_cons in H as [Heq | H]; [| right; exact H].
        exfalso. apply E. symmetry. exact Heq.
Qed.

(** An ascending run holds no [cjs] after its first element. *)
Lemma run_tail_ascending (prev : string) (l : list string) :
  "cjs" ∉ take (ArraySort.run_tail cjs_first false prev l) l.
Proof.
  revert prev. induction l as [|cur l IH]; intros prev; simpl.
  - apply not_elem_of_nil.
  - rewrite cjs_first_negative. destruct (String.eqb cur "cjs") eqn:E; simpl.
    + apply not_elem_of_nil.
    + apply not_elem_of_cons. split; [| apply IH].
      apply String.eqb_neq in E. intros Heq. apply E. symmetry. exact Heq.
Qed.

(** A descending run holds only [cjs] after its first element. *)
Lemma run_tail_descending (prev : string) (l : list string) :
  Forall (fun x => x = "cjs") (take (ArraySort.run_tail cjs_first true prev l) l).
Proof.
  revert prev. induction l as [|cur l IH]; intros prev; simpl.
  - constructor.
  - rewrite cjs_first_nonnegative. destruct (String.eqb cur "cjs") eqn:E; simpl.
    + constructor; [apply String.eqb_eq, E | apply IH].
    + constructor.
Qed.

(** [cjs], when requested, is the first of the sorted formats. *)
Lemma sort_cjs_first (formats sorted : list string) :
  ArraySort.sort cjs_first formats = Ok sorted ->
  "cjs" ∈ formats -> head sorted = Some "cjs".
Proof.
  unfold ArraySort.sort. destruct (64 <=? length formats); [discriminate |].
  destruct formats as [|a0 [|a1 rest]]; simpl.
  - intros _ H. inversion H.
  - intros [= <-] H. apply list_elem_of_singleton in H. subst. reflexivity.
  - intros [= <-] Hin. apply BinaryInsertionSort_head.
    rewrite cjs_first_negative.
    set (asc := ArraySort.run_tail cjs_first false a1 rest).
    set (desc := ArraySort.run_tail cjs_first true a1 rest).
    destruct (String.eqb a1 "cjs") eqn:E.
    + left. apply String.eqb_eq in E. subst a1.
      pose proof (run_tail_descending "cjs" rest) as Hall. fold desc in Hall.
      pose proof (run_tail_le cjs_first true "cjs" rest) as Hle. fold desc in Hle.
      fold desc.
      simpl. destruct (rev (take desc rest)) as [|x xs] eqn:Er; [reflexivity |].
      simpl. f_equal.
      assert (Hx : x ∈ take desc rest).
      { apply list_elem_of_In, in_rev. rewrite Er. left. reflexivity. }
      rewrite Forall_forall in Hall. apply Hall, Hx.
    + pose proof (run_tail_ascending a1 rest) as Hnot. fold asc in Hnot.
      change (take (2 + asc) (a0 :: a1 :: rest)) with (a0 :: a1 :: take asc rest).
      change (drop (2 + asc) (a0 :: a1 :: rest)) with (drop asc rest).
      apply elem_of_cons in Hin as [<- | Hin]; [left; reflexivity |].
      apply String.eqb_neq in E.
      apply elem_of_cons in Hin as [Heq | Hin];
        [exfalso; apply E; symmetry; exact Heq |].
      right. rewrite <- (take_drop asc rest) in Hin.
      apply elem_of_app in Hin as [Hin | Hin]; [contradiction | exact Hin].
Qed.

(** ** Strings and paths *)

Lemma string_app_nil_l (s : string) : "" +:+ s = s.
Proof. reflexivity. Qed.

Lemma string_app_cons (a : ascii) (s t : string) :
  String a s +:+ t = String a (s +:+ t).
Proof. reflexivity. Qed.

Lemma string_app_nil_r (s : string) : s +:+ "" = s.
Proof. induction s as [|a s IH]; [reflexivity |]. rewrite string_app_cons, IH. reflexivity. Qed.

Lemma string_app_assoc (s t u : string) : (s +:+ t) +:+ u = s +:+ t +:+ u.
Proof.
  induction s as [|a s IH]; [reflexivity |].
  rewrite !string_app_cons, IH. reflexivity.
Qed.

Lemma string_app_length (s t : string) :
  String.length (s +:+ t) = String.length s + String.length t.
Proof.
  induction s as [|a s IH]; [reflexivity |].
  rewrite string_app_cons. simpl. rewrite IH. reflexivity.
Qed.

Lemma split_nonempty (c : ascii) (s : string) : JsString.split c s <> [].
Proof.
  destruct s as [|a s]; simpl; [discriminate |].
  destruct (Ascii.eqb a c); [discriminate |].
  destruct (JsString.split c s); discriminate.
Qed.

Lemma split_no_separator (c : ascii) (s : string) :
  JsString.mem c s = false -> JsString.split c s = [s].
Proof.
  induction s as [|a s IH]; simpl; [reflexivity |].
  destruct (Ascii.eqb a c); simpl; [discriminate |].
  intros H. rewrite (IH H). reflexivity.
Qed.

(** Appending separator-free text changes the last piece only. *)
Lemma split_app_no_separator (c : ascii) (x : string) :
  exists init last,
    JsString.split c x = init ++ [last]
    /\ forall s, JsString.mem c s = false ->
                 JsString.split c (x +:+ s) = init ++ [last +:+ s].
Proof.
  induction x as [|a x (init & last & Hx & Hs)].
  - exists [], "". split; [reflexivity |].
    intros s Hmem. rewrite string_app_nil_l. apply split_no_separator, Hmem.
  - destruct (Ascii.eqb a c) eqn:E.
    + exists ("" :: init), last. split.
      * simpl. rewrite E, Hx. reflexivity.
      * intros s Hmem. rewrite string_app_cons. simpl. rewrite E, (Hs s Hmem).
        reflexivity.
    + destruct init as [|i0 init].
      * exists [], (String a last). split.
        -- simpl. rewrite E, Hx. reflexivity.
        -- intros s Hmem. rewrite string_app_cons. simpl. rewrite E, (Hs s Hmem).
           reflexivity.
      * exists (String a i0 :: init), last. split.
        -- simpl. rewrite E, Hx. reflexivity.
        -- intros s Hmem. rewrite string_app_cons. simpl. rewrite E, (Hs s Hmem).
           reflexivity.
Qed.

Lemma split_app_separator (c : ascii) (x y : string) :
  JsString.split c (x +:+ String c y) = JsString.split c x ++ JsString.split c y.
Proof.
  induction x as [|a x IH].
  - rewrite string_app_nil_l. simpl. rewrite Ascii.eqb_refl. reflexivity.
  - rewrite string_app_cons. simpl. destruct (Ascii.eqb a c).
    + rewrite IH. reflexivity.
    + rewrite IH. pose proof (split_nonempty c x) as Hne.
      destruct (JsString.split c x); [contradiction | reflexivity].
Qed.

Lemma join_snoc (segments : list string) (segment : string) :
  JsString.join "/" (segments ++ [segment]) = join_before segments +:+ segment.
Proof.
  unfold join_before, JsString.join.
  induction segments as [|x [|y segments] IH]; [reflexivity | |].
  - simpl. rewrite string_app_assoc. reflexivity.
  - change (String.concat "/" ((x :: y :: segments) ++ [segment]))
      with (x +:+ "/" +:+ String.concat "/" ((y :: segments) ++ [segment])).
    rewrite IH.
    change (String.concat "/" (x :: y :: segments))
      with (x +:+ "/" +:+ String.concat "/" (y :: segments)).
    rewrite !string_app_assoc. reflexivity.
Qed.

Lemma long_segment_kept (allowAboveRoot : bool) (res : list string) (seg : string) :
  3 <= String.length seg ->
  Path.normalize_step allowAboveRoot res seg = res ++ [seg].
Proof.
  intros Hlen. unfold Path.normalize_step.
  assert (H0 : String.eqb seg "" = false)
    by (apply String.eqb_neq; intros ->; simpl in Hlen; lia).
  assert (H1 : String.eqb seg "." = false)
    by (apply String.eqb_neq; intros ->; simpl in Hlen; lia).
  assert (H2 : String.eqb seg ".." = false)
    by (apply String.eqb_neq; intros ->; simpl in Hlen; lia).
  rewrite H0, H1, H2. reflexivity.
Qed.

(** Normalizing [x ++ s ++ "/"], for a dotted suffix [s], normalizes [x]
    up to its last segment and appends [s]. *)
Lemma normalizeString_suffix (allowAboveRoot : bool) (x : string) :
  exists stem, forall s, dotted_suffix s ->
    Path.normalizeString ((x +:+ s) +:+ "/") allowAboveRoot = stem +:+ s.
Proof.
  destruct (split_app_no_separator Path.slash x) as (init & last & _ & Hs).
  exists (join_before (fold_left (Path.normalize_step allowAboveRoot) init []) +:+ last).
  intros s (_ & Hmem & Hlen). unfold Path.normalizeString.
  change (JsString.split Path.slash ((x +:+ s) +:+ "/"))
    with (JsString.split Path.slash ((x +:+ s) +:+ String Path.slash "")).
  rewrite split_app_separator, (Hs s Hmem). simpl JsString.split.
  rewrite <- app_assoc. simpl app. rewrite fold_left_app. simpl fold_left.
  rewrite (long_segment_kept allowAboveRoot _ (last +:+ s))
    by (rewrite string_app_length; lia).
  replace (Path.normalize_step allowAboveRoot _ "") with
    (fold_left (Path.normalize_step allowAboveRoot) init [] ++ [last +:+ s])
    by reflexivity.
  rewrite join_snoc, string_app_assoc. reflexivity.
Qed.

Lemma resolve_loop_acc (process_cwd : string) (args_rev : list string) (acc : string) :
  Path.resolve_loop process_cwd args_rev acc
  = ((Path.resolve_loop process_cwd args_rev "").1 +:+ acc,
     (Path.resolve_loop process_cwd args_rev "").2).
Proof.
  revert acc. induction args_rev as [|path more IH]; intros acc; simpl.
  - destruct (String.eqb process_cwd ""); simpl; [reflexivity |].
    rewrite !string_app_assoc. reflexivity.
  - destruct (String.eqb path ""); [apply IH |].
    destruct (Path.isAbsolute path); simpl.
    + rewrite !string_app_assoc. reflexivity.
    + rewrite IH. rewrite (IH (path +:+ "/" +:+ "")). simpl.
      rewrite !string_app_assoc. reflexivity.
Qed.

Lemma isAbsolute_app_suffix (x s : string) :
  dotted_suffix s ->
  Path.isAbsolute (x +:+ s) = Path.isAbsolute x.
Proof.
  intros ((t & ->) & _). destruct x as [|a x]; reflexivity.
Qed.

Lemma resolve_loop_cons (process_cwd path : string) (more : list string) (acc : string) :
  String.eqb path "" = false ->
  Path.resolve_loop process_cwd (path :: more) acc
  = if Path.isAbsolute path then (path +:+ "/" +:+ acc, true)
    else Path.resolve_loop process_cwd more (path +:+ "/" +:+ acc).
Proof. intros H. simpl. rewrite H. reflexivity. Qed.

(** [resolve(a, x + s)] is a path that depends on [a] and [x] only,
    followed by [s]. *)
Lemma resolve_suffix (process_cwd a x : string) :
  exists stem, forall s, dotted_suffix s ->
    Path.resolve process_cwd [a; x +:+ s] = stem +:+ s.
Proof.
  set (pre := if Path.isAbsolute x then ("", true)
              else Path.resolve_loop process_cwd [a] "").
  destruct (normalizeString_suffix (negb pre.2) (pre.1 +:+ x)) as (stem & Hstem).
  exists ((if pre.2 then "/" else "") +:+ stem).
  intros s Hs. pose proof Hs as (_ & _ & Hlen).
  assert (Hne : String.eqb (x +:+ s) "" = false).
  { apply String.eqb_neq. intros Heq.
    apply (f_equal String.length) in Heq. rewrite string_app_length in Heq.
    simpl in Heq. lia. }
  assert (Hloop :
    Path.resolve_loop process_cwd (rev [a; x +:+ s]) ""
    = (((pre.1 +:+ x) +:+ s) +:+ "/", pre.2)).
  { change (rev [a; x +:+ s]) with [x +:+ s; a].
    rewrite (resolve_loop_cons _ _ _ _ Hne), (isAbsolute_app_suffix x s Hs).
    subst pre. destruct (Path.isAbsolute x).
    - simpl. rewrite !string_app_assoc. reflexivity.
    - rewrite resolve_loop_acc. rewrite !string_app_assoc. reflexivity. }
  unfold Path.resolve. rewrite Hloop, (Hstem s Hs).
  destruct pre.2; simpl.
  - rewrite string_app_assoc. reflexivity.
  - assert (Hn : String.eqb (stem +:+ s) "" = false).
    { apply String.eqb_neq. intros Heq.
      apply (f_equal String.length) in Heq. rewrite string_app_length in Heq.
      simpl in Heq. lia. }
    rewrite Hn. reflexivity.
Qed.

Section PlanFacts.
Context {Bundle : Type} (world : World.t).

Lemma push_formats_built (options : Options.t) (entry : string) (i : nat)
    (formats : list string) (j : nat) (steps steps' : list (Config.t Bundle)) :
  push_formats world options entry i formats j steps = Ok steps' ->
  exists configs,
    steps' = steps ++ configs
    /\ Forall2 (built world options) (requests_formats entry i formats j) configs.
Proof.
  revert j steps. induction formats as [|format formats IH]; intros j steps; simpl.
  - intros [= <-]. exists []. rewrite app_nil_r. split; [reflexivity | constructor].
  - intros H. bind_inv H. apply IH in H as (configs & -> & Hall).
    exists (a :: configs). rewrite <- app_assoc. split; [reflexivity |].
    constructor; [exact Ha | exact Hall].
Qed.

Lemma push_entries_built (options : Options.t) (entries : list string) (i : nat)
    (formats : list string) (steps steps' : list (Config.t Bundle)) :
  push_entries world options entries i formats steps = Ok steps' ->
  exists configs,
    steps' = steps ++ configs
    /\ Forall2 (built world options) (requests_entries entries i formats) configs.
Proof.
  revert i steps. induction entries as [|entry entries IH]; intros i steps; simpl.
  - intros [= <-]. exists []. rewrite app_nil_r. split; [reflexivity | constructor].
  - intros H. bind_inv H.
    apply push_formats_built in Ha as (c1 & -> & H1).
    apply IH in H as (c2 & -> & H2).
    exists (c1 ++ c2). rewrite <- app_assoc. split; [reflexivity |].
    apply Forall2_app; assumption.
Qed.

(** Every plan is the list of the configurations built for the requests
    of the entries and the sorted formats, in loop order. *)
Lemma microbundle_steps_built (options : Options.t) (steps : list (Config.t Bundle)) :
  microbundle_steps world options = Ok steps ->
  exists requested formats,
    requested_formats options = Ok requested
    /\ ArraySort.sort cjs_first requested = Ok formats
    /\ Forall2 (built world (plan_options options))
         (requests_entries (Options.entries options) 0 formats) steps.
Proof.
  unfold microbundle_steps. intros H.
  bind_inv H. bind_inv H. rename a into requested, a0 into formats.
  apply push_entries_built in H as (configs & -> & Hall).
  exists requested, formats. split; [| split].
  - destruct options; exact Ha.
  - exact Ha0.
  - destruct options; exact Hall.
Qed.
End PlanFacts.

Lemma requests_formats_length (entry : string) (i : nat) (formats : list string) (j : nat) :
  length (requests_formats entry i formats j) = length formats.
Proof.
  revert j. induction formats as [|f formats IH]; intros j; simpl; [reflexivity |].
  rewrite IH. reflexivity.
Qed.

Lemma requests_entries_length (entries : list string) (i : nat) (formats : list string) :
  length (requests_entries entries i formats) = length entries * length formats.
Proof.
  revert i. induction entries as [|e entries IH]; intros i; simpl; [reflexivity |].
  rewrite length_app, requests_formats_length, IH. reflexivity.
Qed.

Lemma requests_formats_entry (entry : string) (i : nat) (formats : list string) (j : nat)
    (request : Request.t) :
  request ∈ requests_formats entry i formats j ->
  Request.entry request = entry /\ Request.format request ∈ formats.
Proof.
  revert j. induction formats as [|f formats IH]; intros j; simpl.
  - intros H. inversion H.
  - intros H. apply elem_of_cons in H as [-> | H].
    + split; [reflexivity | left].
    + apply IH in H as [? ?]. split; [assumption | right; assumption].
Qed.

Lemma requests_entries_entry (entries : list string) (i : nat) (formats : list string)
    (request : Request.t) :
  request ∈ requests_entries entries i formats ->
  Request.entry request ∈ entries /\ Request.format request ∈ formats.
Proof.
  revert i. induction entries as [|e entries IH]; intros i; simpl.
  - intros H. inversion H.
  - intros H. apply elem_of_app in H as [H | H].
    + apply requests_formats_entry in H as [-> ?]. split; [left | assumption].
    + apply IH in H as [? ?]. split; [right; assumption | assumption].
Qed.

(** What [createConfig] writes into fields that do not depend on the
    pattern of externals. *)
Lemma createConfig_fields {Bundle : Type} (world : World.t) (options : Options.t)
    (entry format : string) (writeMeta : bool) (config : Config.t Bundle) :
  createConfig world options entry format writeMeta = Ok config ->
  InputOptions.input (Config.inputOptions config) = entry
  /\ InputOptions.cache (Config.inputOptions config)
     = (if String.eqb format "modern" then CacheFalse else CacheUndefined)
  /\ InputOptions.plugins (Config.inputOptions config)
     = createConfig_plugins world options writeMeta
  /\ OutputOptions.format (Config.outputOptions config)
     = (if String.eqb format "modern" then "es" else format)
  /\ OutputOptions.name (Config.outputOptions config) = Options.name options
  /\ output_file world options entry format
     = Ok (OutputOptions.file (Config.outputOptions config)).
Proof.
  unfold createConfig. intros H. bind_inv H. bind_inv H.
  injection H as <-. simpl. rewrite Ha0. repeat split; reflexivity.
Qed.


Lemma createConfig_external_field {Bundle : Type} (world : World.t) (options : Options.t)
    (entry format : string) (writeMeta : bool) (config : Config.t Bundle) :
  createConfig world options entry format writeMeta = Ok config ->
  exists externalPredicate,
    RegExp.new (externalPredicate_source (createConfig_external options entry))
    = Ok externalPredicate
    /\ InputOptions.external (Config.inputOptions config)
       = inputOptions_external options (createConfig_external options entry)
           externalPredicate.
Proof.
  unfold createConfig. intros H. bind_inv H. bind_inv H.
  injection H as <-. exists a. split; [exact Ha | reflexivity].
Qed.

Lemma plan_step_built {Bundle : Type} (world : World.t) (options : Options.t)
    (steps : list (Config.t Bundle)) (config : Config.t Bundle) :
  microbundle_steps world options = Ok steps -> config ∈ steps ->
  exists request,
    built world (plan_options options) request config
    /\ Request.entry request ∈ Options.entries options.
Proof.
  intros H Hin.
  apply microbundle_steps_built in H as (requested & formats & _ & _ & Hall).
  apply list_elem_of_lookup in Hin as [k Hk].
  destruct (Forall2_lookup_r _ _ _ _ _ Hall Hk) as (request & Hr & Hb).
  exists request. split; [exact Hb |].
  apply list_elem_of_lookup_2 in Hr. apply requests_entries_entry in Hr as [? _].
  assumption.
Qed.

(** C10. In every step of a plan the predicate handed to the bundler
    returns [false] for [babel-plugin-transform-async-to-promises/helpers],
    whatever the external set would say, and with more than one entry it
    returns [true] for the specifier [.]. *)
Theorem C10_helpers_bundled_dot_external {Bundle : Type} (world : World.t)
    (options : Options.t) (steps : list (Config.t Bundle)) (config : Config.t Bundle) :
  microbundle_steps world options = Ok steps -> config ∈ steps ->
  InputOptions.external (Config.inputOptions config)
    "babel-plugin-transform-async-to-promises/helpers" = false
  /\ (1 < length (Options.entries options) ->
      InputOptions.external (Config.inputOptions config) "." = true).
Proof.
  intros H Hin.
  destruct (plan_step_built _ _ _ _ H Hin) as (request & Hb & _).
  apply createConfig_external_field in Hb as (re & _ & ->).
  unfold inputOptions_external. split; [reflexivity |].
  intros Hn. simpl. apply Nat.ltb_lt in Hn.
  destruct options; simpl in *. rewrite Hn. reflexivity.
Qed.


(** ** Patterns built from names *)

Lemma flat_character_parse (c : ascii) :
  flat_character c = true ->
  RegExp.outside_fragment c = false
  /\ Ascii.eqb c "(" = false /\ Ascii.eqb c ")" = false.
Proof.
  unfold flat_character. rewrite !andb_true_iff, !negb_true_iff. tauto.
Qed.

Lemma parse_flat_character (c : ascii) (rest : string) (cur : RegExp.frame)
    (stack : list RegExp.frame) :
  flat_character c = true ->
  RegExp.parse (String c rest) cur stack = RegExp.parse rest (read_flat c cur) stack.
Proof.
  intros Hc. apply flat_character_parse in Hc as (Ho & Hl & Hr).
  cbn [RegExp.parse]. unfold read_flat. rewrite Ho, Hl, Hr.
  repeat match goal with |- context [if ?b then _ else _] => destruct b end;
    reflexivity.
Qed.

(** Reading a flat string leaves the stack of open groups as it is. *)
Lemma parse_flat (s : string) (cur : RegExp.frame) :
  flat s = true ->
  exists cur', forall rest stack,
    RegExp.parse (s +:+ rest) cur stack = RegExp.parse rest cur' stack.
Proof.
  revert cur. induction s as [|c s IH]; intros cur; cbn [flat].
  - intros _. exists cur. intros rest stack. reflexivity.
  - rewrite andb_true_iff. intros [Hc Hs].
    destruct (IH (read_flat c cur) Hs) as (cur' & Hcur').
    exists cur'. intros rest stack.
    rewrite string_app_cons, (parse_flat_character _ _ _ _ Hc). apply Hcur'.
Qed.

Lemma flat_app (s t : string) : flat s = true -> flat t = true -> flat (s +:+ t) = true.
Proof.
  intros Hs Ht. induction s as [|c s IH]; [exact Ht |].
  rewrite string_app_cons. simpl in *. apply andb_true_iff in Hs as [Hc Hs].
  rewrite Hc, (IH Hs). reflexivity.
Qed.

Lemma flat_join (names : list string) :
  Forall (fun name => flat name = true) names -> flat (JsString.join "|" names) = true.
Proof.
  unfold JsString.join.
  induction names as [|x [|y names] IH]; intros H; [reflexivity | |].
  - inversion H; subst. assumption.
  - inversion H as [|? ? Hx Hrest]; subst.
    change (String.concat "|" (x :: y :: names))
      with (x +:+ "|" +:+ String.concat "|" (y :: names)).
    apply flat_app; [exact Hx |]. apply (flat_app "|"); [reflexivity | apply IH, Hrest].
Qed.

(** The pattern of externals is well formed when no name holds a
    parenthesis or a character outside the fragment. *)
Lemma externalPredicate_parses (external : list string) :
  Forall (fun name => flat name = true) external ->
  exists re, RegExp.new (externalPredicate_source external) = Ok re.
Proof.
  intros H. unfold RegExp.new, externalPredicate_source.
  destruct (parse_flat _ (None, RegExp.Empty) (flat_join _ H)) as (cur' & Hcur').
  change (RegExp.parse ("^(" +:+ JsString.join "|" external +:+ ")($|/)")
            (None, RegExp.Empty) [])
    with (RegExp.parse (JsString.join "|" external +:+ ")($|/)")
            (None, RegExp.Empty) [(None, RegExp.Seq RegExp.Empty RegExp.Bol)]).
  rewrite Hcur'. eexists. reflexivity.
Qed.

(** ** The predicate on literal names *)

Lemma literal_character_flat (c : ascii) :
  literal_character c = true ->
  flat_character c = true /\ read_flat c = fun cur => RegExp.push_term cur (RegExp.Char c).
Proof.
  unfold literal_character. rewrite !andb_true_iff, !negb_true_iff.
  intros ((((Hf & H1) & H2) & H3) & H4). split; [exact Hf |].
  unfold read_flat. rewrite H1, H2, H3, H4. reflexivity.
Qed.

Lemma parse_literal (name rest : string) (cur : RegExp.frame) (stack : list RegExp.frame) :
  literal name = true ->
  RegExp.parse (name +:+ rest) cur stack
  = RegExp.parse rest (cur.1, literal_seq cur.2 name) stack.
Proof.
  revert cur. induction name as [|c name IH]; intros cur; cbn [literal literal_seq].
  - intros _. destruct cur; reflexivity.
  - rewrite andb_true_iff. intros [Hc Hn].
    apply literal_character_flat in Hc as [Hf Hread].
    rewrite string_app_cons, (parse_flat_character _ _ _ _ Hf), Hread.
    rewrite (IH _ Hn). reflexivity.
Qed.

Lemma parse_alternation (name : string) (names : list string) (rest : string)
    (alts : option RegExp.regex) (stack : list RegExp.frame) :
  Forall (fun n => literal n = true) (name :: names) ->
  RegExp.parse (JsString.join "|" (name :: names) +:+ rest) (alts, RegExp.Empty) stack
  = RegExp.parse rest (alternation alts name names) stack.
Proof.
  unfold JsString.join. revert name alts.
  induction names as [|name' names IH]; intros name alts H.
  - inversion H; subst. cbn [String.concat alternation].
    rewrite parse_literal by assumption. reflexivity.
  - inversion H as [|? ? Hn Hrest]; subst.
    change (String.concat "|" (name :: name' :: names))
      with (name +:+ "|" +:+ String.concat "|" (name' :: names)).
    rewrite !string_app_assoc, parse_literal by assumption.
    rewrite string_app_cons, string_app_nil_l.
    rewrite parse_flat_character by reflexivity.
    cbn [alternation]. apply (IH _ _ Hrest).
Qed.

(** The pattern that [new RegExp] reads from literal names. *)
Lemma externalPredicate_literal (name : string) (names : list string) :
  Forall (fun n => literal n = true) (name :: names) ->
  RegExp.new (externalPredicate_source (name :: names))
  = Ok (external_pattern name names).
Proof.
  intros H. unfold RegExp.new, externalPredicate_source.
  change (RegExp.parse ("^(" +:+ JsString.join "|" (name :: names) +:+ ")($|/)")
            (None, RegExp.Empty) [])
    with (RegExp.parse (JsString.join "|" (name :: names) +:+ ")($|/)")
            (None, RegExp.Empty) [(None, RegExp.Seq RegExp.Empty RegExp.Bol)]).
  rewrite (parse_alternation _ _ _ _ _ H). reflexivity.
Qed.

Lemma matches_literal_seq (name : string) (r : RegExp.regex) (at_start : bool)
    (s : string) (k : bool -> string -> bool) :
  RegExp.matches (literal_seq r name) at_start s k
  = RegExp.matches r at_start s (fun b s' => literal_k name b s' k).
Proof.
  revert r. induction name as [|c name IH]; intros r; cbn [literal_seq].
  - reflexivity.
  - rewrite IH. reflexivity.
Qed.

Lemma literal_k_spec (name : string) (at_start : bool) (s : string)
    (accept : string -> bool) :
  literal_k name at_start s (fun _ rest => accept rest) = true
  <-> exists rest, s = name +:+ rest /\ accept rest = true.
Proof.
  revert at_start s. induction name as [|c name IH]; intros at_start s; cbn [literal_k].
  - split; [intros H; exists s; split; [reflexivity | exact H] |].
    intros (rest & -> & H). exact H.
  - destruct s as [|a s].
    + split; [discriminate | intros (rest & Heq & _); discriminate].
    + rewrite andb_true_iff, IH. split.
      * intros (Ha & rest & -> & Hacc). apply Ascii.eqb_eq in Ha. subst a.
        exists rest. split; [reflexivity | exact Hacc].
      * intros (rest & Heq & Hacc). rewrite string_app_cons in Heq.
        injection Heq as -> ->. split; [apply Ascii.eqb_refl |].
        exists rest. split; [reflexivity | exact Hacc].
Qed.

Lemma matches_alternation (name : string) (names : list string)
    (alts : option RegExp.regex) (at_start : bool) (s : string)
    (k : bool -> string -> bool) :
  RegExp.matches (RegExp.close (alternation alts name names)) at_start s k
  = (match alts with
     | Some r => RegExp.matches r at_start s k
     | None => false
     end)
    || existsb (fun n => literal_k n at_start s k) (name :: names).
Proof.
  revert name alts. induction names as [|name' names IH]; intros name alts.
  - cbn [alternation existsb]. rewrite orb_false_r.
    destruct alts as [r|]; cbn [RegExp.close RegExp.matches];
      rewrite matches_literal_seq; reflexivity.
  - cbn [alternation]. rewrite IH. cbn [existsb].
    destruct alts as [r|]; cbn [RegExp.close RegExp.matches];
      rewrite matches_literal_seq; cbn [RegExp.matches];
      rewrite ?orb_assoc; reflexivity.
Qed.

Lemma external_pattern_not_later (name : string) (names : list string) (s : string) :
  RegExp.test_from (external_pattern name names) false s = false.
Proof.
  induction s as [|a s IH]; [reflexivity |].
  cbn [RegExp.test_from]. rewrite IH. reflexivity.
Qed.

Lemma boundary_group (at_start : bool) (s : string) :
  RegExp.matches
    (RegExp.Alt (RegExp.Seq RegExp.Empty RegExp.Eol)
       (RegExp.Seq RegExp.Empty (RegExp.Char "/")))
    at_start s (fun _ _ => true)
  = boundary s.
Proof.
  destruct s as [|a s]; cbn [RegExp.matches boundary]; [reflexivity |].
  rewrite andb_true_r. reflexivity.
Qed.

Lemma literal_k_ext (name : string) (at_start : bool) (s : string)
    (k1 k2 : bool -> string -> bool) :
  (forall b rest, k1 b rest = k2 b rest) ->
  literal_k name at_start s k1 = literal_k name at_start s k2.
Proof.
  intros Hk. revert at_start s.
  induction name as [|c name IH]; intros at_start s; cbn [literal_k]; [apply Hk |].
  destruct s as [|a s]; [reflexivity |]. rewrite IH. reflexivity.
Qed.

Lemma existsb_pointwise {A : Type} (f g : A -> bool) (l : list A) :
  (forall x, f x = g x) -> existsb f l = existsb g l.
Proof.
  intros H. induction l as [|x l IH]; [reflexivity |].
  simpl. rewrite H, IH. reflexivity.
Qed.

Lemma test_external_pattern (name : string) (names : list string) (id : string) :
  RegExp.test (external_pattern name names) id
  = existsb (fun n => literal_k n true id (fun _ rest => boundary rest)) (name :: names).
Proof.
  unfold RegExp.test.
  assert (Hfirst : RegExp.matches (external_pattern name names) true id (fun _ _ => true)
                   = existsb (fun n => literal_k n true id (fun _ rest => boundary rest))
                       (name :: names)).
  { unfold external_pattern. cbn [RegExp.matches andb].
    rewrite matches_alternation. cbn [orb].
    apply existsb_pointwise. intros n. apply literal_k_ext. intros b rest.
    apply (boundary_group b rest). }
  destruct id as [|a id]; cbn [RegExp.test_from]; rewrite Hfirst.
  - apply orb_false_r.
  - rewrite external_pattern_not_later. apply orb_false_r.
Qed.

(** For literal names the predicate of externals accepts a specifier
    exactly when it is one of the names or a path below one of them. *)
Lemma externalTest_literal (name : string) (names : list string) (id : string) :
  externalTest (name :: names) (external_pattern name names) id = true
  <-> exists E, E ∈ name :: names /\ equals_or_is_below E id.
Proof.
  unfold externalTest. rewrite test_external_pattern, existsb_exists. split.
  - intros (E & Hin & Hk). exists E. split; [apply list_elem_of_In, Hin |].
    apply literal_k_spec in Hk as (rest & -> & Hb).
    destruct rest as [|a rest]; [left; apply string_app_nil_r |].
    apply Ascii.eqb_eq in Hb. subst a. right. exists rest. reflexivity.
  - intros (E & Hin & Hbelow). exists E. split; [apply list_elem_of_In, Hin |].
    apply literal_k_spec. destruct Hbelow as [-> | (sub & ->)].
    + exists "". split; [symmetry; apply string_app_nil_r | reflexivity].
    + exists ("/" +:+ sub). split; [reflexivity | reflexivity].
Qed.

(** In a step whose external names are all literal, a specifier other
    than the helper module and [.] is external exactly when it is one of
    the names or a path below one of them. *)
Lemma createConfig_classifies_literal_names {Bundle : Type} (world : World.t)
    (options : Options.t) (entry format : string) (writeMeta : bool)
    (config : Config.t Bundle) (id : string) :
  createConfig world options entry format writeMeta = Ok config ->
  Forall (fun n => literal n = true) (createConfig_external options entry) ->
  id <> "babel-plugin-transform-async-to-promises/helpers" -> id <> "." ->
  InputOptions.external (Config.inputOptions config) id = true
  <-> exists E, E ∈ createConfig_external options entry /\ equals_or_is_below E id.
Proof.
  intros H Hlit Hhelper Hdot.
  apply createConfig_external_field in H as (re & Hre & ->).
  unfold inputOptions_external.
  apply String.eqb_neq in Hhelper, Hdot. rewrite Hhelper, Hdot, andb_false_r.
  destruct (createConfig_external options entry) as [|name names] eqn:E.
  - split; [discriminate | intros (x & Hx & _); inversion Hx].
  - rewrite (externalPredicate_literal _ _ Hlit) in Hre. injection Hre as <-.
    apply externalTest_literal.
Qed.

(** ** When a plan is built *)

Lemma createConfig_external_flat (options : Options.t) (entry : string) :
  flat_names options ->
  Forall (fun name => flat name = true) (createConfig_external options entry).
Proof.
  intros (He & Hp & Hd & Ho). unfold createConfig_external.
  assert (Hbase : Forall (fun name => flat name = true)
                    (["dns"; "fs"; "path"; "url"]
                       ++ filter (fun e => e ≠ entry) (Options.entries options))).
  { apply Forall_app. split; [repeat constructor |].
    apply Forall_forall. intros x Hx. apply list_elem_of_filter in Hx as [_ Hx].
    rewrite Forall_forall in He. apply He, Hx. }
  destruct (Options.external options) as [override|] eqn:E.
  - destruct (String.eqb override "none"); [exact Hbase |].
    destruct (JsString.truthy override).
    + apply Forall_app. split; [exact Hbase |].
      apply Forall_app. split; [exact Hp | apply (Ho override), eq_refl].
    + apply Forall_app. split; [exact Hbase |].
      apply Forall_app. split; [exact Hp | exact Hd].
  - apply Forall_app. split; [exact Hbase |].
    apply Forall_app. split; [exact Hp | exact Hd].
Qed.

Lemma output_file_returns (world : World.t) (options : Options.t) (entry format : string) :
  format ∉ Object_prototype_keys ->
  exists file, output_file world options entry format = Ok file.
Proof.
  intros H. unfold output_file.
  destruct (String.eqb format "modern"); [eexists; reflexivity |].
  destruct (String.eqb format "es"); [eexists; reflexivity |].
  destruct (String.eqb format "umd"); [eexists; reflexivity |].
  rewrite bool_decide_eq_false_2 by exact H. eexists. reflexivity.
Qed.

(** [createConfig] returns a configuration whenever the names are flat
    and the format is not a property every object has. *)
Lemma createConfig_returns {Bundle : Type} (world : World.t) (options : Options.t)
    (entry format : string) (writeMeta : bool) :
  flat_names options -> format ∉ Object_prototype_keys ->
  exists config : Config.t Bundle,
    createConfig world options entry format writeMeta = Ok config.
Proof.
  intros Hflat Hformat. unfold createConfig.
  destruct (externalPredicate_parses _ (createConfig_external_flat options entry Hflat))
    as (re & ->).
  destruct (output_file_returns world options entry format Hformat) as (file & ->).
  eexists. reflexivity.
Qed.

Lemma push_formats_returns {Bundle : Type} (world : World.t) (options : Options.t)
    (entry : string) (i : nat) (formats : list string) (j : nat)
    (steps : list (Config.t Bundle)) :
  flat_names options -> Forall (fun format => format ∉ Object_prototype_keys) formats ->
  exists steps', push_formats world options entry i formats j steps = Ok steps'.
Proof.
  intros Hflat. revert j steps.
  induction formats as [|f formats IH]; intros j steps Hf; simpl.
  - eexists. reflexivity.
  - inversion Hf as [|? ? Hf1 Hf2]; subst.
    destruct (createConfig_returns (Bundle := Bundle) world options entry f
                ((i =? 0) && (j =? 0)) Hflat Hf1) as (config & ->).
    apply (IH _ _ Hf2).
Qed.

Lemma push_entries_returns {Bundle : Type} (world : World.t) (options : Options.t)
    (entries : list string) (i : nat) (formats : list string)
    (steps : list (Config.t Bundle)) :
  flat_names options -> Forall (fun format => format ∉ Object_prototype_keys) formats ->
  exists steps', push_entries world options entries i formats steps = Ok steps'.
Proof.
  intros Hflat Hf. revert i steps.
  induction entries as [|e entries IH]; intros i steps; simpl.
  - eexists. reflexivity.
  - destruct (push_formats_returns world options e i formats 0 steps Hflat Hf)
      as (steps' & ->).
    apply IH.
Qed.

Lemma sort_returns {A : Type} (comparefn : A -> A -> Z) (l : list A) :
  length l < 64 -> exists sorted, ArraySort.sort comparefn l = Ok sorted.
Proof.
  intros H. unfold ArraySort.sort.
  destruct (64 <=? length l) eqn:E; [apply Nat.leb_le in E; lia |].
  destruct (length l <? 2); [eexists; reflexivity |].
  destruct (ArraySort.CountAndMakeRun comparefn l). eexists. reflexivity.
Qed.

(** X20. The plan is built, for every host, whenever a format list is given
    with fewer than 64 formats, none of them a property every object
    has, and all names are flat. *)
Lemma microbundle_steps_returns {Bundle : Type} (world : World.t) (options : Options.t)
    (requested : list string) :
  requested_formats options = Ok requested ->
  length requested < 64 ->
  Forall (fun format => format ∉ Object_prototype_keys) requested ->
  flat_names options ->
  exists steps : list (Config.t Bundle), microbundle_steps world options = Ok steps.
Proof.
  intros Hreq Hlen Hformats Hflat. unfold microbundle_steps.
  assert (Hreq' : requested_formats
                    (Options.set_multipleEntries
                       (1 <? length (Options.entries options)) options)
                  = Ok requested) by (destruct options; exact Hreq).
  rewrite Hreq'. simpl.
  destruct (sort_returns cjs_first requested Hlen) as (sorted & Hsort).
  rewrite Hsort. simpl.
  apply push_entries_returns.
  - destruct options; exact Hflat.
  - rewrite (sort_perm _ _ _ Hsort). exact Hformats.
Qed.

(** ** Output files *)

Lemma default_suffix_dotted (format : string) : dotted_suffix (default_suffix format).
Proof.
  unfold default_suffix.
  repeat match goal with |- context [if ?b then _ else _] => destruct b end;
    (split; [eexists; reflexivity | split; [reflexivity | simpl; lia]]).
Qed.

Lemma default_suffix_inj (f1 f2 : string) :
  f1 ∈ known_formats -> f2 ∈ known_formats ->
  default_suffix f1 = default_suffix f2 -> f1 = f2.
Proof.
  unfold known_formats. rewrite !elem_of_cons, !elem_of_nil.
  intros [-> | [-> | [-> | [-> | []]]]] [-> | [-> | [-> | [-> | []]]]];
    vm_compute; congruence.
Qed.

(** Without overrides in the manifest, the file of a step is a path that
    depends on the entry only, followed by the suffix of the format. *)
Lemma output_file_default (world : World.t) (options : Options.t) (entry : string) :
  no_main_overrides (Options.pkg options) ->
  exists stem, forall format, format ∈ known_formats ->
    output_file world options entry format = Ok (stem +:+ default_suffix format).
Proof.
  intros (Hm & Hj & Hc & Hu & Hs & He).
  destruct (resolve_suffix (World.process_cwd world) "."
              (mainNoExtension world options entry)) as (stem1 & H1).
  destruct (resolve_suffix (World.process_cwd world) (Options.cwd options) stem1)
    as (stem2 & H2).
  exists stem2. intros format Hin.
  assert (Hname : forall suffix, dotted_suffix suffix ->
            resolve world [Options.cwd options;
                           resolve world ["."; mainNoExtension world options entry
                                                 +:+ suffix]]
            = stem2 +:+ suffix).
  { intros suffix Hd. unfold resolve. rewrite (H1 _ Hd). apply (H2 _ Hd). }
  unfold known_formats in Hin. rewrite !elem_of_cons, elem_of_nil in Hin.
  destruct Hin as [-> | [-> | [-> | [-> | []]]]].
  - unfold output_file, cjsMain, replaceName. simpl. rewrite Hc.
    exact (f_equal Ok (Hname ".js" (default_suffix_dotted "cjs"))).
  - unfold output_file, moduleMain, replaceName. simpl. rewrite Hm, Hj.
    exact (f_equal Ok (Hname ".esm.js" (default_suffix_dotted "es"))).
  - unfold output_file, umdMain, replaceName. simpl. rewrite Hu.
    exact (f_equal Ok (Hname ".umd.js" (default_suffix_dotted "umd"))).
  - unfold output_file, modernMain, replaceName. simpl. rewrite Hs, He.
    exact (f_equal Ok (Hname ".modern.js" (default_suffix_dotted "modern"))).
Qed.

(** ** Exceptions *)

Lemma parse_no_ConfigurationError (src : string) (cur : RegExp.frame)
    (stack : list RegExp.frame) :
  RegExp.parse src cur stack <> Throw ConfigurationError.
Proof.
  revert cur stack. induction src as [|c src IH]; intros cur stack; simpl.
  - destruct stack; discriminate.
  - repeat match goal with
           | |- (if ?b then _ else _) <> _ => destruct b
           | |- match ?s with [] => _ | _ :: _ => _ end <> _ => destruct s
           end; try discriminate; apply IH.
Qed.

Lemma createConfig_no_ConfigurationError {Bundle : Type} (world : World.t)
    (options : Options.t) (entry format : string) (writeMeta : bool) :
  createConfig (Bundle := Bundle) world options entry format writeMeta
  <> Throw ConfigurationError.
Proof.
  unfold createConfig.
  pose proof (parse_no_ConfigurationError
                (externalPredicate_source (createConfig_external options entry))
                (None, RegExp.Empty) []) as Hre.
  unfold RegExp.new. destruct (RegExp.parse _ _ _) as [re|e|]; simpl.
  - unfold output_file.
    repeat match goal with
           | |- context [if ?b then _ else _] => destruct b
           end; discriminate.
  - intros [= ->]. apply Hre. reflexivity.
  - discriminate.
Qed.

Lemma push_formats_no_ConfigurationError {Bundle : Type} (world : World.t)
    (options : Options.t) (entry : string) (i : nat) (formats : list string) (j : nat)
    (steps : list (Config.t Bundle)) :
  push_formats world options entry i formats j steps <> Throw ConfigurationError.
Proof.
  revert j steps. induction formats as [|f formats IH]; intros j steps; simpl.
  - discriminate.
  - pose proof (createConfig_no_ConfigurationError (Bundle := Bundle)
                  world options entry f ((i =? 0) && (j =? 0))) as Hc.
    destruct (createConfig _ _ _ _ _) as [c|e|]; simpl.
    + apply IH.
    + intros [= ->]. apply Hc. reflexivity.
    + discriminate.
Qed.

Lemma push_entries_no_ConfigurationError {Bundle : Type} (world : World.t)
    (options : Options.t) (entries : list string) (i : nat) (formats : list string)
    (steps : list (Config.t Bundle)) :
  push_entries world options entries i formats steps <> Throw ConfigurationError.
Proof.
  revert i steps. induction entries as [|e entries IH]; intros i steps; simpl.
  - discriminate.
  - pose proof (push_formats_no_ConfigurationError world options e i formats 0 steps)
      as Hc.
    destruct (push_formats _ _ _ _ _ _ _) as [c|err|]; simpl.
    + apply IH.
    + intros [= ->]. apply Hc. reflexivity.
    + discriminate.
Qed.

Lemma microbundle_steps_no_ConfigurationError {Bundle : Type} (world : World.t)
    (options : Options.t) :
  microbundle_steps (Bundle := Bundle) world options <> Throw ConfigurationError.
Proof.
  unfold microbundle_steps, requested_formats.
  destruct (JsString.or_else _ _); simpl; [| discriminate].
  unfold ArraySort.sort.
  destruct (64 <=? _); simpl; [discriminate |].
  destruct (_ <? 2); simpl; [apply push_entries_no_ConfigurationError |].
  destruct (ArraySort.CountAndMakeRun _ _). simpl.
  apply push_entries_no_ConfigurationError.
Qed.

(** ** The name cache *)

Lemma createConfig_plugins_unusable (world : World.t) (options : Options.t)
    (writeMeta : bool) :
  loadNameCache world options = None ->
  createConfig_plugins world options writeMeta
  = [Postcss writeMeta; ShebangTransform (Options.name options)]
      ++ (if Options.compress options then [Terser JNull] else []).
Proof.
  intros H. unfold createConfig_plugins, createConfig_nameCache. rewrite H.
  simpl. destruct (Options.compress options); reflexivity.
Qed.

(** Whether [createConfig] returns does not depend on the files of the
    host, and neither does any field but the stage list. *)
Lemma createConfig_any_files {Bundle : Type} (world world' : World.t)
    (options : Options.t) (entry format : string) (writeMeta : bool)
    (config' : Config.t Bundle) :
  World.process_cwd world = World.process_cwd world' ->
  createConfig world' options entry format writeMeta = Ok config' ->
  exists config : Config.t Bundle,
    createConfig world options entry format writeMeta = Ok config
    /\ Config.outputOptions config = Config.outputOptions config'
    /\ InputOptions.input (Config.inputOptions config)
       = InputOptions.input (Config.inputOptions config')
    /\ InputOptions.plugins (Config.inputOptions config)
       = createConfig_plugins world options writeMeta.
Proof.
  intros Hcwd H. unfold createConfig in *. bind_inv H. bind_inv H.
  injection H as <-. rewrite Ha. simpl.
  assert (Hfile : output_file world options entry format = Ok a0).
  { rewrite <- Ha0.
    unfold output_file, modernMain, moduleMain, umdMain, cjsMain, replaceName,
      mainNoExtension, resolve. rewrite Hcwd. reflexivity. }
  rewrite Hfile. simpl. eexists. split; [reflexivity |].
  simpl. repeat split; reflexivity.
Qed.

Lemma writeBundle_writes_origin {Bundle : Type} (world : World.t) (options : Options.t)
    (entry format : string) (writeMeta : bool) (config : Config.t Bundle)
    (nameCache : json) (w : fs_write) :
  createConfig world options entry format writeMeta = Ok config ->
  w ∈ writeBundle_writes config nameCache ->
  writeMeta = true
  /\ Options.compress options = true
  /\ Json.truthy (createConfig_nameCache world options) = true
  /\ Json.truthy nameCache = true
  /\ w = WriteFile (getNameCachePath world options) nameCache.
Proof.
  intros H Hw. apply createConfig_fields in H as (_ & _ & Hp & _).
  unfold writeBundle_writes in Hw. rewrite Hp in Hw.
  unfold createConfig_plugins in Hw.
  destruct (Options.compress options); simpl in Hw; [| inversion Hw].
  destruct (Json.truthy (createConfig_nameCache world options)); simpl in Hw;
    [| inversion Hw].
  destruct writeMeta; simpl in Hw; [| inversion Hw].
  destruct (Json.truthy nameCache); simpl in Hw; [| inversion Hw].
  apply list_elem_of_singleton in Hw. repeat split; assumption.
Qed.

(** C7, as amended. A cache file that is missing or does not parse makes
    no step fail: a step that can be configured on some host is configured
    on the host with the unusable file too. That step runs without a name
    cache ([nameCache] is [null]) and without the hooks of the cache, so
    nothing is written when it completes. Whenever a step does write the
    cache file, it is the primary step, compression is on, and the cache
    file was read and parsed when the step was configured. *)
Theorem C7_unusable_cache_file_is_ignored {Bundle : Type} (world : World.t)
    (options : Options.t) (entry format : string) (writeMeta : bool) :
  (forall (world' : World.t) (config' : Config.t Bundle),
     loadNameCache world options = None ->
     World.process_cwd world = World.process_cwd world' ->
     createConfig world' options entry format writeMeta = Ok config' ->
     exists config : Config.t Bundle,
       createConfig world options entry format writeMeta = Ok config
       /\ Config.outputOptions config = Config.outputOptions config'
       /\ InputOptions.plugins (Config.inputOptions config)
          = [Postcss writeMeta; ShebangTransform (Options.name options)]
              ++ (if Options.compress options then [Terser JNull] else [])
       /\ forall nameCache, writeBundle_writes config nameCache = [])
  /\ (forall (config : Config.t Bundle) (nameCache : json) (w : fs_write),
        createConfig world options entry format writeMeta = Ok config ->
        w ∈ writeBundle_writes config nameCache ->
        writeMeta = true
        /\ Options.compress options = true
        /\ exists loaded,
             loadNameCache world options = Some loaded
             /\ Json.truthy loaded = true).
Proof.
  split.
  - intros world' config' Hload Hcwd H.
    destruct (createConfig_any_files world world' _ _ _ _ _ Hcwd H)
      as (config & Hc & Ho & _ & Hp).
    exists config. rewrite (createConfig_plugins_unusable _ _ _ Hload) in Hp.
    split; [exact Hc | split; [exact Ho | split; [exact Hp |]]].
    intros nameCache. unfold writeBundle_writes. rewrite Hp.
    destruct (Options.compress options); reflexivity.
  - intros config nameCache w H Hw.
    destruct (writeBundle_writes_origin _ _ _ _ _ _ _ _ H Hw)
      as (Hm & Hc & Ht & _ & _).
    split; [exact Hm | split; [exact Hc |]].
    unfold createConfig_nameCache in Ht.
    destruct (loadNameCache world options) as [loaded|]; [| discriminate].
    exists loaded. split; [reflexivity | exact Ht].
Qed.

(** ** The batch executor *)

Section BatchFacts.
Context {Bundle : Type}.
Variable rollup : InputOptions.t Bundle -> outcome Bundle.
Variable bundle_write : Bundle -> OutputOptions.t -> outcome unit.
Variable sizeInfo : Config.t Bundle -> string.

Lemma series_calls (steps : list (Config.t Bundle)) (cache0 : option Bundle)
    (k : nat) (call : InputOptions.t Bundle) :
  (series rollup bundle_write sizeInfo steps cache0).1 !! k = Some call ->
  exists config cache,
    steps !! k = Some config
    /\ call = with_cache cache (Config.inputOptions config)
    /\ match k with
       | 0 => cache = cache0
       | S _ =>
           previous_bundle rollup
             (series rollup bundle_write sizeInfo steps cache0).1 k cache
       end.
Proof.
  revert cache0 k. induction steps as [|config steps IH]; intros cache0 k; simpl.
  - rewrite lookup_nil. discriminate.
  - destruct (rollup (with_cache cache0 (Config.inputOptions config)))
      as [bundle|e|] eqn:Hr;
      [destruct (bundle_write bundle (Config.outputOptions config)) as [[]|e|] eqn:Hw |..].
    2-5: destruct k as [|k]; simpl; [| rewrite lookup_nil; discriminate];
         intros [= <-]; exists config, cache0; repeat split; reflexivity.
    specialize (IH (Some bundle)).
    destruct (series rollup bundle_write sizeInfo steps (Some bundle))
      as [calls out] eqn:Hs.
    simpl in *. destruct k as [|k]; simpl.
    + intros [= <-]. exists config, cache0. repeat split; reflexivity.
    + intros Hk. destruct (IH k Hk) as (config' & cache & Hstep & Hcall & Hprev).
      exists config', cache. split; [exact Hstep | split; [exact Hcall |]].
      destruct k as [|k]; simpl.
      * subst cache. eexists _, bundle. split; [reflexivity | split; [exact Hr | reflexivity]].
      * destruct Hprev as (pcall & pbundle & Hp & Hpr & Hc).
        exists pcall, pbundle. split; [exact Hp | split; [exact Hpr | exact Hc]].
Qed.

Lemma series_complete (steps : list (Config.t Bundle)) (cache0 : option Bundle)
    (texts : list string) :
  (series rollup bundle_write sizeInfo steps cache0).2 = Ok texts ->
  length (series rollup bundle_write sizeInfo steps cache0).1 = length steps
  /\ texts = map sizeInfo steps.
Proof.
  revert cache0 texts. induction steps as [|config steps IH]; intros cache0 texts; simpl.
  - intros [= <-]. split; reflexivity.
  - destruct (rollup _) as [bundle|e|]; [| discriminate..].
    destruct (bundle_write _ _) as [[]|e|]; [| discriminate..].
    specialize (IH (Some bundle)).
    destruct (series rollup bundle_write sizeInfo steps (Some bundle)) as [calls out].
    simpl in *. intros H. bind_inv H. injection H as <-.
    destruct (IH a Ha) as [-> ->]. split; reflexivity.
Qed.
End BatchFacts.

(** C8. In a batch the steps of the plan are handed to the bundler one
    after another in plan order: the call at index [k] is for the step at
    index [k] and is made after the call before it has returned its
    bundle. A step built for [modern] keeps its cache switched off; every
    other step gets the bundle of the call just before it as its cache,
    and the first step gets none. When the batch succeeds every step has
    run. *)
Theorem C8_batch_in_plan_order_with_previous_bundle {Bundle : Type} (world : World.t)
    (options : Options.t) (rollup : InputOptions.t Bundle -> outcome Bundle)
    (bundle_write : Bundle -> OutputOptions.t -> outcome unit)
    (sizeInfo : Config.t Bundle -> string)
    (steps : list (Config.t Bundle)) (calls : list (InputOptions.t Bundle))
    (out : outcome (list string)) :
  microbundle_steps world options = Ok steps ->
  batch rollup bundle_write sizeInfo steps = (calls, out) ->
  (forall texts, out = Ok texts -> length calls = length steps)
  /\ forall k call, calls !! k = Some call ->
       exists config request cache,
         steps !! k = Some config
         /\ built world (plan_options options) request config
         /\ InputOptions.input call = Request.entry request
         /\ previous_bundle rollup calls k cache
         /\ InputOptions.cache call
            = if String.eqb (Request.format request) "modern" then CacheFalse
              else cache_of cache.
Proof.
  intros Hplan Hbatch. unfold batch in Hbatch. split.
  - intros texts ->.
    pose proof (series_complete rollup bundle_write sizeInfo steps None texts) as H.
    rewrite Hbatch in H. apply H. reflexivity.
  - intros k call Hk.
    pose proof (series_calls rollup bundle_write sizeInfo steps None k call) as H.
    rewrite Hbatch in H. destruct (H Hk) as (config & cache & Hstep & Hcall & Hprev).
    apply microbundle_steps_built in Hplan as (requested & formats & _ & _ & Hall).
    destruct (Forall2_lookup_r _ _ _ _ _ Hall Hstep) as (request & _ & Hb).
    exists config, request, cache.
    pose proof (createConfig_fields _ _ _ _ _ _ Hb) as (Hi & Hc & _).
    split; [exact Hstep | split; [exact Hb |]].
    subst call. unfold with_cache. rewrite Hc. simpl in Hprev.
    assert (Hp : previous_bundle rollup calls k cache) by (destruct k; exact Hprev).
    destruct (String.eqb (Request.format request) "modern"); simpl.
    + split; [exact Hi | split; [exact Hp | exact Hc]].
    + split; [exact Hi | split; [exact Hp | reflexivity]].
Qed.

(** ** The watch orchestrator *)





(** ** The shebang *)

Lemma line_after_line (s : string) : Shebang.line s +:+ Shebang.after_line s = s.
Proof.
  induction s as [|c s IH]; [reflexivity |]. simpl.
  destruct (Ascii.eqb c Shebang.newline); [reflexivity |].
  rewrite string_app_cons, IH. reflexivity.
Qed.

Lemma bang_inv (code line : string) :
  Shebang.bang code = Some line ->
  exists rest, code = "#!" +:+ rest /\ line = "#!" +:+ Shebang.line rest.
Proof.
  unfold Shebang.bang.
  destruct code as [|c0 code]; [discriminate |].
  destruct c0 as [[] [] [] [] [] [] [] []]; try discriminate.
  destruct code as [|c1 code]; [discriminate |].
  destruct c1 as [[] [] [] [] [] [] [] []]; try discriminate.
  intros [= <-]. exists code. split; reflexivity.
Qed.

(** The part of the round trip that holds: the shebang line of the code
    is stored under the build name, the banner of every step with that
    name is that line, and the emitted file begins with it. *)
Lemma shebang_round_trip (name code line : string) (shebang : ShebangTable)
    (outputOptions : OutputOptions.t) (rendered : string) :
  Shebang.bang code = Some line ->
  OutputOptions.name outputOptions = name ->
  name <> "__proto__" ->
  let shebang' := (Shebang.transform name code shebang).2 in
  shebang' !! name = Some line
  /\ OutputOptions.banner outputOptions shebang' = Some line
  /\ Shebang.emit (OutputOptions.banner outputOptions shebang') rendered
     = line +:+ String Shebang.newline rendered
  /\ exists rest,
       code = line +:+ rest
       /\ (Shebang.transform name code shebang).1 = "undefined" +:+ rest.
Proof.
  intros Hbang Hname Hproto. apply bang_inv in Hbang as (rest & -> & ->).
  apply String.eqb_neq in Hproto.
  change (Shebang.transform name ("#!" +:+ rest) shebang)
    with ("undefined" +:+ Shebang.after_line rest,
          if String.eqb name "__proto__" then shebang
          else <[name := "#!" +:+ Shebang.line rest]> shebang).
  rewrite Hproto.
  cbn [fst snd]. unfold OutputOptions.banner. rewrite Hname, lookup_insert_eq.
  split; [reflexivity | split; [reflexivity | split; [reflexivity |]]].
  exists (Shebang.after_line rest). split; [| reflexivity].
  rewrite string_app_assoc, line_after_line. reflexivity.
Qed.


(** ** The bundle module *)

Lemma getExternals_none (dependencies peerDependencies : option (list string)) :
  getExternals (Some "none") dependencies peerDependencies = [].
Proof. reflexivity. Qed.

Lemma createConfig_external_none (options : Options.t) (entry : string) :
  Options.external options = Some "none" ->
  createConfig_external options entry
  = ["dns"; "fs"; "path"; "url"] ++ filter (fun e => e ≠ entry) (Options.entries options).
Proof. intros H. unfold createConfig_external. rewrite H. reflexivity. Qed.

Lemma mapM_Ok {A B : Type} (f : A -> outcome B) (l : list A) (l' : list B) :
  mapM f l = Ok l' -> Forall2 (fun x y => f x = Ok y) l l'.
Proof.
  revert l'. induction l as [|x l IH]; intros l'; simpl.
  - intros [= <-]. constructor.
  - intros H. bind_inv H. bind_inv H. injection H as <-.
    constructor; [exact Ha | apply IH, Ha0].
Qed.

(** [generateBundle] writes the bundle once per requested format, [cjs]
    first when it is requested, each time with the banner found in the
    shebang table. *)
Lemma generateBundle_writes_cjs_first (name format : string) (shebang : ShebangTable)
    (writes : list WriteOptions.t) :
  generateBundle_writes name format shebang = Ok writes ->
  length writes = length (JsString.split "," format)
  /\ Forall (fun w => WriteOptions.banner w = shebang !! name) writes
  /\ ("cjs" ∈ JsString.split "," format ->
      WriteOptions.format <$> head writes = Some "cjs").
Proof.
  unfold generateBundle_writes. intros H. bind_inv H. rename a into formats.
  apply mapM_Ok in H. split; [| split].
  - rewrite <- (Forall2_length _ _ _ H). apply (sort_length _ _ _ Ha).
  - clear Ha. induction H as [|f w fs ws Hw _ IH]; constructor; [| exact IH].
    destruct (FORMATS_ext f); [| discriminate]. injection Hw as <-. reflexivity.
  - intros Hcjs. pose proof (sort_cjs_first _ _ Ha Hcjs) as Hhead.
    destruct H as [|f w fs ws Hw _]; [discriminate |].
    injection Hhead as ->. simpl in Hw. injection Hw as <-. reflexivity.
Qed.

(** A reload that fails keeps the cache the step already has. *)
Lemma hook_options_unusable (world : World.t) (options : Options.t) (nameCache : json) :
  loadNameCache world options = None ->
  hook_options world options nameCache = nameCache.
Proof. intros H. unfold hook_options. rewrite H. reflexivity. Qed.

(** ** The properties on the sample projects *)

(** C2, counterexample. A format requested twice gives a plan of two
    steps with one output file; the plan is built, no error is raised. *)
Lemma C2_counterexample :
  exists c1 c2 : Config.t unit,
    microbundle_steps Examples.world Examples.repeated_format = Ok [c1; c2]
    /\ OutputOptions.file (Config.outputOptions c1) = "/p/dist/demo.js"
    /\ OutputOptions.file (Config.outputOptions c2) = "/p/dist/demo.js".
Proof.
  do 2 eexists. split; [vm_compute; reflexivity |]. split; reflexivity.
Qed.


(** C4, at the failing input. With [external] set to [none] the array
    of [getExternals] is empty, whatever the manifest declares, and the
    bundler then treats nothing as external; the external list of
    [createConfig] keeps the four built-in modules, so its predicate still
    answers [true] for [fs]. *)
Theorem C4_none_keeps_builtins_external :
  getExternals (Some "none") (Some ["react"]) (Some ["preact"]) = []
  /\ array_external (getExternals (Some "none") (Some ["react"]) (Some ["preact"])) "fs"
     = false
  /\ createConfig_external Examples.bundle_everything "/p/src/index.js"
     = ["dns"; "fs"; "path"; "url"]
  /\ exists config : Config.t unit,
       createConfig Examples.world Examples.bundle_everything "/p/src/index.js" "cjs" true
       = Ok config
       /\ InputOptions.external (Config.inputOptions config) "fs" = true
       /\ InputOptions.external (Config.inputOptions config) "react" = false.
Proof.
  split; [reflexivity | split; [reflexivity | split; [reflexivity |]]].
  eexists. split; [vm_compute; reflexivity |]. split; vm_compute; reflexivity.
Qed.

(** C5, at the failing input. For the dependency [react] the predicate
    accepts [react] and [react/jsx-runtime] and rejects [lodash] and
    [reactive]. For the dependency [lodash.debounce] it also accepts
    [lodash-debounce], which neither equals the name nor lies under it:
    the dot of the name is read as a pattern. *)
Theorem C5_dot_of_a_name_matches_any_character :
  (exists config : Config.t unit,
     createConfig Examples.world Examples.demo "/p/src/index.js" "cjs" true = Ok config
     /\ InputOptions.external (Config.inputOptions config) "react" = true
     /\ InputOptions.external (Config.inputOptions config) "react/jsx-runtime" = true
     /\ InputOptions.external (Config.inputOptions config) "lodash" = false
     /\ InputOptions.external (Config.inputOptions config) "reactive" = false)
  /\ (exists config : Config.t unit,
        createConfig Examples.world Examples.dotted_dependency "/p/src/index.js" "cjs" true
        = Ok config
        /\ InputOptions.external (Config.inputOptions config) "lodash.debounce" = true
        /\ InputOptions.external (Config.inputOptions config) "lodash-debounce" = true).
Proof.
  split; eexists; (split; [vm_compute; reflexivity |]);
    repeat split; vm_compute; reflexivity.
Qed.

(** C6, at the failing input. For a script that begins with
    [#!/usr/bin/env node] the transform stores that line under the build
    name and the banner of the step returns it, but the code handed on is
    not the script without its first line: the text [undefined] stands
    where the line was. *)
Theorem C6_shebang_line_replaced_by_undefined :
  let result := Shebang.transform "demo" Examples.cli_source ∅ in
  Shebang.bang Examples.cli_source = Some "#!/usr/bin/env node"
  /\ result.2 !! "demo" = Some "#!/usr/bin/env node"
  /\ result.1 = "undefined" +:+ String Shebang.newline "console.log(1)"
  /\ result.1 <> String Shebang.newline "console.log(1)"
  /\ exists config : Config.t unit,
       createConfig Examples.world Examples.demo "/p/src/index.js" "cjs" true = Ok config
       /\ OutputOptions.banner (Config.outputOptions config) result.2
          = Some "#!/usr/bin/env node".
Proof.
  split; [reflexivity | split; [vm_compute; reflexivity | split; [reflexivity |]]].
  split; [discriminate |].
  eexists. split; [vm_compute; reflexivity | vm_compute; reflexivity].
Qed.

(** C7, counterexample. The manifest names the cache file
    [names.json], compression is on and the file cannot be read: the
    primary step is configured, without the hooks of the cache, and
    writes no cache file when it completes. *)
Lemma C7_counterexample :
  exists config : Config.t unit,
    getNameCachePath Examples.world Examples.with_cache_path = "/p/names.json"
    /\ World.readFileSync Examples.world "/p/names.json" = None
    /\ Options.compress Examples.with_cache_path = true
    /\ createConfig Examples.world Examples.with_cache_path "/p/src/index.js" "cjs" true
       = Ok config
    /\ InputOptions.plugins (Config.inputOptions config)
       = [Postcss true; ShebangTransform "demo"; Terser JNull]
    /\ forall nameCache, writeBundle_writes config nameCache = [].
Proof.
  eexists. split; [reflexivity | split; [reflexivity | split; [reflexivity |]]].
  split; [vm_compute; reflexivity |]. split; [reflexivity |].
  intros nameCache. reflexivity.
Qed.

Lemma C7_witness :
  (exists config : Config.t unit,
     createConfig Examples.world Examples.with_cache_path "/p/src/index.js" "cjs" true
     = Ok config
     /\ forall nameCache, writeBundle_writes config nameCache = [])
  /\ (exists config : Config.t unit,
        createConfig Examples.cached_world Examples.with_cache_path
          "/p/src/index.js" "cjs" true = Ok config
        /\ WriteFile "/p/names.json" (JObject [])
           ∈ writeBundle_writes config (JObject [])
        /\ exists loaded,
             loadNameCache Examples.cached_world Examples.with_cache_path = Some loaded
             /\ Json.truthy loaded = true).
Proof.
  split.
  - destruct (createConfig (Bundle := unit) Examples.cached_world
                Examples.with_cache_path "/p/src/index.js" "cjs" true)
      as [config'|e|] eqn:H'; [| vm_compute in H'; discriminate..].
    destruct (proj1 (C7_unusable_cache_file_is_ignored Examples.world
                       Examples.with_cache_path "/p/src/index.js" "cjs" true)
                Examples.cached_world config' eq_refl eq_refl H')
      as (config & Hc & _ & _ & Hw).
    exists config. split; [exact Hc | exact Hw].
  - destruct (createConfig (Bundle := unit) Examples.cached_world
                Examples.with_cache_path "/p/src/index.js" "cjs" true)
      as [config|e|] eqn:H; [| vm_compute in H; discriminate..].
    assert (Hw : WriteFile "/p/names.json" (JObject [])
                 ∈ writeBundle_writes config (JObject [])).
    { vm_compute in H. injection H as <-. apply list_elem_of_here. }
    exists config. split; [reflexivity | split; [exact Hw |]].
    apply (proj2 (C7_unusable_cache_file_is_ignored Examples.cached_world
                    Examples.with_cache_path "/p/src/index.js" "cjs" true)
             config (JObject []) _ H Hw).
Defined.

Lemma C8_witness :
  exists steps calls out,
    microbundle_steps Examples.world Examples.demo = Ok steps
    /\ batch Examples.rollup Examples.bundle_write Examples.sizeInfo steps = (calls, out)
    /\ length calls = 4
    /\ (InputOptions.cache <$> calls)
       = [CacheUndefined; CacheFalse;
          CacheBundle "bundle of /p/src/index.js";
          CacheBundle "bundle of /p/src/index.js"]
    /\ forall k call, calls !! k = Some call ->
         exists config request cache,
           steps !! k = Some config
           /\ built Examples.world (plan_options Examples.demo) request config
           /\ InputOptions.input call = Request.entry request
           /\ previous_bundle Examples.rollup calls k cache
           /\ InputOptions.cache call
              = if String.eqb (Request.format request) "modern" then CacheFalse
                else cache_of cache.
Proof.
  destruct (microbundle_steps (Bundle := string) Examples.world Examples.demo)
    as [steps|e|] eqn:Hplan; [| vm_compute in Hplan; discriminate..].
  destruct (batch Examples.rollup Examples.bundle_write Examples.sizeInfo steps)
    as [calls out] eqn:Hbatch.
  exists steps, calls, out. split; [reflexivity | split; [exact Hbatch |]].
  pose proof (C8_batch_in_plan_order_with_previous_bundle _ _ _ _ _ _ _ _
                Hplan Hbatch) as [_ Hcalls].
  vm_compute in Hplan. injection Hplan as <-.
  vm_compute in Hbatch. injection Hbatch as <- <-.
  split; [reflexivity | split; [reflexivity | exact Hcalls]].
Defined.


(** The external set of this project matches the helper module of the
    async transform, and the predicate of its steps still bundles it. *)
Lemma C10_witness :
  exists (c1 c2 : Config.t unit) re,
    microbundle_steps Examples.world Examples.helpers_declared = Ok [c1; c2]
    /\ RegExp.new (externalPredicate_source
                     (createConfig_external (plan_options Examples.helpers_declared)
                        "/p/src/index.js")) = Ok re
    /\ RegExp.test re "babel-plugin-transform-async-to-promises/helpers" = true
    /\ InputOptions.external (Config.inputOptions c1)
         "babel-plugin-transform-async-to-promises/helpers" = false
    /\ InputOptions.external (Config.inputOptions c1) "." = true.
Proof.
  do 3 eexists. split; [vm_compute; reflexivity |].
  split; [vm_compute; reflexivity |]. split; [vm_compute; reflexivity |].
  eassert (H : _ /\ (1 < 2 -> _)).
  { eapply (C10_helpers_bundled_dot_external Examples.world Examples.helpers_declared).
    - vm_compute. reflexivity.
    - apply list_elem_of_here. }
  destruct H as [Hh Hd]. split; [exact Hh | exact (Hd ltac:(lia))].
Defined.

(** * Further properties of the code *)

(** ** The order of the formats *)

Lemma cjs_block_comm (block tail : list string) :
  Forall (fun f => f = "cjs") block ->
  block ++ "cjs" :: tail = "cjs" :: block ++ tail.
Proof.
  induction 1 as [|f block Hf _ IH]; [reflexivity |].
  subst f. simpl. rewrite IH. reflexivity.
Qed.

Lemma cjs_block_rev (block : list string) :
  Forall (fun f => f = "cjs") block -> rev block = block.
Proof.
  induction 1 as [|f block Hf Hall IH]; [reflexivity |].
  subst f. simpl. rewrite IH.
  change ["cjs"] with ("cjs" :: @nil string).
  rewrite cjs_block_comm by exact Hall. rewrite app_nil_r. reflexivity.
Qed.

Lemma filter_cjs_block (block : list string) :
  Forall (fun f => f = "cjs") block ->
  filter (fun f => f = "cjs") block = block
  /\ filter (fun f => f <> "cjs") block = [].
Proof.
  induction 1 as [|f block Hf _ [IH1 IH2]]; [split; reflexivity |].
  subst f. split.
  - rewrite filter_cons_True by reflexivity. rewrite IH1. reflexivity.
  - rewrite filter_cons_False by (intros H; apply H; reflexivity). exact IH2.
Qed.

Lemma filter_no_cjs (l : list string) :
  "cjs" ∉ l ->
  filter (fun f => f = "cjs") l = []
  /\ filter (fun f => f <> "cjs") l = l.
Proof.
  induction l as [|f l IH]; intros Hnot; [split; reflexivity |].
  apply not_elem_of_cons in Hnot as [Hne Hnot]. destruct (IH Hnot) as [IH1 IH2].
  split.
  - rewrite filter_cons_False by (intros ->; apply Hne; reflexivity). exact IH1.
  - rewrite filter_cons_True by (intros ->; apply Hne; reflexivity).
    rewrite IH2. reflexivity.
Qed.

Lemma filter_cjs_all (l : list string) :
  Forall (fun f => f = "cjs") (filter (fun f => f = "cjs") l).
Proof.
  apply Forall_forall. intros f Hf. apply list_elem_of_filter in Hf. apply Hf.
Qed.

(** Binary insertion with the comparator of [microbundle]: every [cjs]
    of the rest goes before the run, every other format behind it, in
    the order of the array. *)
Lemma BinaryInsertionSort_cjs_first (rest run : list string) :
  ArraySort.BinaryInsertionSort cjs_first run rest
  = filter (fun f => f = "cjs") rest ++ run ++ filter (fun f => f <> "cjs") rest.
Proof.
  unfold ArraySort.BinaryInsertionSort. revert run.
  induction rest as [|p rest IH]; intros run; simpl.
  - rewrite app_nil_r. reflexivity.
  - rewrite IH, insert_pivot_cjs_first.
    destruct (String.eqb p "cjs") eqn:E.
    + apply String.eqb_eq in E. subst p.
      rewrite filter_cons_True by reflexivity.
      rewrite filter_cons_False by (intros H; apply H; reflexivity).
      simpl. apply cjs_block_comm, filter_cjs_all.
    + apply String.eqb_neq in E.
      rewrite filter_cons_False by exact E.
      rewrite filter_cons_True by exact E.
      rewrite <- !app_assoc. reflexivity.
Qed.

(** The case of a descending run: [a0], then [cjs] one or more times. *)
Lemma descending_run_sorted (a0 : string) (block rest : list string) :
  Forall (fun f => f = "cjs") block ->
  filter (fun f => f = "cjs") rest ++ rev (a0 :: "cjs" :: block)
    ++ filter (fun f => f <> "cjs") rest
  = filter (fun f => f = "cjs") (a0 :: "cjs" :: block ++ rest)
      ++ filter (fun f => f <> "cjs") (a0 :: "cjs" :: block ++ rest).
Proof.
  intros Hall.
  destruct (filter_cjs_block _ Hall) as [Hf1 Hf2].
  assert (Hblock : Forall (fun f => f = "cjs") ("cjs" :: block))
    by (constructor; [reflexivity | exact Hall]).
  change (rev (a0 :: "cjs" :: block)) with (rev ("cjs" :: block) ++ [a0]).
  rewrite (cjs_block_rev _ Hblock).
  assert (Hyes : filter (fun f => f = "cjs") ("cjs" :: block ++ rest)
                 = "cjs" :: block ++ filter (fun f => f = "cjs") rest).
  { rewrite filter_cons_True by reflexivity. rewrite filter_app, Hf1. reflexivity. }
  assert (Hno : filter (fun f => f <> "cjs") ("cjs" :: block ++ rest)
                = filter (fun f => f <> "cjs") rest).
  { rewrite filter_cons_False by (intros H; apply H; reflexivity).
    rewrite filter_app, Hf2. reflexivity. }
  set (cjs_rest := filter (fun f => f = "cjs") rest) in *.
  set (others := filter (fun f => f <> "cjs") rest) in *.
  assert (Hrest : Forall (fun f => f = "cjs") cjs_rest) by apply filter_cjs_all.
  assert (Hmove : forall tail, cjs_rest ++ "cjs" :: block ++ tail
                               = "cjs" :: block ++ cjs_rest ++ tail).
  { intros tail. rewrite cjs_block_comm by exact Hrest. f_equal.
    clear -Hall Hrest. induction Hall as [|f block Hf _ IH]; [reflexivity |].
    subst f. simpl. rewrite cjs_block_comm by exact Hrest. rewrite IH. reflexivity. }
  rewrite <- !app_assoc. simpl. rewrite Hmove.
  destruct (decide (a0 = "cjs")) as [-> | Hne].
  - rewrite filter_cons_True by reflexivity.
    rewrite (filter_cons_False (fun f => f <> "cjs") "cjs")
      by (intros H; apply H; reflexivity).
    rewrite Hyes, Hno. simpl. f_equal. rewrite !app_assoc.
    apply cjs_block_comm, Forall_app. split; [exact Hall | exact Hrest].
  - rewrite filter_cons_False by exact Hne.
    rewrite (filter_cons_True (fun f => f <> "cjs") a0) by exact Hne.
    rewrite Hyes, Hno. simpl. rewrite <- !app_assoc. reflexivity.
Qed.

(** The case of an ascending run: after [a0], no [cjs]. *)
Lemma ascending_run_sorted (a0 a1 : string) (run rest : list string) :
  a1 <> "cjs" -> "cjs" ∉ run ->
  filter (fun f => f = "cjs") rest ++ (a0 :: a1 :: run)
    ++ filter (fun f => f <> "cjs") rest
  = filter (fun f => f = "cjs") (a0 :: a1 :: run ++ rest)
      ++ filter (fun f => f <> "cjs") (a0 :: a1 :: run ++ rest).
Proof.
  intros E Hnot. destruct (filter_no_cjs _ Hnot) as [Hf1 Hf2].
  assert (Hyes : filter (fun f => f = "cjs") (a1 :: run ++ rest)
                 = filter (fun f => f = "cjs") rest).
  { rewrite filter_cons_False by exact E. rewrite filter_app, Hf1. reflexivity. }
  assert (Hno : filter (fun f => f <> "cjs") (a1 :: run ++ rest)
                = a1 :: run ++ filter (fun f => f <> "cjs") rest).
  { rewrite filter_cons_True by exact E. rewrite filter_app, Hf2. reflexivity. }
  destruct (decide (a0 = "cjs")) as [-> | Hne].
  - rewrite filter_cons_True by reflexivity.
    rewrite (filter_cons_False (fun f => f <> "cjs") "cjs")
      by (intros H; apply H; reflexivity).
    rewrite Hyes, Hno. simpl. apply cjs_block_comm, filter_cjs_all.
  - rewrite filter_cons_False by exact Hne.
    rewrite (filter_cons_True (fun f => f <> "cjs") a0) by exact Hne.
    rewrite Hyes, Hno. reflexivity.
Qed.

(** What the sort of the formats does: the [cjs] requests come first and
    the other formats follow in the order in which they were requested.
    They are not put in alphabetical order. *)
Lemma sort_cjs_first_partition (formats sorted : list string) :
  ArraySort.sort cjs_first formats = Ok sorted ->
  sorted = filter (fun f => f = "cjs") formats ++ filter (fun f => f <> "cjs") formats.
Proof.
  unfold ArraySort.sort. destruct (64 <=? length formats); [discriminate |].
  destruct formats as [|a0 [|a1 rest]]; simpl.
  - intros [= <-]. reflexivity.
  - intros [= <-]. destruct (decide (a0 = "cjs")) as [-> | Hne].
    + reflexivity.
    + rewrite filter_cons_False by exact Hne.
      rewrite filter_cons_True by exact Hne. reflexivity.
  - intros [= <-]. rewrite BinaryInsertionSort_cjs_first.
    rewrite cjs_first_negative.
    destruct (String.eqb a1 "cjs") eqn:E.
    + apply String.eqb_eq in E. subst a1.
      set (desc := ArraySort.run_tail cjs_first true "cjs" rest).
      pose proof (run_tail_descending "cjs" rest) as Hall. fold desc in Hall.
      pose proof (run_tail_le cjs_first true "cjs" rest) as Hle. fold desc in Hle.
      change (take (2 + desc) (a0 :: "cjs" :: rest))
        with (a0 :: "cjs" :: take desc rest).
      change (drop (2 + desc) (a0 :: "cjs" :: rest)) with (drop desc rest).
      assert (Hlen : 2 + desc = length (rev (a0 :: "cjs" :: take desc rest))).
      { rewrite length_rev. simpl. rewrite length_take. lia. }
      rewrite (take_app_length' _ _ _ Hlen), (drop_app_length' _ _ _ Hlen).
      rewrite <- (take_drop desc rest) at 4 5.
      apply descending_run_sorted, Hall.
    + apply String.eqb_neq in E.
      set (asc := ArraySort.run_tail cjs_first false a1 rest).
      pose proof (run_tail_ascending a1 rest) as Hnot. fold asc in Hnot.
      change (take (2 + asc) (a0 :: a1 :: rest)) with (a0 :: a1 :: take asc rest).
      change (drop (2 + asc) (a0 :: a1 :: rest)) with (drop asc rest).
      rewrite <- (take_drop asc rest) at 4 5.
      apply ascending_run_sorted; [exact E | exact Hnot].
Qed.

(** ** The order of the steps *)

Lemma requests_formats_lookup (entry : string) (i : nat) (formats : list string)
    (j0 j : nat) (format : string) :
  formats !! j = Some format ->
  requests_formats entry i formats j0 !! j
  = Some {| Request.entry := entry; Request.format := format;
            Request.writeMeta := (i =? 0) && (j0 + j =? 0) |}.
Proof.
  revert j0 j. induction formats as [|f formats IH]; intros j0 j H; [discriminate |].
  destruct j as [|j]; simpl in *.
  - injection H as ->. rewrite Nat.add_0_r. reflexivity.
  - rewrite (IH (S j0) j H). replace (S j0 + j) with (j0 + S j) by lia. reflexivity.
Qed.

Lemma requests_entries_lookup (entries : list string) (i0 i : nat)
    (formats : list string) (j : nat) (entry format : string) :
  entries !! i = Some entry -> formats !! j = Some format ->
  requests_entries entries i0 formats !! (i * length formats + j)
  = Some {| Request.entry := entry; Request.format := format;
            Request.writeMeta := (i0 + i =? 0) && (j =? 0) |}.
Proof.
  revert i0 i. induction entries as [|e entries IH]; intros i0 i Hi Hj; [discriminate |].
  pose proof (lookup_lt_Some _ _ _ Hj) as Hlt.
  destruct i as [|i]; simpl in *.
  - injection Hi as ->. rewrite lookup_app_l by (rewrite requests_formats_length; lia).
    rewrite (requests_formats_lookup _ _ _ 0 _ _ Hj), Nat.add_0_r. reflexivity.
  - rewrite lookup_app_r by (rewrite requests_formats_length; lia).
    rewrite requests_formats_length.
    replace (length formats + i * length formats + j - length formats)
      with (i * length formats + j) by lia.
    rewrite (IH (S i0) i Hi Hj). replace (S i0 + i) with (i0 + S i) by lia.
    reflexivity.
Qed.

(** Only the request at index 0 carries [writeMeta]. *)
Lemma requests_entries_writeMeta (entries : list string) (i0 : nat)
    (formats : list string) (k : nat) (request : Request.t) :
  requests_entries entries i0 formats !! k = Some request ->
  Request.writeMeta request = (i0 =? 0) && (k =? 0).
Proof.
  revert i0 k. induction entries as [|e entries IH]; intros i0 k H; [discriminate |].
  simpl in H. destruct (decide (k < length formats)) as [Hlt | Hge].
  - rewrite lookup_app_l in H by (rewrite requests_formats_length; exact Hlt).
    destruct (lookup_lt_is_Some_2 formats k Hlt) as [format Hf].
    rewrite (requests_formats_lookup _ _ _ 0 _ _ Hf) in H. injection H as <-.
    reflexivity.
  - rewrite lookup_app_r in H by (rewrite requests_formats_length; lia).
    pose proof (lookup_lt_Some _ _ _ H) as Hlen.
    rewrite requests_entries_length in Hlen.
    apply IH in H. rewrite H. simpl.
    destruct k as [|k]; [| rewrite andb_false_r; reflexivity].
    destruct formats; simpl in *; lia.
Qed.

(** X1. The steps of a plan come entry by entry and, within an entry,
    format by format, the [cjs] requests before the other formats and
    these in the order of the request (the engine's sort is the one
    modelled in [ArraySort]): with M formats requested, the step at index
    [i * M + j] is the one that [createConfig] builds for the entry at
    index [i] and the format at index [j] of that order, with [writeMeta]
    set at index 0 only. *)
Theorem plan_steps_by_entry_then_format {Bundle : Type} (world : World.t)
    (options : Options.t) (steps : list (Config.t Bundle)) :
  microbundle_steps world options = Ok steps ->
  exists requested,
    requested_formats options = Ok requested
    /\ forall i j entry format,
         Options.entries options !! i = Some entry ->
         (filter (fun f => f = "cjs") requested
            ++ filter (fun f => f <> "cjs") requested) !! j = Some format ->
         exists config,
           steps !! (i * length requested + j) = Some config
           /\ built world (plan_options options)
                {| Request.entry := entry; Request.format := format;
                   Request.writeMeta := (i =? 0) && (j =? 0) |} config
           /\ InputOptions.input (Config.inputOptions config) = entry
           /\ OutputOptions.format (Config.outputOptions config)
              = (if String.eqb format "modern" then "es" else format).
Proof.
  intros H.
  apply microbundle_steps_built in H as (requested & formats & Hreq & Hsort & Hall).
  exists requested. split; [exact Hreq |].
  intros i j entry format Hi Hj.
  pose proof (sort_length _ _ _ Hsort) as Hlen.
  apply sort_cjs_first_partition in Hsort. rewrite <- Hsort in Hj.
  pose proof (requests_entries_lookup _ 0 _ _ _ _ _ Hi Hj) as Hrequest.
  rewrite Hlen in Hrequest.
  destruct (Forall2_lookup_l _ _ _ _ _ Hall Hrequest) as (config & Hconfig & Hbuilt).
  exists config. split; [exact Hconfig | split; [exact Hbuilt |]].
  apply createConfig_fields in Hbuilt as (Hinput & _ & _ & Hformat & _).
  split; [exact Hinput | exact Hformat].
Qed.

(** X2. Only the first step of a plan is the primary one: the step at
    index [k] runs the stages that [createConfig] lists with [writeMeta]
    set when [k] is 0 and unset otherwise, so every later step leaves the
    extraction of the style sheet to the first, and writes no name cache
    when its bundle has been written, whatever the cache holds. *)
Theorem later_steps_write_no_metadata {Bundle : Type} (world : World.t)
    (options : Options.t) (steps : list (Config.t Bundle)) (k : nat)
    (config : Config.t Bundle) :
  microbundle_steps world options = Ok steps ->
  steps !! k = Some config ->
  InputOptions.plugins (Config.inputOptions config)
  = createConfig_plugins world (plan_options options) (k =? 0)
  /\ Postcss (k =? 0) ∈ InputOptions.plugins (Config.inputOptions config)
  /\ (k <> 0 -> forall nameCache, writeBundle_writes config nameCache = []).
Proof.
  intros H Hk.
  apply microbundle_steps_built in H as (requested & formats & _ & _ & Hall).
  destruct (Forall2_lookup_r _ _ _ _ _ Hall Hk) as (request & Hrequest & Hbuilt).
  apply requests_entries_writeMeta in Hrequest. simpl in Hrequest.
  apply createConfig_fields in Hbuilt as (_ & _ & Hplugins & _).
  rewrite Hrequest in Hplugins.
  split; [exact Hplugins |]. rewrite Hplugins. split.
  - unfold createConfig_plugins. apply list_elem_of_here.
  - intros Hne nameCache. unfold writeBundle_writes. rewrite Hplugins.
    destruct k as [|k]; [contradiction |].
    unfold createConfig_plugins.
    destruct (Options.compress (plan_options options)); [| reflexivity].
    destruct (Json.truthy (createConfig_nameCache world (plan_options options)));
      reflexivity.
Qed.

Lemma plan_steps_by_entry_then_format_witness :
  exists (steps : list (Config.t unit)) (config : Config.t unit),
    microbundle_steps Examples.world Examples.demo = Ok steps
    /\ steps !! 2 = Some config
    /\ InputOptions.input (Config.inputOptions config) = "/p/src/index.js"
    /\ OutputOptions.format (Config.outputOptions config) = "es".
Proof.
  destruct (microbundle_steps (Bundle := unit) Examples.world Examples.demo)
    as [steps|e|] eqn:H; [| vm_compute in H; discriminate..].
  destruct (plan_steps_by_entry_then_format _ _ _ H) as (requested & Hreq & Hsteps).
  vm_compute in Hreq. injection Hreq as <-.
  destruct (Hsteps 0 2 "/p/src/index.js" "es" eq_refl eq_refl)
    as (config & Hk & _ & Hinput & Hformat).
  exists steps, config. split; [reflexivity |].
  split; [exact Hk | split; [exact Hinput | exact Hformat]].
Defined.

Lemma later_steps_write_no_metadata_witness :
  exists (steps : list (Config.t unit)) (config : Config.t unit),
    microbundle_steps Examples.world Examples.two_entries = Ok steps
    /\ steps !! 1 = Some config
    /\ Postcss false ∈ InputOptions.plugins (Config.inputOptions config)
    /\ forall nameCache, writeBundle_writes config nameCache = [].
Proof.
  destruct (microbundle_steps (Bundle := unit) Examples.world Examples.two_entries)
    as [steps|e|] eqn:H; [| vm_compute in H; discriminate..].
  destruct (steps !! 1) as [config|] eqn:Hk;
    [| vm_compute in H; injection H as <-; discriminate].
  exists steps, config. split; [reflexivity | split; [exact Hk |]].
  destruct (later_steps_write_no_metadata _ _ _ _ _ H Hk) as (_ & Hcss & Hnone).
  split; [exact Hcss | apply Hnone; discriminate].
Defined.

(** ** The writes of [generateBundle] *)

Lemma mapM_Throw {A B : Type} (f : A -> outcome B) (l : list A) (e : js_error) :
  mapM f l = Throw e -> exists x, x ∈ l /\ f x = Throw e.
Proof.
  induction l as [|x l IH]; simpl; [discriminate |].
  destruct (f x) as [y|e'|] eqn:Hx; simpl; [| | discriminate].
  - destruct (mapM f l) as [ys|e'|] eqn:Hl; simpl; [discriminate | | discriminate].
    intros [= ->]. destruct (IH eq_refl) as (x' & Hin & Hx').
    exists x'. split; [right; exact Hin | exact Hx'].
  - intros [= ->]. exists x. split; [left | exact Hx].
Qed.

Lemma mapM_all_Ok {A B : Type} (f : A -> outcome B) (l : list A) :
  Forall (fun x => exists y, f x = Ok y) l -> exists l', mapM f l = Ok l'.
Proof.
  induction 1 as [|x l [y Hy] _ [l' IH]]; simpl.
  - exists []. reflexivity.
  - rewrite Hy, IH. exists (y :: l'). reflexivity.
Qed.

Lemma mapM_first_Throw {A B : Type} (f : A -> outcome B) (l : list A) (e : js_error) :
  Forall (fun x => f x = Throw e \/ exists y, f x = Ok y) l ->
  Exists (fun x => f x = Throw e) l ->
  mapM f l = Throw e.
Proof.
  induction 1 as [|x l Hx Hall IH]; intros Hex; [inversion Hex |]. simpl.
  destruct Hx as [Hx | [y Hy]].
  - rewrite Hx. reflexivity.
  - rewrite Hy. simpl. inversion Hex as [? ? Hx | ? ? Hex']; subst.
    + rewrite Hy in Hx. discriminate.
    + rewrite (IH Hex'). reflexivity.
Qed.



(** X4. [generateBundle] fails on a format that [FORMATS] does not
    list: when one of the requested formats has no row in the table (and
    is not a name that every object inherits), reading [.ext] of the
    missing row throws a [TypeError] and nothing is returned; when every
    requested format has a row, the writes are returned. *)
Theorem generateBundle_rejects_unlisted_format (name format : string)
    (shebang : ShebangTable) :
  length (JsString.split "," format) < 64 ->
  (Exists (fun f => FORMATS_ext f = None) (JsString.split "," format) ->
   generateBundle_writes name format shebang = Throw TypeError)
  /\ (Forall (fun f => FORMATS_ext f <> None) (JsString.split "," format) ->
      exists writes, generateBundle_writes name format shebang = Ok writes).
Proof.
  intros Hlen. unfold generateBundle_writes.
  destruct (sort_returns cjs_first _ Hlen) as [formats Hsort].
  rewrite Hsort. simpl. pose proof (sort_perm _ _ _ Hsort) as Hperm. split.
  - intros Hex. rewrite <- Hperm in Hex. apply mapM_first_Throw.
    + apply Forall_forall. intros f _.
      destruct (FORMATS_ext f); [right; eexists; reflexivity | left; reflexivity].
    + apply Exists_exists in Hex as (f & Hin & Hf). apply Exists_exists.
      exists f. split; [exact Hin |]. rewrite Hf. reflexivity.
  - intros Hall. rewrite <- Hperm in Hall. apply mapM_all_Ok.
    apply Forall_forall. intros f Hin. rewrite Forall_forall in Hall.
    specialize (Hall f Hin). destruct (FORMATS_ext f); [| contradiction].
    eexists. reflexivity.
Qed.

Lemma generateBundle_rejects_unlisted_format_witness :
  generateBundle_writes "demo" "cjs,iife" ∅ = Throw TypeError
  /\ exists writes, generateBundle_writes "demo" "cjs,esm" ∅ = Ok writes.
Proof.
  split.
  - apply (generateBundle_rejects_unlisted_format "demo" "cjs,iife" ∅).
    + vm_compute. lia.
    + apply Exists_cons_tl, Exists_cons_hd. reflexivity.
  - apply (generateBundle_rejects_unlisted_format "demo" "cjs,esm" ∅).
    + vm_compute. lia.
    + repeat constructor; discriminate.
Defined.

(** ** The batch executor: success and failure *)

Section BatchOutcomes.
Context {Bundle : Type}.
Variable rollup : InputOptions.t Bundle -> outcome Bundle.
Variable bundle_write : Bundle -> OutputOptions.t -> outcome unit.
Variable sizeInfo : Config.t Bundle -> string.

Lemma series_Ok (steps : list (Config.t Bundle)) (cache0 : option Bundle)
    (texts : list string) :
  (series rollup bundle_write sizeInfo steps cache0).2 = Ok texts ->
  texts = map sizeInfo steps
  /\ Forall2 (step_completed rollup bundle_write) steps
       (series rollup bundle_write sizeInfo steps cache0).1.
Proof.
  revert cache0 texts. induction steps as [|config steps IH]; intros cache0 texts; simpl.
  - intros [= <-]. split; [reflexivity | constructor].
  - destruct (rollup (with_cache cache0 (Config.inputOptions config)))
      as [bundle|e|] eqn:Hbuild; [| discriminate..].
    destruct (bundle_write bundle (Config.outputOptions config))
      as [done|e|] eqn:Hwrite; [| discriminate..].
    specialize (IH (Some bundle)).
    destruct (series rollup bundle_write sizeInfo steps (Some bundle)) as [calls out].
    simpl in *. intros H. bind_inv H. injection H as <-.
    destruct (IH _ Ha) as [-> Hall]. split; [reflexivity |].
    constructor; [| exact Hall].
    exists bundle. split; [exact Hbuild | exists done; exact Hwrite].
Qed.

Lemma series_Throw (steps : list (Config.t Bundle)) (cache0 : option Bundle)
    (e : js_error) :
  (series rollup bundle_write sizeInfo steps cache0).2 = Throw e ->
  exists done config call,
    (series rollup bundle_write sizeInfo steps cache0).1 = done ++ [call]
    /\ steps !! length done = Some config
    /\ step_rejected rollup bundle_write e config call
    /\ Forall2 (step_completed rollup bundle_write) (take (length done) steps) done.
Proof.
  revert cache0. induction steps as [|config steps IH]; intros cache0; simpl;
    [discriminate |].
  set (call := with_cache cache0 (Config.inputOptions config)).
  destruct (rollup call) as [bundle|e'|] eqn:Hbuild; [| | discriminate].
  - destruct (bundle_write bundle (Config.outputOptions config))
      as [written|e'|] eqn:Hwrite; [| | discriminate].
    + specialize (IH (Some bundle)).
      destruct (series rollup bundle_write sizeInfo steps (Some bundle))
        as [calls out].
      simpl in *. intros H.
      destruct out as [texts|e'|]; simpl in H; [discriminate | | discriminate].
      injection H as ->.
      destruct (IH eq_refl) as (done & config' & call' & -> & Hk & Hrej & Hall).
      exists (call :: done), config', call'. simpl.
      split; [reflexivity | split; [exact Hk | split; [exact Hrej |]]].
      constructor; [| exact Hall].
      exists bundle. split; [exact Hbuild | exists written; exact Hwrite].
    + simpl. intros [= ->]. exists [], config, call. simpl.
      split; [reflexivity | split; [reflexivity | split; [| constructor]]].
      right. exists bundle. split; [exact Hbuild | exact Hwrite].
  - simpl. intros [= ->]. exists [], config, call. simpl.
    split; [reflexivity | split; [reflexivity | split; [| constructor]]].
    left. exact Hbuild.
Qed.

(** With a bundler that never rejects, the series completes. *)
Lemma series_total (steps : list (Config.t Bundle)) (cache0 : option Bundle) :
  (forall call, exists bundle, rollup call = Ok bundle) ->
  (forall bundle outputOptions,
     exists done, bundle_write bundle outputOptions = Ok done) ->
  (series rollup bundle_write sizeInfo steps cache0).2 = Ok (map sizeInfo steps).
Proof.
  intros Hbuild Hwrite. revert cache0.
  induction steps as [|config steps IH]; intros cache0; simpl; [reflexivity |].
  destruct (Hbuild (with_cache cache0 (Config.inputOptions config))) as [bundle ->].
  destruct (Hwrite bundle (Config.outputOptions config)) as [done ->].
  specialize (IH (Some bundle)).
  destruct (series rollup bundle_write sizeInfo steps (Some bundle)) as [calls out].
  simpl in *. rewrite IH. reflexivity.
Qed.

End BatchOutcomes.

(** X5. A batch that completes has built and written every step of the
    plan, one call per step, in plan order; and the texts it returns are
    the size reports of the steps in that order. With a bundler that
    never rejects, every batch completes. *)
Theorem batch_reports_every_step {Bundle : Type}
    (rollup : InputOptions.t Bundle -> outcome Bundle)
    (bundle_write : Bundle -> OutputOptions.t -> outcome unit)
    (sizeInfo : Config.t Bundle -> string) (steps : list (Config.t Bundle)) :
  (forall texts,
     (batch rollup bundle_write sizeInfo steps).2 = Ok texts ->
     texts = map sizeInfo steps
     /\ Forall2 (step_completed rollup bundle_write) steps
          (batch rollup bundle_write sizeInfo steps).1)
  /\ ((forall call, exists bundle, rollup call = Ok bundle) ->
      (forall bundle outputOptions,
         exists done, bundle_write bundle outputOptions = Ok done) ->
      (batch rollup bundle_write sizeInfo steps).2 = Ok (map sizeInfo steps)).
Proof.
  unfold batch. split.
  - intros texts H. apply series_Ok, H.
  - intros Hbuild Hwrite. apply series_total; assumption.
Qed.

(** X6. A batch stops at the first rejection. When the batch fails with
    [e], the last call made is the one that was rejected with [e], by
    [rollup] or by [bundle.write]; every step before it was built and
    written; and no call is made for any step after it. *)
Theorem batch_stops_at_first_rejection {Bundle : Type}
    (rollup : InputOptions.t Bundle -> outcome Bundle)
    (bundle_write : Bundle -> OutputOptions.t -> outcome unit)
    (sizeInfo : Config.t Bundle -> string) (steps : list (Config.t Bundle))
    (e : js_error) :
  (batch rollup bundle_write sizeInfo steps).2 = Throw e ->
  exists done config call,
    (batch rollup bundle_write sizeInfo steps).1 = done ++ [call]
    /\ steps !! length done = Some config
    /\ step_rejected rollup bundle_write e config call
    /\ Forall2 (step_completed rollup bundle_write) (take (length done) steps) done.
Proof.
  unfold batch. intros H.
  destruct (series_Throw _ _ _ _ _ _ H)
    as (done & config & call & Hcalls & Hk & Hrej & Hall).
  exists done, config, call.
  split; [exact Hcalls | split; [exact Hk | split; [exact Hrej | exact Hall]]].
Qed.

(** ** The shebang table across the steps of a plan *)

(** X8. The steps of a plan share one entry of the shebang table:
    every step has the transform stage keyed by the name of the bundle,
    and every step's banner is read under that name. So a shebang line
    met while any step of the plan is built becomes the banner of every
    step written after it, the steps for the other entries and formats
    included, and a table entry under another name is left alone. The
    name [__proto__] is the exception: the assignment stores nothing
    under it, so the table stays as it is. *)
Theorem shebang_shared_by_the_steps {Bundle : Type} (world : World.t)
    (options : Options.t) (steps : list (Config.t Bundle))
    (c1 c2 : Config.t Bundle) (code line : string) (shebang : ShebangTable) :
  microbundle_steps world options = Ok steps ->
  c1 ∈ steps -> c2 ∈ steps ->
  Shebang.bang code = Some line ->
  ShebangTransform (Options.name options)
    ∈ InputOptions.plugins (Config.inputOptions c1)
  /\ OutputOptions.name (Config.outputOptions c2) = Options.name options
  /\ (Options.name options <> "__proto__" ->
      OutputOptions.banner (Config.outputOptions c2)
        (Shebang.transform (Options.name options) code shebang).2
      = Some line
      /\ forall other, other <> Options.name options ->
           (Shebang.transform (Options.name options) code shebang).2 !! other
           = shebang !! other)
  /\ (Options.name options = "__proto__" ->
      (Shebang.transform (Options.name options) code shebang).2 = shebang).
Proof.
  intros H H1 H2 Hbang.
  destruct (plan_step_built _ _ _ _ H H1) as (r1 & Hb1 & _).
  destruct (plan_step_built _ _ _ _ H H2) as (r2 & Hb2 & _).
  apply createConfig_fields in Hb1 as (_ & _ & Hplugins & _).
  apply createConfig_fields in Hb2 as (_ & _ & _ & _ & Hname & _).
  assert (Hsame : Options.name (plan_options options) = Options.name options)
    by (destruct options; reflexivity).
  rewrite Hsame in Hname. split; [| split; [exact Hname | split]].
  - rewrite Hplugins. unfold createConfig_plugins. rewrite Hsame.
    apply list_elem_of_further, list_elem_of_here.
  - intros Hproto. split.
    + apply (shebang_round_trip _ _ _ shebang _ "" Hbang Hname Hproto).
    + intros other Hother. apply bang_inv in Hbang as (rest & -> & _).
      apply String.eqb_neq in Hproto.
      change (Shebang.transform (Options.name options) ("#!" +:+ rest) shebang)
        with ("undefined" +:+ Shebang.after_line rest,
              if String.eqb (Options.name options) "__proto__" then shebang
              else <[Options.name options := "#!" +:+ Shebang.line rest]> shebang).
      rewrite Hproto. cbn [snd].
      apply lookup_insert_ne. intros Heq. apply Hother. symmetry. exact Heq.
  - intros Hproto. apply bang_inv in Hbang as (rest & -> & _).
    change (Shebang.transform (Options.name options) ("#!" +:+ rest) shebang)
      with ("undefined" +:+ Shebang.after_line rest,
            if String.eqb (Options.name options) "__proto__" then shebang
            else <[Options.name options := "#!" +:+ Shebang.line rest]> shebang).
    rewrite Hproto. reflexivity.
Qed.

Lemma shebang_shared_by_the_steps_witness :
  exists (c1 c2 : Config.t unit),
    microbundle_steps Examples.world Examples.two_entries = Ok [c1; c2]
    /\ InputOptions.input (Config.inputOptions c1) = "/p/src/index.js"
    /\ OutputOptions.banner (Config.outputOptions c1)
         (Shebang.transform "demo" Examples.cli_source ∅).2
       = Some "#!/usr/bin/env node".
Proof.
  destruct (microbundle_steps (Bundle := unit) Examples.world Examples.two_entries)
    as [steps|e|] eqn:H; [| vm_compute in H; discriminate..].
  assert (Hsteps : exists c1 c2, steps = [c1; c2]).
  { vm_compute in H. injection H as <-. eexists _, _. reflexivity. }
  destruct Hsteps as (c1 & c2 & ->).
  exists c1, c2. split; [reflexivity |].
  split; [vm_compute in H; injection H as <- _; reflexivity |].
  apply (shebang_shared_by_the_steps Examples.world Examples.two_entries _ c2 c1
           Examples.cli_source "#!/usr/bin/env node" ∅ H).
  - apply list_elem_of_further, list_elem_of_here.
  - apply list_elem_of_here.
  - reflexivity.
  - discriminate.
Defined.

(** ** The two lists of externals *)

(** X9. For a build of one entry, [createConfig] and [getExternals]
    compute the same list of externals from the same settings, unless the
    [external] option is [none]: the four built-in modules, then the peer
    dependencies, then the dependencies or, when the option is set, the
    names it lists. *)
Theorem single_entry_externals_agree (options : Options.t) (entry : string) :
  Options.entries options = [entry] ->
  Options.external options <> Some "none" ->
  createConfig_external options entry
  = getExternals (Options.external options)
      (Pkg.dependencies (Options.pkg options))
      (Pkg.peerDependencies (Options.pkg options)).
Proof.
  intros Hentries Hnone. unfold createConfig_external, getExternals.
  rewrite Hentries.
  assert (Hfilter : filter (fun e => e ≠ entry) [entry] = []).
  { rewrite filter_cons_False by (intros H; apply H; reflexivity). reflexivity. }
  rewrite Hfilter, app_nil_r.
  destruct (Options.external options) as [override|]; [| reflexivity].
  destruct (String.eqb override "none") eqn:E.
  - apply String.eqb_eq in E. subst override. contradiction.
  - destruct (JsString.truthy override); reflexivity.
Qed.

Lemma single_entry_externals_agree_witness :
  createConfig_external Examples.demo "/p/src/index.js"
  = getExternals None (Some ["react"]) None.
Proof.
  apply (single_entry_externals_agree Examples.demo "/p/src/index.js").
  - reflexivity.
  - discriminate.
Defined.

(** ** The resolver of entries and output *)





Lemma string_rev_app (s t acc : string) :
  String.rev_app (s +:+ t) acc = String.rev_app t (String.rev_app s acc).
Proof.
  revert acc. induction s as [|c s IH]; intros acc; [reflexivity |].
  rewrite string_app_cons. simpl. apply IH.
Qed.

Lemma has_extension_js (stem : string) : has_extension (stem +:+ ".js") = true.
Proof. unfold has_extension, String.rev. rewrite string_rev_app. reflexivity. Qed.

Lemma resolve_truthy (process_cwd : string) (args : list string) :
  JsString.truthy (Path.resolve process_cwd args) = true.
Proof.
  unfold Path.resolve.
  destruct (Path.resolve_loop process_cwd (rev args) "") as [resolvedPath absolute].
  destruct absolute; [reflexivity |].
  destruct (Path.normalizeString resolvedPath (negb false)); reflexivity.
Qed.

Lemma jsOrTs_truthy (world : World.t) (files : Files.t) (cwd filename : string) :
  JsString.truthy (jsOrTs world files cwd filename) = true.
Proof. unfold jsOrTs, resolve. apply resolve_truthy. Qed.

(** The fallback of [getInput] is an index file of the project. *)
Lemma getInput_fallback_index (world : World.t) (files : Files.t) (cwd : string)
    (module_ : option string) :
  getInput_fallback world files cwd module_
  = Some (if Files.isDir files (resolve world [cwd; "src"])
          then jsOrTs world files cwd "src/index"
          else jsOrTs world files cwd "index").
Proof.
  unfold getInput_fallback, JsString.or_else.
  destruct (Files.isDir files (resolve world [cwd; "src"]));
    rewrite !jsOrTs_truthy; reflexivity.
Qed.

(** X12. [getInput] always returns a list of files, and the [module]
    field of the manifest has no part in it: the [||] chain never reaches
    it, because [jsOrTs] returns a path, which is never empty. Without
    entries and without a [source] field, the input is what [glob] finds
    for one index file: the one of [src] when [src] is a directory, the
    one of the project directory otherwise. *)
Theorem getInput_never_reads_module (world : World.t) (files : Files.t)
    (entries : option (list string)) (cwd : string) (source : option source_field)
    (module_ : option string) :
  getInput world files entries cwd source module_
  = getInput world files entries cwd source None
  /\ (exists input, getInput world files entries cwd source module_ = Ok input)
  /\ ((entries = None \/ entries = Some []) -> source = None ->
      getInput world files entries cwd source module_
      = Ok (Files.glob files
              (if Files.isDir files (resolve world [cwd; "src"])
               then jsOrTs world files cwd "src/index"
               else jsOrTs world files cwd "index"))).
Proof.
  unfold getInput, getInput_candidates.
  rewrite !getInput_fallback_index. split; [reflexivity | split].
  - destruct entries as [[|entry more]|]; [| eexists; reflexivity |];
      (destruct source as [[file | sources]|];
       [destruct (JsString.truthy file) | |]; eexists; reflexivity).
  - intros [-> | ->] ->; simpl; rewrite app_nil_r; reflexivity.
Qed.

Lemma getInput_never_reads_module_witness :
  getInput Examples.world Hosts.typescript_project None "/p" None (Some "dist/demo.mjs")
  = Ok ["/p/src/index.ts"].
Proof.
  destruct (getInput_never_reads_module Examples.world Hosts.typescript_project
              None "/p" None (Some "dist/demo.mjs")) as (_ & _ & H).
  rewrite H; [reflexivity | left; reflexivity | reflexivity].
Defined.

(** ** The global names *)

Lemma inferred_globals_fold (external : list string) (globals : gmap string string)
    (name : string) :
  fold_left
    (fun globals name =>
       if is_global_name name
       then if String.eqb name "__proto__" then globals else <[name := name]> globals
       else globals)
    external globals !! name
  = if is_global_name name && negb (String.eqb name "__proto__")
       && bool_decide (name ∈ external)
    then Some name
    else globals !! name.
Proof.
  revert globals. induction external as [|x external IH]; intros globals; simpl.
  - rewrite andb_false_r. reflexivity.
  - rewrite IH. clear IH.
    destruct (decide (name ∈ external)) as [Hin | Hnot].
    + rewrite (bool_decide_eq_true_2 _ Hin).
      rewrite (bool_decide_eq_true_2 (name ∈ x :: external))
        by (right; exact Hin).
      destruct (is_global_name name && negb (String.eqb name "__proto__")) eqn:Hg;
        [reflexivity |]. simpl.
      destruct (is_global_name x) eqn:Hx; [| reflexivity].
      destruct (String.eqb x "__proto__") eqn:Hp; [reflexivity |].
      destruct (decide (x = name)) as [-> | Hne].
      * rewrite Hx, Hp in Hg. discriminate.
      * apply lookup_insert_ne. exact Hne.
    + rewrite (bool_decide_eq_false_2 _ Hnot), andb_false_r.
      destruct (decide (x = name)) as [-> | Hne].
      * rewrite (bool_decide_eq_true_2 (name ∈ name :: external)) by left.
        rewrite andb_true_r.
        destruct (is_global_name name); [| reflexivity].
        destruct (String.eqb name "__proto__"); [reflexivity |].
        simpl. apply lookup_insert_eq.
      * rewrite (bool_decide_eq_false_2 (name ∈ x :: external))
          by (intros H; apply elem_of_cons in H as [-> | H]; contradiction).
        rewrite andb_false_r.
        destruct (is_global_name x); [| reflexivity].
        destruct (String.eqb x "__proto__"); [reflexivity |].
        apply lookup_insert_ne. exact Hne.
Qed.

Lemma createConfig_external_builtins (options : Options.t) (entry builtin : string) :
  builtin ∈ ["dns"; "fs"; "path"; "url"] ->
  builtin ∈ createConfig_external options entry.
Proof.
  intros Hin. unfold createConfig_external.
  destruct (Options.external options) as [override|];
    [destruct (String.eqb override "none"); [| destruct (JsString.truthy override)] |];
    rewrite <- ?app_assoc; apply elem_of_app; left; exact Hin.
Qed.

(** X13. The globals that [createConfig] infers: an external module
    gets a global of its own name when its name is a lower-case
    identifier (a letter, [_] or [$], then letters, digits, [_] or [$]),
    and no other name gets one. So the four built-in modules have one in
    every step, whatever the options; a name with a dash, a dot, a
    slash, a scope or an upper-case letter has none. *)
Theorem inferred_globals_are_the_identifier_names (external : list string)
    (name : string) :
  inferred_globals external !! name
  = (if is_global_name name && negb (String.eqb name "__proto__")
        && bool_decide (name ∈ external)
     then Some name
     else None)
  /\ forall options entry builtin,
       builtin ∈ ["dns"; "fs"; "path"; "url"] ->
       inferred_globals (createConfig_external options entry) !! builtin = Some builtin.
Proof.
  assert (Hlookup : forall external name,
            inferred_globals external !! name
            = if is_global_name name && negb (String.eqb name "__proto__")
                 && bool_decide (name ∈ external)
              then Some name
              else None).
  { intros external' name'. unfold inferred_globals. rewrite inferred_globals_fold.
    destruct (_ && _ && _); [reflexivity | apply lookup_empty]. }
  split; [apply Hlookup |].
  intros options entry builtin Hin. rewrite Hlookup.
  rewrite (bool_decide_eq_true_2 _ (createConfig_external_builtins _ entry _ Hin)).
  repeat (apply elem_of_cons in Hin as [-> | Hin]; [reflexivity |]).
  inversion Hin.
Qed.

(** ** [mergeConfigItems] *)

Section MergeFacts.
Context {Options : Type}.
Variable createConfigItem : string -> Options -> string -> ConfigItem.t Options.
Variable merge : Options -> Options -> Options.

Lemma findIndex_key_None (key : string) (mergedItems : list (ConfigItem.t Options)) :
  findIndex_key key mergedItems = None <-> key ∉ map item_key mergedItems.
Proof.
  induction mergedItems as [|m rest IH]; simpl.
  - split; [intros _; apply not_elem_of_nil | reflexivity].
  - destruct (String.eqb (item_key m) key) eqn:E.
    + apply String.eqb_eq in E. split; [discriminate |].
      intros H. exfalso. apply H. rewrite E. left.
    + apply String.eqb_neq in E. rewrite not_elem_of_cons.
      destruct (findIndex_key key rest) as [i|]; simpl.
      * split; [discriminate |]. intros [_ H]. apply IH in H. discriminate.
      * split; [| reflexivity]. intros _. split; [| apply IH; reflexivity].
        intros Heq. apply E. symmetry. exact Heq.
Qed.

Lemma findIndex_key_Some (key : string) (mergedItems : list (ConfigItem.t Options))
    (i : nat) :
  findIndex_key key mergedItems = Some i ->
  exists found, mergedItems !! i = Some found /\ item_key found = key.
Proof.
  revert i. induction mergedItems as [|m rest IH]; intros i; simpl; [discriminate |].
  destruct (String.eqb (item_key m) key) eqn:E.
  - intros [= <-]. exists m. split; [reflexivity | apply String.eqb_eq, E].
  - destruct (findIndex_key key rest) as [j|]; simpl; [| discriminate].
    intros [= <-]. apply (IH j eq_refl).
Qed.

Lemma merge_item_length (type : string) (mergedItems : list (ConfigItem.t Options))
    (item : ConfigItem.t Options) :
  length (merge_item createConfigItem merge type mergedItems item)
  <= S (length mergedItems).
Proof.
  unfold merge_item. destruct (findIndex_key (item_key item) mergedItems) as [i|].
  - destruct (mergedItems !! i); [rewrite length_insert |]; lia.
  - rewrite length_app. simpl. lia.
Qed.

Lemma merge_items_length (type : string) (items mergedItems : list (ConfigItem.t Options)) :
  length (fold_left (merge_item createConfigItem merge type) items mergedItems)
  <= length mergedItems + length items.
Proof.
  revert mergedItems. induction items as [|item items IH]; intros mergedItems; simpl;
    [lia |].
  etransitivity; [apply IH |].
  pose proof (merge_item_length type mergedItems item). lia.
Qed.

Lemma merge_lists_length (type : string) (lists : list (list (ConfigItem.t Options)))
    (mergedItems : list (ConfigItem.t Options)) :
  length (fold_left (fun mergedItems configItemToMerge =>
                       fold_left (merge_item createConfigItem merge type)
                         configItemToMerge mergedItems) lists mergedItems)
  <= length mergedItems + length (concat lists).
Proof.
  revert mergedItems. induction lists as [|items lists IH]; intros mergedItems; simpl;
    [lia |].
  etransitivity; [apply IH |].
  pose proof (merge_items_length type items mergedItems).
  rewrite length_app. lia.
Qed.

Lemma merge_items_distinct (type : string) (items mergedItems : list (ConfigItem.t Options)) :
  NoDup (map item_key (mergedItems ++ items)) ->
  fold_left (merge_item createConfigItem merge type) items mergedItems
  = mergedItems ++ items.
Proof.
  revert mergedItems. induction items as [|item items IH]; intros mergedItems Hnodup;
    simpl.
  - rewrite app_nil_r. reflexivity.
  - assert (Hnew : findIndex_key (item_key item) mergedItems = None).
    { apply findIndex_key_None. rewrite map_app in Hnodup. simpl in Hnodup.
      apply NoDup_app in Hnodup as (_ & Hdisjoint & _).
      intros Hin. apply (Hdisjoint _ Hin). left. }
    unfold merge_item at 2. rewrite Hnew.
    rewrite IH by (rewrite <- app_assoc; exact Hnodup).
    rewrite <- app_assoc. reflexivity.
Qed.

Lemma merge_lists_distinct (type : string) (lists : list (list (ConfigItem.t Options)))
    (mergedItems : list (ConfigItem.t Options)) :
  NoDup (map item_key (mergedItems ++ concat lists)) ->
  fold_left (fun mergedItems configItemToMerge =>
               fold_left (merge_item createConfigItem merge type)
                 configItemToMerge mergedItems) lists mergedItems
  = mergedItems ++ concat lists.
Proof.
  revert mergedItems. induction lists as [|items lists IH]; intros mergedItems Hnodup;
    simpl in *.
  - rewrite app_nil_r. reflexivity.
  - rewrite app_assoc in Hnodup.
    rewrite merge_items_distinct.
    + rewrite IH by exact Hnodup. rewrite <- app_assoc. reflexivity.
    + rewrite map_app in Hnodup. apply NoDup_app in Hnodup as (Hnodup & _). exact Hnodup.
Qed.

(** With a [createConfigItem] that makes an unnamed item of the file it
    is given, the keys of unnamed items are kept by a merge: the key of
    the item is added when it is new. *)
Lemma merge_item_keys (type : string) (mergedItems : list (ConfigItem.t Options))
    (item : ConfigItem.t Options) :
  (forall file options type,
     item_key (createConfigItem file options type) = file
     /\ ConfigItem.file_resolved (createConfigItem file options type) = file) ->
  Forall (fun m => item_key m = ConfigItem.file_resolved m) mergedItems ->
  item_key item = ConfigItem.file_resolved item ->
  map item_key (merge_item createConfigItem merge type mergedItems item)
  = map item_key mergedItems
      ++ (if bool_decide (item_key item ∈ map item_key mergedItems)
          then [] else [item_key item])
  /\ Forall (fun m => item_key m = ConfigItem.file_resolved m)
       (merge_item createConfigItem merge type mergedItems item).
Proof.
  intros Hcreate Hall Hitem. unfold merge_item.
  destruct (findIndex_key (item_key item) mergedItems) as [i|] eqn:Hfind.
  - destruct (findIndex_key_Some _ _ _ Hfind) as (found & Hi & Hkey).
    rewrite Hi.
    assert (Hin : item_key item ∈ map item_key mergedItems).
    { rewrite <- Hkey. apply list_elem_of_fmap. exists found.
      split; [reflexivity | apply list_elem_of_lookup; exists i; exact Hi]. }
    rewrite (bool_decide_eq_true_2 _ Hin), app_nil_r.
    pose proof (Forall_lookup_1 _ _ _ _ Hall Hi) as Hfound. simpl in Hfound.
    destruct (Hcreate (ConfigItem.file_resolved found)
                (merge (ConfigItem.options found) (ConfigItem.options item)) type)
      as [Hk Hf].
    split.
    + rewrite list_fmap_insert, Hk, <- Hfound.
      apply list_insert_id. rewrite list_lookup_fmap, Hi. reflexivity.
    + apply Forall_insert; [exact Hall |]. simpl. rewrite Hk, Hf. reflexivity.
  - apply findIndex_key_None in Hfind.
    rewrite (bool_decide_eq_false_2 _ Hfind), map_app.
    split; [reflexivity |].
    apply Forall_app. split; [exact Hall | constructor; [exact Hitem | constructor]].
Qed.

Lemma merge_items_keys (type : string) (items mergedItems : list (ConfigItem.t Options)) :
  (forall file options type,
     item_key (createConfigItem file options type) = file
     /\ ConfigItem.file_resolved (createConfigItem file options type) = file) ->
  Forall (fun m => item_key m = ConfigItem.file_resolved m) mergedItems ->
  Forall (fun m => item_key m = ConfigItem.file_resolved m) items ->
  NoDup (map item_key mergedItems) ->
  let result := fold_left (merge_item createConfigItem merge type) items mergedItems in
  NoDup (map item_key result)
  /\ Forall (fun m => item_key m = ConfigItem.file_resolved m) result
  /\ forall key, key ∈ map item_key result
                 <-> key ∈ map item_key mergedItems \/ key ∈ map item_key items.
Proof.
  intros Hcreate. revert mergedItems.
  induction items as [|item items IH]; intros mergedItems Hall Hitems Hnodup; simpl.
  - split; [exact Hnodup | split; [exact Hall |]].
    intros key. split; [intros H; left; exact H | intros [H | H]; [exact H | inversion H]].
  - inversion Hitems as [|? ? Hitem Hitems']; subst.
    destruct (merge_item_keys type mergedItems item Hcreate Hall Hitem) as [Hkeys Hall'].
    destruct (IH _ Hall' Hitems') as (IHnodup & IHall & IHin).
    + rewrite Hkeys.
      destruct (decide (item_key item ∈ map item_key mergedItems)) as [Hin | Hnot].
      * rewrite (bool_decide_eq_true_2 _ Hin), app_nil_r. exact Hnodup.
      * rewrite (bool_decide_eq_false_2 _ Hnot).
        apply NoDup_app. split; [exact Hnodup | split; [| apply NoDup_singleton]].
        intros key Hkey Hkey'. apply list_elem_of_singleton in Hkey'. subst key.
        contradiction.
    + split; [exact IHnodup | split; [exact IHall |]].
      intros key. rewrite IHin, Hkeys, elem_of_app, elem_of_cons.
      destruct (decide (item_key item ∈ map item_key mergedItems)) as [Hin | Hnot].
      * rewrite (bool_decide_eq_true_2 _ Hin). split.
        -- intros [[H | H] | H]; [left; exact H | inversion H | right; right; exact H].
        -- intros [H | [-> | H]]; [left; left; exact H | left; left; exact Hin |
                                    right; exact H].
      * rewrite (bool_decide_eq_false_2 _ Hnot), list_elem_of_singleton. tauto.
Qed.

End MergeFacts.

(** X14. [mergeConfigItems] never returns more items than it is given,
    and items that all have different keys are not touched: the result
    is then the given lists one after the other, the defaults first. *)
Theorem mergeConfigItems_keeps_distinct_items {Options : Type}
    (createConfigItem : string -> Options -> string -> ConfigItem.t Options)
    (merge : Options -> Options -> Options) (type : string)
    (configItemsToMerge : list (list (ConfigItem.t Options))) :
  length (mergeConfigItems createConfigItem merge type configItemsToMerge)
  <= length (concat configItemsToMerge)
  /\ (NoDup (map item_key (concat configItemsToMerge)) ->
      mergeConfigItems createConfigItem merge type configItemsToMerge
      = concat configItemsToMerge).
Proof.
  unfold mergeConfigItems. split.
  - apply (merge_lists_length createConfigItem merge type configItemsToMerge []).
  - intros Hnodup.
    apply (merge_lists_distinct createConfigItem merge type configItemsToMerge []).
    exact Hnodup.
Qed.

(** X15. With Babel's [createConfigItem], which makes an unnamed item of
    the file it is given, [mergeConfigItems] returns one item per key:
    when the given items are unnamed, so that the key of each is its
    file, no two items of the result have the same key, and the keys of
    the result are the keys of the given items. *)
Theorem mergeConfigItems_one_item_per_key {Options : Type}
    (createConfigItem : string -> Options -> string -> ConfigItem.t Options)
    (merge : Options -> Options -> Options) (type : string)
    (configItemsToMerge : list (list (ConfigItem.t Options))) :
  (forall file options type,
     item_key (createConfigItem file options type) = file
     /\ ConfigItem.file_resolved (createConfigItem file options type) = file) ->
  Forall (fun item => item_key item = ConfigItem.file_resolved item)
    (concat configItemsToMerge) ->
  NoDup (map item_key (mergeConfigItems createConfigItem merge type configItemsToMerge))
  /\ forall key,
       key ∈ map item_key
               (mergeConfigItems createConfigItem merge type configItemsToMerge)
       <-> key ∈ map item_key (concat configItemsToMerge).
Proof.
  intros Hcreate. unfold mergeConfigItems.
  assert (Hgen : forall lists mergedItems,
            Forall (fun m => item_key m = ConfigItem.file_resolved m) mergedItems ->
            Forall (fun m => item_key m = ConfigItem.file_resolved m) (concat lists) ->
            NoDup (map item_key mergedItems) ->
            let result :=
              fold_left (fun mergedItems configItemToMerge =>
                           fold_left (merge_item createConfigItem merge type)
                             configItemToMerge mergedItems) lists mergedItems in
            NoDup (map item_key result)
            /\ forall key, key ∈ map item_key result
                           <-> key ∈ map item_key mergedItems
                               \/ key ∈ map item_key (concat lists)).
  { induction lists as [|items lists IH]; intros mergedItems Hall Hlists Hnodup; simpl.
    - split; [exact Hnodup |]. intros key.
      split; [intros H; left; exact H | intros [H | H]; [exact H | inversion H]].
    - simpl in Hlists. apply Forall_app in Hlists as [Hitems Hlists].
      destruct (merge_items_keys createConfigItem merge type items mergedItems
                  Hcreate Hall Hitems Hnodup) as (Hnodup' & Hall' & Hin').
      destruct (IH _ Hall' Hlists Hnodup') as (IHnodup & IHin).
      split; [exact IHnodup |].
      intros key. rewrite IHin, Hin', map_app, elem_of_app. tauto. }
  intros Hall.
  destruct (Hgen configItemsToMerge [] (Forall_nil_2 _) Hall (NoDup_nil_2 (A := string)))
    as (Hnodup & Hin).
  split; [exact Hnodup |].
  intros key. rewrite Hin. split; [intros [H | H]; [inversion H | exact H] |].
  intros H. right. exact H.
Qed.

(** ** Names whose parentheses do not balance *)

(** On a source within the fragment, the parser fails exactly when the
    parentheses do not balance, and then with a [SyntaxError]. *)
Lemma parse_balanced (src : string) (cur : RegExp.frame) (stack : list RegExp.frame) :
  in_fragment src = true ->
  if balanced (length stack) src
  then exists re, RegExp.parse src cur stack = Ok re
  else RegExp.parse src cur stack = Throw SyntaxError.
Proof.
  revert cur stack. induction src as [|c src IH]; intros cur stack Hin; simpl in *.
  - destruct stack; simpl; [eexists; reflexivity | reflexivity].
  - apply andb_prop in Hin as [Hc Hin]. apply negb_true_iff in Hc. rewrite Hc.
    destruct (Ascii.eqb c "(") eqn:Eopen.
    + apply (IH (None, RegExp.Empty) (cur :: stack) Hin).
    + destruct (Ascii.eqb c ")") eqn:Eclose.
      * destruct stack as [|outer stack]; simpl; [reflexivity |].
        apply (IH _ stack Hin).
      * destruct (Ascii.eqb c "|"); [apply (IH _ stack Hin) |].
        destruct (Ascii.eqb c "^"); [apply (IH _ stack Hin) |].
        destruct (Ascii.eqb c "$"); [apply (IH _ stack Hin) |].
        destruct (Ascii.eqb c "."); apply (IH _ stack Hin).
Qed.

Lemma in_fragment_app (s t : string) :
  in_fragment (s +:+ t) = in_fragment s && in_fragment t.
Proof.
  induction s as [|c s IH]; [reflexivity |].
  rewrite string_app_cons. simpl. rewrite IH, andb_assoc. reflexivity.
Qed.

Lemma in_fragment_join (names : list string) :
  Forall (fun name => in_fragment name = true) names ->
  in_fragment (JsString.join "|" names) = true.
Proof.
  unfold JsString.join.
  induction 1 as [|name names Hname Hall IH]; [reflexivity |].
  destruct names as [|name' names]; [exact Hname |].
  change (String.concat "|" (name :: name' :: names))
    with (name +:+ "|" +:+ String.concat "|" (name' :: names)).
  rewrite !in_fragment_app, Hname, IH. reflexivity.
Qed.

(** X16. A name with a stray parenthesis stops the configuration. When
    the external names of a step hold no character outside the fragment
    and the parentheses of the pattern made of them do not balance,
    [createConfig] throws a [SyntaxError], for every format; when they
    balance, the pattern is compiled. The names are the other entries,
    the keys of both dependency tables and the names of the [external]
    option. *)
Theorem createConfig_rejects_unbalanced_names {Bundle : Type} (world : World.t)
    (options : Options.t) (entry format : string) (writeMeta : bool) :
  Forall (fun name => in_fragment name = true) (createConfig_external options entry) ->
  if balanced 0 (externalPredicate_source (createConfig_external options entry))
  then exists re,
         RegExp.new (externalPredicate_source (createConfig_external options entry))
         = Ok re
  else createConfig (Bundle := Bundle) world options entry format writeMeta
       = Throw SyntaxError.
Proof.
  intros Hnames.
  assert (Hsrc : in_fragment
                   (externalPredicate_source (createConfig_external options entry))
                 = true).
  { unfold externalPredicate_source.
    rewrite !in_fragment_app, (in_fragment_join _ Hnames). reflexivity. }
  pose proof (parse_balanced _ (None, RegExp.Empty) [] Hsrc) as Hparse.
  simpl length in Hparse.
  destruct (balanced 0 _); [exact Hparse |].
  unfold createConfig, RegExp.new. rewrite Hparse. reflexivity.
Qed.

Lemma createConfig_rejects_unbalanced_names_witness :
  createConfig (Bundle := unit) Examples.world
    (Examples.project ["/p/src/index.js"] "cjs" (Some "left-pad)") (Examples.manifest []))
    "/p/src/index.js" "cjs" true
  = Throw SyntaxError.
Proof.
  apply (createConfig_rejects_unbalanced_names (Bundle := unit) Examples.world
           (Examples.project ["/p/src/index.js"] "cjs" (Some "left-pad)")
              (Examples.manifest []))
           "/p/src/index.js" "cjs" true).
  repeat constructor.
Defined.

(** ** Entries named [index] *)

Lemma mainNoExtension_index (world : World.t) (options : Options.t) (e1 e2 : string) :
  Patterns.is_index_entry e1 = true -> Patterns.is_index_entry e2 = true ->
  mainNoExtension world options e1 = mainNoExtension world options e2.
Proof.
  intros H1 H2. unfold mainNoExtension. rewrite H1, H2. reflexivity.
Qed.

Lemma output_file_index (world : World.t) (options : Options.t) (e1 e2 format : string) :
  Patterns.is_index_entry e1 = true -> Patterns.is_index_entry e2 = true ->
  output_file world options e1 format = output_file world options e2 format.
Proof.
  intros H1 H2.
  unfold output_file, modernMain, moduleMain, umdMain, cjsMain.
  rewrite (mainNoExtension_index world options e1 e2 H1 H2). reflexivity.
Qed.

(** X17. Entries named [index] share their output files. In a plan,
    two steps whose entries both end in [/index] and a source extension
    ([.js], [.ts], [.mjs], ...), and that are built for the same format,
    are given the same output file, the one named after the output of the
    package: of two such entries in different directories, the bundle
    written last replaces the other. *)
Theorem index_entries_share_their_files {Bundle : Type} (world : World.t)
    (options : Options.t) (steps : list (Config.t Bundle)) (c1 c2 : Config.t Bundle) :
  microbundle_steps world options = Ok steps ->
  c1 ∈ steps -> c2 ∈ steps ->
  Patterns.is_index_entry (InputOptions.input (Config.inputOptions c1)) = true ->
  Patterns.is_index_entry (InputOptions.input (Config.inputOptions c2)) = true ->
  OutputOptions.format (Config.outputOptions c1)
  = OutputOptions.format (Config.outputOptions c2) ->
  InputOptions.cache (Config.inputOptions c1)
  = InputOptions.cache (Config.inputOptions c2) ->
  OutputOptions.file (Config.outputOptions c1)
  = OutputOptions.file (Config.outputOptions c2).
Proof.
  intros H H1 H2 Hi1 Hi2 Hformat Hcache.
  destruct (plan_step_built _ _ _ _ H H1) as ([e1 f1 m1] & Hb1 & _).
  destruct (plan_step_built _ _ _ _ H H2) as ([e2 f2 m2] & Hb2 & _).
  apply createConfig_fields in Hb1 as (He1 & Hc1 & _ & Hf1 & _ & Hfile1).
  apply createConfig_fields in Hb2 as (He2 & Hc2 & _ & Hf2 & _ & Hfile2).
  simpl in *. rewrite He1 in Hi1. rewrite He2 in Hi2.
  assert (Hsame : f1 = f2).
  { rewrite Hc1, Hc2 in Hcache. rewrite Hf1, Hf2 in Hformat.
    destruct (String.eqb f1 "modern") eqn:E1, (String.eqb f2 "modern") eqn:E2;
      try discriminate.
    - apply String.eqb_eq in E1, E2. congruence.
    - exact Hformat. }
  subst f2. rewrite (output_file_index _ _ e1 e2 f1 Hi1 Hi2) in Hfile1.
  rewrite Hfile1 in Hfile2. injection Hfile2 as Hfile2. exact Hfile2.
Qed.

Lemma index_entries_share_their_files_witness :
  exists c1 c2 : Config.t unit,
    microbundle_steps Examples.world Hosts.two_index_entries = Ok [c1; c2]
    /\ InputOptions.input (Config.inputOptions c1) = "/p/src/index.js"
    /\ InputOptions.input (Config.inputOptions c2) = "/p/src/cli/index.js"
    /\ OutputOptions.file (Config.outputOptions c1)
       = OutputOptions.file (Config.outputOptions c2).
Proof.
  destruct (microbundle_steps (Bundle := unit) Examples.world Hosts.two_index_entries)
    as [steps|e|] eqn:H; [| vm_compute in H; discriminate..].
  assert (Hsteps : exists c1 c2,
            steps = [c1; c2]
            /\ InputOptions.input (Config.inputOptions c1) = "/p/src/index.js"
            /\ InputOptions.input (Config.inputOptions c2) = "/p/src/cli/index.js"
            /\ OutputOptions.format (Config.outputOptions c1)
               = OutputOptions.format (Config.outputOptions c2)
            /\ InputOptions.cache (Config.inputOptions c1)
               = InputOptions.cache (Config.inputOptions c2)).
  { vm_compute in H. injection H as <-. eexists _, _. repeat split; reflexivity. }
  destruct Hsteps as (c1 & c2 & -> & Hi1 & Hi2 & Hformat & Hcache).
  exists c1, c2. split; [reflexivity | split; [exact Hi1 | split; [exact Hi2 |]]].
  apply (index_entries_share_their_files Examples.world Hosts.two_index_entries
           _ c1 c2 H).
  - apply list_elem_of_here.
  - apply list_elem_of_further, list_elem_of_here.
  - rewrite Hi1. reflexivity.
  - rewrite Hi2. reflexivity.
  - exact Hformat.
  - exact Hcache.
Defined.

(** ** The files beside the output *)

Lemma plain_segment_inv (seg : string) :
  plain_segment seg = true ->
  String.eqb seg "" = false /\ JsString.mem Path.slash seg = false
  /\ String.eqb seg "." = false /\ String.eqb seg ".." = false.
Proof.
  unfold plain_segment. rewrite !andb_true_iff, !negb_true_iff. tauto.
Qed.

Lemma normalize_plain_segments (allowAboveRoot : bool) (segs res : list string) :
  Forall (fun seg => plain_segment seg = true) segs ->
  fold_left (Path.normalize_step allowAboveRoot) segs res = res ++ segs.
Proof.
  intros Hall. revert res.
  induction Hall as [|seg segs Hseg _ IH]; intros res; simpl.
  - rewrite app_nil_r. reflexivity.
  - apply plain_segment_inv in Hseg as (H0 & _ & H1 & H2).
    unfold Path.normalize_step at 2. rewrite H0, H1, H2. simpl.
    rewrite IH, <- app_assoc. reflexivity.
Qed.

Lemma split_join_segments (seg : string) (segs : list string) :
  Forall (fun seg => plain_segment seg = true) (seg :: segs) ->
  JsString.split Path.slash (JsString.join "/" (seg :: segs)) = seg :: segs.
Proof.
  revert seg. induction segs as [|next segs IH]; intros seg Hall.
  - inversion Hall as [|? ? Hseg _]; subst.
    apply plain_segment_inv in Hseg as (_ & Hmem & _).
    apply split_no_separator, Hmem.
  - inversion Hall as [|? ? Hseg Hrest]; subst.
    apply plain_segment_inv in Hseg as (_ & Hmem & _).
    change (JsString.join "/" (seg :: next :: segs))
      with (seg +:+ String Path.slash (JsString.join "/" (next :: segs))).
    rewrite split_app_separator, (split_no_separator _ _ Hmem), (IH next Hrest).
    reflexivity.
Qed.

(** Normalizing an absolute path of plain segments gives it back. *)
Lemma normalizeString_plain (segs : list string) :
  Forall (fun seg => plain_segment seg = true) segs ->
  Path.normalizeString (("/" +:+ JsString.join "/" segs) +:+ "/" +:+ "") false
  = JsString.join "/" segs.
Proof.
  intros Hall. unfold Path.normalizeString.
  change (("/" +:+ JsString.join "/" segs) +:+ "/" +:+ "")
    with (String Path.slash (JsString.join "/" segs +:+ String Path.slash "")).
  cbn [JsString.split]. rewrite Ascii.eqb_refl, split_app_separator.
  destruct segs as [|seg segs].
  - reflexivity.
  - rewrite (split_join_segments _ _ Hall). cbn [fold_left].
    change (Path.normalize_step false [] "") with (@nil string).
    rewrite fold_left_app, (normalize_plain_segments _ _ _ Hall). reflexivity.
Qed.

(** [resolve] returns an absolute path of plain segments that is its
    last argument. *)
Lemma resolve_plain (process_cwd : string) (args : list string) (segs : list string) :
  Forall (fun seg => plain_segment seg = true) segs ->
  Path.resolve process_cwd (args ++ ["/" +:+ JsString.join "/" segs])
  = "/" +:+ JsString.join "/" segs.
Proof.
  intros Hall. unfold Path.resolve. rewrite rev_app_distr.
  change (rev ["/" +:+ JsString.join "/" segs] ++ rev args)
    with (("/" +:+ JsString.join "/" segs) :: rev args).
  rewrite resolve_loop_cons by reflexivity.
  change (Path.isAbsolute ("/" +:+ JsString.join "/" segs)) with true.
  cbv iota beta. change (negb true) with false.
  rewrite (normalizeString_plain _ Hall). reflexivity.
Qed.

Lemma mem_app (c : ascii) (s t : string) :
  JsString.mem c (s +:+ t) = JsString.mem c s || JsString.mem c t.
Proof.
  induction s as [|a s IH]; [reflexivity |].
  rewrite string_app_cons. simpl. rewrite IH, orb_assoc. reflexivity.
Qed.

Lemma plain_segment_suffix (base suffix : string) :
  plain_segment base = true -> dotted_suffix suffix ->
  plain_segment (base +:+ suffix) = true.
Proof.
  intros Hbase (_ & Hmem & Hlen).
  apply plain_segment_inv in Hbase as (_ & Hslash & _).
  assert (Hlong : 3 <= String.length (base +:+ suffix))
    by (rewrite string_app_length; lia).
  unfold plain_segment. rewrite mem_app, Hslash, Hmem.
  rewrite !andb_true_iff, !negb_true_iff, !String.eqb_neq.
  repeat split; try reflexivity; intros Heq; rewrite Heq in Hlong; simpl in Hlong; lia.
Qed.

Lemma path_with_suffix (dirs : list string) (base suffix : string) :
  ("/" +:+ JsString.join "/" (dirs ++ [base])) +:+ suffix
  = "/" +:+ JsString.join "/" (dirs ++ [base +:+ suffix]).
Proof. rewrite !join_snoc, !string_app_assoc. reflexivity. Qed.

(** X18. The files of a package with one entry are beside its output.
    When the manifest names no file for any format and the output, without
    its extension, is an absolute path of plain segments, the step for a
    format writes to that path followed by the suffix of the format:
    [.js] for [cjs], [.esm.js] for [es], [.umd.js] for [umd] and
    [.modern.js] for [modern]; neither the entry nor a working directory
    has a part in the name. *)
Theorem output_files_beside_the_output {Bundle : Type} (world : World.t)
    (options : Options.t) (entry format : string) (writeMeta : bool)
    (config : Config.t Bundle) (dirs : list string) (base : string) :
  createConfig world options entry format writeMeta = Ok config ->
  no_main_overrides (Options.pkg options) ->
  Options.multipleEntries options = false ->
  Patterns.strip_main_suffix (Options.output options)
  = "/" +:+ JsString.join "/" (dirs ++ [base]) ->
  Forall (fun seg => plain_segment seg = true) (dirs ++ [base]) ->
  format ∈ known_formats ->
  OutputOptions.file (Config.outputOptions config)
  = Patterns.strip_main_suffix (Options.output options) +:+ default_suffix format.
Proof.
  intros H (Hm & Hj & Hc & Hu & Hs & He) Hsingle Hstem Hplain Hin.
  apply createConfig_fields in H as (_ & _ & _ & _ & _ & Hfile).
  assert (Hmain : mainNoExtension world options entry
                  = "/" +:+ JsString.join "/" (dirs ++ [base])).
  { unfold mainNoExtension. rewrite Hsingle. exact Hstem. }
  assert (Hname : forall suffix, dotted_suffix suffix ->
            resolve world [Options.cwd options;
                           resolve world ["."; mainNoExtension world options entry
                                                 +:+ suffix]]
            = Patterns.strip_main_suffix (Options.output options) +:+ suffix).
  { intros suffix Hd. rewrite Hmain, Hstem, path_with_suffix.
    assert (Hplain' : Forall (fun seg => plain_segment seg = true)
                        (dirs ++ [base +:+ suffix])).
    { apply Forall_app in Hplain as [Hdirs Hbase]. apply Forall_app.
      split; [exact Hdirs |]. inversion Hbase; subst.
      constructor; [apply plain_segment_suffix; assumption | constructor]. }
    unfold resolve.
    rewrite (resolve_plain _ ["."] _ Hplain').
    apply (resolve_plain _ [Options.cwd options] _ Hplain'). }
  unfold known_formats in Hin. rewrite !elem_of_cons, elem_of_nil in Hin.
  assert (Hgoal : output_file world options entry format
                  = Ok (Patterns.strip_main_suffix (Options.output options)
                        +:+ default_suffix format)).
  { destruct Hin as [-> | [-> | [-> | [-> | []]]]].
    - unfold output_file, cjsMain, replaceName. simpl. rewrite Hc.
      exact (f_equal Ok (Hname ".js" (default_suffix_dotted "cjs"))).
    - unfold output_file, moduleMain, replaceName. simpl. rewrite Hm, Hj.
      exact (f_equal Ok (Hname ".esm.js" (default_suffix_dotted "es"))).
    - unfold output_file, umdMain, replaceName. simpl. rewrite Hu.
      exact (f_equal Ok (Hname ".umd.js" (default_suffix_dotted "umd"))).
    - unfold output_file, modernMain, replaceName. simpl. rewrite Hs, He.
      exact (f_equal Ok (Hname ".modern.js" (default_suffix_dotted "modern"))). }
  rewrite Hgoal in Hfile. injection Hfile as <-. reflexivity.
Qed.

Lemma output_files_beside_the_output_witness :
  exists config : Config.t unit,
    createConfig Examples.world Examples.demo "/p/src/index.js" "modern" false
    = Ok config
    /\ OutputOptions.file (Config.outputOptions config) = "/p/dist/demo.modern.js".
Proof.
  destruct (createConfig (Bundle := unit) Examples.world Examples.demo
              "/p/src/index.js" "modern" false) as [config|e|] eqn:H;
    [| vm_compute in H; discriminate..].
  exists config. split; [reflexivity |].
  apply (output_files_beside_the_output Examples.world Examples.demo
           "/p/src/index.js" "modern" false config ["p"; "dist"] "demo" H).
  - repeat split; reflexivity.
  - reflexivity.
  - reflexivity.
  - repeat constructor.
  - apply list_elem_of_In. simpl. tauto.
Defined.

(** ** The predicate on names with dots *)

Lemma name_character_flat (c : ascii) :
  name_character c = true ->
  flat_character c = true
  /\ read_flat c = fun cur => RegExp.push_term cur (name_term c).
Proof.
  unfold name_character. rewrite orb_true_iff. intros [Hlit | Hdot].
  - destruct (literal_character_flat c Hlit) as [Hf Hread]. split; [exact Hf |].
    rewrite Hread. unfold name_term.
    unfold literal_character in Hlit.
    rewrite !andb_true_iff, !negb_true_iff in Hlit. destruct Hlit as (_ & ->).
    reflexivity.
  - apply Ascii.eqb_eq in Hdot. subst c. split; reflexivity.
Qed.

Lemma parse_name (name rest : string) (cur : RegExp.frame) (stack : list RegExp.frame) :
  plain_name name = true ->
  RegExp.parse (name +:+ rest) cur stack
  = RegExp.parse rest (cur.1, name_seq cur.2 name) stack.
Proof.
  revert cur. induction name as [|c name IH]; intros cur; cbn [plain_name name_seq].
  - intros _. destruct cur; reflexivity.
  - rewrite andb_true_iff. intros [Hc Hn].
    apply name_character_flat in Hc as [Hf Hread].
    rewrite string_app_cons, (parse_flat_character _ _ _ _ Hf), Hread.
    rewrite (IH _ Hn). reflexivity.
Qed.

Lemma parse_names_alternation (name : string) (names : list string) (rest : string)
    (alts : option RegExp.regex) (stack : list RegExp.frame) :
  Forall (fun n => plain_name n = true) (name :: names) ->
  RegExp.parse (JsString.join "|" (name :: names) +:+ rest) (alts, RegExp.Empty) stack
  = RegExp.parse rest (names_alternation alts name names) stack.
Proof.
  unfold JsString.join. revert name alts.
  induction names as [|name' names IH]; intros name alts H.
  - inversion H; subst. cbn [String.concat names_alternation].
    rewrite parse_name by assumption. reflexivity.
  - inversion H as [|? ? Hn Hrest]; subst.
    change (String.concat "|" (name :: name' :: names))
      with (name +:+ "|" +:+ String.concat "|" (name' :: names)).
    rewrite !string_app_assoc, parse_name by assumption.
    rewrite string_app_cons, string_app_nil_l.
    rewrite parse_flat_character by reflexivity.
    cbn [names_alternation]. apply (IH _ _ Hrest).
Qed.

(** The pattern that [new RegExp] reads from such names. *)
Lemma externalPredicate_names (name : string) (names : list string) :
  Forall (fun n => plain_name n = true) (name :: names) ->
  RegExp.new (externalPredicate_source (name :: names))
  = Ok (names_pattern name names).
Proof.
  intros H. unfold RegExp.new, externalPredicate_source.
  change (RegExp.parse ("^(" +:+ JsString.join "|" (name :: names) +:+ ")($|/)")
            (None, RegExp.Empty) [])
    with (RegExp.parse (JsString.join "|" (name :: names) +:+ ")($|/)")
            (None, RegExp.Empty) [(None, RegExp.Seq RegExp.Empty RegExp.Bol)]).
  rewrite (parse_names_alternation _ _ _ _ _ H). reflexivity.
Qed.

Lemma matches_name_term (c : ascii) (at_start : bool) (s : string)
    (k : bool -> string -> bool) :
  RegExp.matches (name_term c) at_start s k
  = match s with
    | String a s' => accepts c a && k false s'
    | EmptyString => false
    end.
Proof.
  unfold name_term, accepts. destruct (Ascii.eqb c "."); reflexivity.
Qed.

Lemma matches_ext (r : RegExp.regex) (at_start : bool) (s : string)
    (k1 k2 : bool -> string -> bool) :
  (forall b rest, k1 b rest = k2 b rest) ->
  RegExp.matches r at_start s k1 = RegExp.matches r at_start s k2.
Proof.
  revert at_start s k1 k2.
  induction r as [| c | | | | r1 IH1 r2 IH2 | r1 IH1 r2 IH2];
    intros at_start s k1 k2 Hk; cbn [RegExp.matches].
  - apply Hk.
  - destruct s as [|a s]; [reflexivity |]. rewrite Hk. reflexivity.
  - destruct s as [|a s]; [reflexivity |]. rewrite Hk. reflexivity.
  - rewrite Hk. reflexivity.
  - destruct s as [|a s]; [apply Hk | reflexivity].
  - apply IH1. intros b rest. apply IH2, Hk.
  - rewrite (IH1 _ _ k1 k2 Hk), (IH2 _ _ k1 k2 Hk). reflexivity.
Qed.

Lemma matches_name_seq (name : string) (r : RegExp.regex) (at_start : bool)
    (s : string) (k : bool -> string -> bool) :
  RegExp.matches (name_seq r name) at_start s k
  = RegExp.matches r at_start s (fun b s' => name_k name b s' k).
Proof.
  revert r. induction name as [|c name IH]; intros r; cbn [name_seq].
  - reflexivity.
  - rewrite IH. cbn [RegExp.matches]. apply matches_ext.
    intros b rest. apply matches_name_term.
Qed.

Lemma name_k_spec (name : string) (at_start : bool) (s : string)
    (accept : string -> bool) :
  name_k name at_start s (fun _ rest => accept rest) = true
  <-> exists text rest,
        s = text +:+ rest /\ reads_as name text = true /\ accept rest = true.
Proof.
  revert at_start s. induction name as [|c name IH]; intros at_start s; cbn [name_k].
  - split.
    + intros H. exists "", s. split; [reflexivity | split; [reflexivity | exact H]].
    + intros (text & rest & -> & Hreads & H).
      destruct text; [exact H | discriminate].
  - destruct s as [|a s].
    + split; [discriminate |].
      intros (text & rest & Heq & Hreads & _).
      destruct text; [discriminate | rewrite string_app_cons in Heq; discriminate].
    + rewrite andb_true_iff, IH. split.
      * intros (Ha & text & rest & -> & Hreads & Hacc).
        exists (String a text), rest. split; [reflexivity |].
        split; [simpl; rewrite Ha, Hreads; reflexivity | exact Hacc].
      * intros (text & rest & Heq & Hreads & Hacc).
        destruct text as [|a' text]; [discriminate |].
        rewrite string_app_cons in Heq. injection Heq as -> ->.
        simpl in Hreads. apply andb_true_iff in Hreads as [Ha Hreads].
        split; [exact Ha |]. exists text, rest.
        split; [reflexivity | split; [exact Hreads | exact Hacc]].
Qed.

Lemma matches_names_alternation (name : string) (names : list string)
    (alts : option RegExp.regex) (at_start : bool) (s : string)
    (k : bool -> string -> bool) :
  RegExp.matches (RegExp.close (names_alternation alts name names)) at_start s k
  = (match alts with
     | Some r => RegExp.matches r at_start s k
     | None => false
     end)
    || existsb (fun n => name_k n at_start s k) (name :: names).
Proof.
  revert name alts. induction names as [|name' names IH]; intros name alts.
  - cbn [names_alternation existsb]. rewrite orb_false_r.
    destruct alts as [r|]; cbn [RegExp.close RegExp.matches];
      rewrite matches_name_seq; reflexivity.
  - cbn [names_alternation]. rewrite IH. cbn [existsb].
    destruct alts as [r|]; cbn [RegExp.close RegExp.matches];
      rewrite matches_name_seq; cbn [RegExp.matches];
      rewrite ?orb_assoc; reflexivity.
Qed.

Lemma names_pattern_not_later (name : string) (names : list string) (s : string) :
  RegExp.test_from (names_pattern name names) false s = false.
Proof.
  induction s as [|a s IH]; [reflexivity |].
  cbn [RegExp.test_from]. rewrite IH. reflexivity.
Qed.

Lemma name_k_ext (name : string) (at_start : bool) (s : string)
    (k1 k2 : bool -> string -> bool) :
  (forall b rest, k1 b rest = k2 b rest) ->
  name_k name at_start s k1 = name_k name at_start s k2.
Proof.
  intros Hk. revert at_start s.
  induction name as [|c name IH]; intros at_start s; cbn [name_k]; [apply Hk |].
  destruct s as [|a s]; [reflexivity |]. rewrite IH. reflexivity.
Qed.

Lemma test_names_pattern (name : string) (names : list string) (id : string) :
  RegExp.test (names_pattern name names) id
  = existsb (fun n => name_k n true id (fun _ rest => boundary rest)) (name :: names).
Proof.
  unfold RegExp.test.
  assert (Hfirst : RegExp.matches (names_pattern name names) true id (fun _ _ => true)
                   = existsb (fun n => name_k n true id (fun _ rest => boundary rest))
                       (name :: names)).
  { unfold names_pattern. cbn [RegExp.matches andb].
    rewrite matches_names_alternation. cbn [orb].
    apply existsb_pointwise. intros n. apply name_k_ext. intros b rest.
    apply (boundary_group b rest). }
  destruct id as [|a id]; cbn [RegExp.test_from]; rewrite Hfirst.
  - apply orb_false_r.
  - rewrite names_pattern_not_later. apply orb_false_r.
Qed.

(** The predicate of externals accepts a specifier exactly when it is,
    or is a path below, a text that one of the names reads as. *)
Lemma externalTest_names (name : string) (names : list string) (id : string) :
  externalTest (name :: names) (names_pattern name names) id = true
  <-> exists E text,
        E ∈ name :: names /\ reads_as E text = true /\ equals_or_is_below text id.
Proof.
  unfold externalTest. rewrite test_names_pattern, existsb_exists. split.
  - intros (E & Hin & Hk). apply name_k_spec in Hk as (text & rest & -> & Hreads & Hb).
    exists E, text. split; [apply list_elem_of_In, Hin | split; [exact Hreads |]].
    destruct rest as [|a rest]; [left; apply string_app_nil_r |].
    apply Ascii.eqb_eq in Hb. subst a. right. exists rest. reflexivity.
  - intros (E & text & Hin & Hreads & Hbelow).
    exists E. split; [apply list_elem_of_In, Hin |].
    apply name_k_spec. destruct Hbelow as [-> | (sub & ->)].
    + exists text, "".
      split; [symmetry; apply string_app_nil_r | split; [exact Hreads | reflexivity]].
    + exists text, ("/" +:+ sub).
      split; [reflexivity | split; [exact Hreads | reflexivity]].
Qed.

Lemma reads_as_itself (name : string) : plain_name name = true -> reads_as name name = true.
Proof.
  induction name as [|c name IH]; [reflexivity |]. cbn [plain_name reads_as].
  rewrite andb_true_iff. intros [Hc Hn]. rewrite (IH Hn), andb_true_r.
  unfold accepts. destruct (Ascii.eqb c ".") eqn:E; [| apply Ascii.eqb_refl].
  apply Ascii.eqb_eq in E. subst c. reflexivity.
Qed.

(** X19. What a step treats as external, when the names are made of
    ordinary characters and dots (paths of entries, names of packages). A
    specifier other than the helper module and [.] is external exactly
    when it is, or is a path below, a text that one of the external names
    reads as, any character but a line terminator standing in the place
    of a dot. In particular every external name is external, and so is
    every path below it: a step never bundles another entry of the
    plan. *)
Theorem createConfig_classifies_names_with_dots {Bundle : Type} (world : World.t)
    (options : Options.t) (entry format : string) (writeMeta : bool)
    (config : Config.t Bundle) (id : string) :
  createConfig world options entry format writeMeta = Ok config ->
  Forall (fun n => plain_name n = true) (createConfig_external options entry) ->
  id <> "babel-plugin-transform-async-to-promises/helpers" ->
  (id <> "." ->
   InputOptions.external (Config.inputOptions config) id = true
   <-> exists E text,
         E ∈ createConfig_external options entry
         /\ reads_as E text = true /\ equals_or_is_below text id)
  /\ ((exists E, E ∈ createConfig_external options entry /\ equals_or_is_below E id) ->
      InputOptions.external (Config.inputOptions config) id = true).
Proof.
  intros H Hnames Hhelper.
  apply createConfig_external_field in H as (re & Hre & ->).
  unfold inputOptions_external.
  apply String.eqb_neq in Hhelper. rewrite Hhelper.
  assert (Htest : externalTest (createConfig_external options entry) re id = true
                  <-> exists E text,
                        E ∈ createConfig_external options entry
                        /\ reads_as E text = true /\ equals_or_is_below text id).
  { destruct (createConfig_external options entry) as [|name names] eqn:E.
    - split; [discriminate | intros (x & text & Hx & _); inversion Hx].
    - rewrite (externalPredicate_names _ _ Hnames) in Hre. injection Hre as <-.
      apply externalTest_names. }
  split.
  - intros Hdot. apply String.eqb_neq in Hdot. rewrite Hdot, andb_false_r.
    exact Htest.
  - intros (E & Hin & Hbelow).
    destruct (Options.multipleEntries options && String.eqb id "."); [reflexivity |].
    apply Htest. exists E, E. split; [exact Hin | split; [| exact Hbelow]].
    apply reads_as_itself. rewrite Forall_forall in Hnames. apply Hnames, Hin.
Qed.

Lemma createConfig_classifies_names_with_dots_witness :
  exists c1 c2 : Config.t unit,
    microbundle_steps Examples.world Examples.two_entries = Ok [c1; c2]
    /\ InputOptions.external (Config.inputOptions c1) "/p/src/cli.js" = true.
Proof.
  destruct (createConfig (Bundle := unit) Examples.world
              (plan_options Examples.two_entries) "/p/src/index.js" "cjs" true)
    as [c1|e|] eqn:H1; [| vm_compute in H1; discriminate..].
  destruct (createConfig (Bundle := unit) Examples.world
              (plan_options Examples.two_entries) "/p/src/cli.js" "cjs" false)
    as [c2|e|] eqn:H2; [| vm_compute in H2; discriminate..].
  exists c1, c2. split.
  - vm_compute in H1, H2. injection H1 as <-. injection H2 as <-. reflexivity.
  - apply (createConfig_classifies_names_with_dots Examples.world
             (plan_options Examples.two_entries) "/p/src/index.js" "cjs" true c1
             "/p/src/cli.js" H1).
    + repeat constructor.
    + discriminate.
    + exists "/p/src/cli.js". split; [| left; reflexivity].
      apply list_elem_of_In. simpl. tauto.
Defined.

(** ** The further properties on the sample projects *)

Lemma batch_reports_every_step_witness :
  exists steps : list (Config.t string),
    microbundle_steps Examples.world Examples.demo = Ok steps
    /\ (batch Examples.rollup Examples.bundle_write Examples.sizeInfo steps).2
       = Ok ["/p/dist/demo.js"; "/p/dist/demo.modern.js"; "/p/dist/demo.esm.js";
             "/p/dist/demo.umd.js"].
Proof.
  destruct (microbundle_steps (Bundle := string) Examples.world Examples.demo)
    as [steps|e|] eqn:H; [| vm_compute in H; discriminate..].
  exists steps. split; [reflexivity |].
  rewrite (proj2 (batch_reports_every_step Examples.rollup Examples.bundle_write
                    Examples.sizeInfo steps)).
  - vm_compute in H. injection H as <-. reflexivity.
  - intros call. eexists. reflexivity.
  - intros bundle outputOptions. exists tt. reflexivity.
Defined.

Lemma batch_stops_at_first_rejection_witness :
  exists (steps : list (Config.t string)) done config call,
    microbundle_steps Examples.world Examples.two_entries = Ok steps
    /\ (batch Hosts.rollup_without_cli Examples.bundle_write Examples.sizeInfo steps).1
       = done ++ [call]
    /\ steps !! length done = Some config
    /\ step_rejected Hosts.rollup_without_cli Examples.bundle_write SyntaxError
         config call.
Proof.
  destruct (microbundle_steps (Bundle := string) Examples.world Examples.two_entries)
    as [steps|e|] eqn:H; [| vm_compute in H; discriminate..].
  destruct (batch_stops_at_first_rejection Hosts.rollup_without_cli
              Examples.bundle_write Examples.sizeInfo steps SyntaxError)
    as (done & config & call & Hcalls & Hk & Hrej & _).
  - vm_compute in H. injection H as <-. reflexivity.
  - exists steps, done, config, call.
    split; [reflexivity | split; [exact Hcalls | split; [exact Hk | exact Hrej]]].
Defined.

Lemma mergeConfigItems_keeps_distinct_items_witness :
  mergeConfigItems Hosts.createConfigItem app "preset"
    [[Hosts.preset_env ["modules"]]; [Hosts.preset_react ["pragma"]]]
  = [Hosts.preset_env ["modules"]; Hosts.preset_react ["pragma"]].
Proof.
  apply (mergeConfigItems_keeps_distinct_items Hosts.createConfigItem app "preset"
           [[Hosts.preset_env ["modules"]]; [Hosts.preset_react ["pragma"]]]).
  apply NoDup_cons. split; [| apply NoDup_singleton].
  intros Hin. apply list_elem_of_singleton in Hin. discriminate.
Defined.

Lemma mergeConfigItems_one_item_per_key_witness :
  NoDup (map item_key
           (mergeConfigItems Hosts.createConfigItem app "preset"
              [[Hosts.preset_env ["modules"]];
               [Hosts.preset_react ["pragma"]; Hosts.preset_env ["loose"]]])).
Proof.
  apply (mergeConfigItems_one_item_per_key Hosts.createConfigItem app "preset").
  - intros file options type. split; reflexivity.
  - repeat constructor.
Defined.

Lemma microbundle_steps_returns_witness :
  exists steps : list (Config.t unit),
    microbundle_steps Examples.world Examples.demo = Ok steps.
Proof.
  apply (microbundle_steps_returns Examples.world Examples.demo
           ["modern"; "es"; "cjs"; "umd"]).
  - reflexivity.
  - simpl. lia.
  - repeat constructor; intros Hin; apply list_elem_of_In in Hin; simpl in Hin;
      repeat destruct Hin as [Hin | Hin]; try discriminate; exact Hin.
  - split; [repeat constructor | split; [constructor | split; [repeat constructor |]]].
    intros override Hoverride. discriminate.
Defined.

(** * Output paths *)

(** ** Paths and their last segment *)

Lemma basename_scan_slash_free (matchedSlash : bool) (r acc : string) :
  JsString.mem Path.slash acc = false ->
  JsString.mem Path.slash (Path.basename_scan matchedSlash r acc) = false.
Proof.
  revert matchedSlash acc.
  induction r as [|c r IH]; intros matchedSlash acc Hacc; simpl; [exact Hacc |].
  destruct (Ascii.eqb c Path.slash) eqn:E.
  - destruct matchedSlash; [apply IH; exact Hacc | exact Hacc].
  - apply IH. simpl. rewrite E. exact Hacc.
Qed.

(** A base name holds no slash. *)
Lemma basename_slash_free (path : string) :
  JsString.mem Path.slash (Path.basename path) = false.
Proof. apply basename_scan_slash_free. reflexivity. Qed.

Lemma rev_app_spec (s acc : string) :
  String.rev_app s acc = String.rev s +:+ acc.
Proof.
  unfold String.rev. revert acc.
  induction s as [|c s IH]; intros acc; [reflexivity |].
  simpl. rewrite (IH (String c acc)), (IH (String c "")), string_app_assoc.
  reflexivity.
Qed.

Lemma string_rev_app_distr (s t : string) :
  String.rev (s +:+ t) = String.rev t +:+ String.rev s.
Proof. unfold String.rev at 1. rewrite string_rev_app, rev_app_spec. reflexivity. Qed.

Lemma string_rev_length (s : string) : String.length (String.rev s) = String.length s.
Proof.
  induction s as [|c s IH]; [reflexivity |].
  change (String c s) with (String c "" +:+ s) at 1.
  rewrite string_rev_app_distr, string_app_length, IH. simpl. lia.
Qed.

Lemma mem_rev (c : ascii) (s : string) :
  JsString.mem c (String.rev s) = JsString.mem c s.
Proof.
  induction s as [|a s IH]; [reflexivity |].
  change (String a s) with (String a "" +:+ s) at 1.
  rewrite string_rev_app_distr, mem_app, IH. simpl.
  rewrite orb_false_r. apply orb_comm.
Qed.

(** A text without a slash that begins [v], a slash and more begins [v]. *)
Lemma prefix_before_slash (u v t : string) :
  JsString.mem Path.slash u = false ->
  String.prefix u (v +:+ String Path.slash t) = String.prefix u v.
Proof.
  revert v. induction u as [|c u IH]; intros v Hu; [destruct v; reflexivity |].
  simpl in Hu. apply orb_false_iff in Hu as [Hc Hu].
  destruct v as [|d v].
  - rewrite string_app_nil_l. simpl.
    destruct (ascii_dec c Path.slash) as [-> | Hne]; [| reflexivity].
    rewrite Ascii.eqb_refl in Hc. discriminate.
  - rewrite string_app_cons. simpl. destruct (ascii_dec c d); [apply IH, Hu | reflexivity].
Qed.

Lemma prefix_length (u v : string) :
  String.prefix u v = true -> String.length u <= String.length v.
Proof.
  revert v. induction u as [|c u IH]; intros v H; simpl; [lia |].
  destruct v as [|d v]; [discriminate |]. simpl in H.
  destruct (ascii_dec c d); [| discriminate]. apply IH in H. simpl. lia.
Qed.

Lemma ends_with_last_segment (w dir b : string) :
  dir = "" \/ (exists A, dir = A +:+ "/") ->
  JsString.mem Path.slash w = false ->
  Patterns.ends_with w (dir +:+ b) = Patterns.ends_with w b.
Proof.
  intros [-> | (A & ->)] Hw; [reflexivity |].
  unfold Patterns.ends_with.
  rewrite !string_rev_app_distr.
  change (String.rev "/") with (String Path.slash "").
  rewrite string_app_cons, string_app_nil_l.
  apply prefix_before_slash. rewrite mem_rev. exact Hw.
Qed.

Lemma main_suffixes_slash_free :
  Forall (fun w => JsString.mem Path.slash w = false) Patterns.main_suffixes.
Proof. vm_compute. repeat constructor. Qed.

Lemma filter_agree {A : Type} (P Q : A -> Prop) `{!forall x, Decision (P x)}
    `{!forall x, Decision (Q x)} (l : list A) :
  Forall (fun x => P x <-> Q x) l -> filter P l = filter Q l.
Proof.
  induction 1 as [|x l Hx _ IH]; [reflexivity |].
  destruct (decide (P x)) as [HP | HP].
  - rewrite (filter_cons_True P) by exact HP.
    rewrite (filter_cons_True Q) by (apply Hx, HP). rewrite IH. reflexivity.
  - rewrite (filter_cons_False P) by exact HP.
    rewrite (filter_cons_False Q) by (intros HQ; apply HP, Hx, HQ). exact IH.
Qed.

Lemma longest_elem (l : list string) (w : string) :
  Patterns.longest l = Some w -> w ∈ l.
Proof.
  revert w. induction l as [|x l IH]; intros w; simpl; [discriminate |].
  destruct (Patterns.longest l) as [b|] eqn:E.
  - destruct (String.length b <? String.length x).
    + intros [= <-]. left.
    + intros [= <-]. right. apply IH. reflexivity.
  - intros [= <-]. left.
Qed.

Lemma substring_app (a b : string) (k : nat) :
  String.substring 0 (String.length a + k) (a +:+ b) = a +:+ String.substring 0 k b.
Proof.
  induction a as [|c a IH]; [reflexivity |].
  rewrite !string_app_cons. simpl. rewrite IH. reflexivity.
Qed.

Lemma mem_substring (c : ascii) (s : string) (k : nat) :
  JsString.mem c s = false -> JsString.mem c (String.substring 0 k s) = false.
Proof.
  revert k. induction s as [|a s IH]; intros k H.
  - destruct k; reflexivity.
  - destruct k; [reflexivity |]. simpl in *.
    apply orb_false_iff in H as [Ha Hs]. rewrite Ha. apply IH, Hs.
Qed.

Lemma ends_with_length (w s : string) :
  Patterns.ends_with w s = true -> String.length w <= String.length s.
Proof.
  unfold Patterns.ends_with. intros H. apply prefix_length in H.
  rewrite !string_rev_length in H. exact H.
Qed.

(** The extension is stripped from the last segment of a path. *)
Lemma strip_main_suffix_last_segment (dir b : string) :
  dir = "" \/ (exists A, dir = A +:+ "/") ->
  JsString.mem Path.slash b = false ->
  Patterns.strip_main_suffix (dir +:+ b) = dir +:+ Patterns.strip_main_suffix b.
Proof.
  intros Hdir Hb. unfold Patterns.strip_main_suffix.
  assert (Hfilter : filter (fun w => Patterns.ends_with w (dir +:+ b) = true)
                      Patterns.main_suffixes
                    = filter (fun w => Patterns.ends_with w b = true)
                        Patterns.main_suffixes).
  { apply filter_agree. eapply Forall_impl; [apply main_suffixes_slash_free |].
    intros w Hw. simpl. rewrite (ends_with_last_segment w dir b Hdir Hw). reflexivity. }
  rewrite Hfilter.
  destruct (Patterns.longest _) as [w|] eqn:E; [| reflexivity].
  apply longest_elem, list_elem_of_filter in E as [Hends _].
  apply ends_with_length in Hends.
  unfold Patterns.drop_end. rewrite string_app_length.
  replace (String.length dir + String.length b - String.length w)
    with (String.length dir + (String.length b - String.length w)) by lia.
  apply substring_app.
Qed.

Lemma strip_main_suffix_slash_free (b : string) :
  JsString.mem Path.slash b = false ->
  JsString.mem Path.slash (Patterns.strip_main_suffix b) = false.
Proof.
  intros Hb. unfold Patterns.strip_main_suffix.
  destruct (Patterns.longest _); [| exact Hb].
  apply mem_substring, Hb.
Qed.

Lemma plain_segment_relative (b : string) :
  plain_segment b = true -> String.eqb b "" = false /\ Path.isAbsolute b = false.
Proof.
  intros H. apply plain_segment_inv in H as (H0 & Hmem & _). split; [exact H0 |].
  destruct b as [|c b]; [reflexivity |]. simpl in *.
  apply orb_false_iff in Hmem as [Hc _]. exact Hc.
Qed.

(** What [resolve] has read before its last argument is empty or ends
    with a slash. *)
Lemma resolve_loop_shape (process_cwd a : string) :
  (Path.resolve_loop process_cwd [a] "").1 = ""
  \/ exists q, (Path.resolve_loop process_cwd [a] "").1 = q +:+ "/".
Proof.
  simpl. destruct (String.eqb a "").
  - destruct (String.eqb process_cwd ""); simpl; [left; reflexivity |].
    right. exists process_cwd. reflexivity.
  - destruct (Path.isAbsolute a); simpl; [right; exists a; reflexivity |].
    destruct (String.eqb process_cwd ""); simpl; [right; exists a; reflexivity |].
    right. exists (process_cwd +:+ "/" +:+ a). rewrite !string_app_assoc. reflexivity.
Qed.

(** [resolve(a, b)] for a segment [b] is a directory that depends on [a]
    only, empty or ending with a slash, followed by [b]. *)
Lemma resolve_segment (process_cwd a : string) :
  exists dir,
    (dir = "" \/ exists A, dir = A +:+ "/")
    /\ forall b, plain_segment b = true ->
         Path.resolve process_cwd [a; b] = dir +:+ b.
Proof.
  set (pre := Path.resolve_loop process_cwd [a] "").
  destruct (resolve_loop_shape process_cwd a) as [Hpre | (q & Hpre)]; fold pre in Hpre.
  - exists (if pre.2 then "/" else ""). split.
    + destruct pre.2; [right; exists ""; reflexivity | left; reflexivity].
    + intros b Hb. destruct (plain_segment_relative b Hb) as [Hne Hrel].
      assert (Hloop : Path.resolve_loop process_cwd (rev [a; b]) ""
                      = (b +:+ "/", pre.2)).
      { change (rev [a; b]) with [b; a].
        rewrite (resolve_loop_cons _ _ _ _ Hne), Hrel, resolve_loop_acc.
        fold pre. rewrite Hpre. reflexivity. }
      unfold Path.resolve. rewrite Hloop.
      assert (Hnorm : forall allow, Path.normalizeString (b +:+ "/") allow = b).
      { intros allow. unfold Path.normalizeString.
        change (b +:+ "/") with (b +:+ String Path.slash "").
        rewrite split_app_separator.
        apply plain_segment_inv in Hb as (H0 & Hmem & H1 & H2).
        rewrite (split_no_separator _ _ Hmem). simpl.
        unfold Path.normalize_step at 2. rewrite H0, H1, H2. reflexivity. }
      rewrite Hnorm. destruct pre.2; [reflexivity |]. rewrite Hne. reflexivity.
  - set (F := fold_left (Path.normalize_step (negb pre.2))
                (JsString.split Path.slash q) []).
    exists ((if pre.2 then "/" else "") +:+ join_before F). split.
    + unfold join_before. destruct F as [|f F'].
      * destruct pre.2; [right; exists ""; reflexivity | left; reflexivity].
      * right. exists ((if pre.2 then "/" else "") +:+ JsString.join "/" (f :: F')).
        rewrite string_app_assoc. reflexivity.
    + intros b Hb. destruct (plain_segment_relative b Hb) as [Hne Hrel].
      assert (Hloop : Path.resolve_loop process_cwd (rev [a; b]) ""
                      = ((q +:+ "/") +:+ b +:+ "/", pre.2)).
      { change (rev [a; b]) with [b; a].
        rewrite (resolve_loop_cons _ _ _ _ Hne), Hrel, resolve_loop_acc.
        fold pre. rewrite Hpre. reflexivity. }
      unfold Path.resolve. rewrite Hloop.
      assert (Hnorm : Path.normalizeString ((q +:+ "/") +:+ b +:+ "/") (negb pre.2)
                      = join_before F +:+ b).
      { unfold Path.normalizeString.
        rewrite string_app_assoc.
        change ("/" +:+ b +:+ "/") with (String Path.slash (b +:+ String Path.slash "")).
        rewrite !split_app_separator.
        pose proof Hb as (H0 & Hmem & H1 & H2)%plain_segment_inv.
        rewrite (split_no_separator _ _ Hmem). simpl JsString.split.
        rewrite !fold_left_app. fold F. simpl.
        unfold Path.normalize_step at 2. rewrite H0, H1, H2. simpl.
        unfold Path.normalize_step. simpl. apply join_snoc. }
      rewrite Hnorm. destruct pre.2; [rewrite string_app_assoc; reflexivity |].
      assert (Hn : String.eqb (join_before F +:+ b) "" = false).
      { apply String.eqb_neq. intros Heq.
        apply (f_equal String.length) in Heq. rewrite string_app_length in Heq.
        apply String.eqb_neq in Hne. destruct b; [contradiction | simpl in Heq; lia]. }
      rewrite Hn. reflexivity.
Qed.

(** ** Paths followed by the rest of their last segment *)

Lemma normalizeString_tail (allowAboveRoot : bool) (x : string) :
  exists stem, forall t, segment_tail t ->
    Path.normalizeString ((x +:+ t) +:+ "/") allowAboveRoot = stem +:+ t.
Proof.
  destruct (split_app_no_separator Path.slash x) as (init & last & _ & Hs).
  exists (join_before (fold_left (Path.normalize_step allowAboveRoot) init []) +:+ last).
  intros t (Hmem & Hlen). unfold Path.normalizeString.
  change (JsString.split Path.slash ((x +:+ t) +:+ "/"))
    with (JsString.split Path.slash ((x +:+ t) +:+ String Path.slash "")).
  rewrite split_app_separator, (Hs t Hmem). simpl JsString.split.
  rewrite <- app_assoc. simpl app. rewrite fold_left_app. simpl fold_left.
  rewrite (long_segment_kept allowAboveRoot _ (last +:+ t))
    by (rewrite string_app_length; lia).
  replace (Path.normalize_step allowAboveRoot _ "") with
    (fold_left (Path.normalize_step allowAboveRoot) init [] ++ [last +:+ t])
    by reflexivity.
  rewrite join_snoc, string_app_assoc. reflexivity.
Qed.

Lemma isAbsolute_app_tail (x t : string) :
  segment_tail t -> Path.isAbsolute (x +:+ t) = Path.isAbsolute x.
Proof.
  intros (Hmem & Hlen). destruct x as [|a x]; [| reflexivity].
  rewrite string_app_nil_l. destruct t as [|c t]; [reflexivity |].
  simpl in *. apply orb_false_iff in Hmem as [Hc _]. exact Hc.
Qed.

(** [resolve(a, x + t)] is a path that depends on [a] and [x] only,
    followed by [t]. *)
Lemma resolve_tail (process_cwd a x : string) :
  exists stem, forall t, segment_tail t ->
    Path.resolve process_cwd [a; x +:+ t] = stem +:+ t.
Proof.
  set (pre := if Path.isAbsolute x then ("", true)
              else Path.resolve_loop process_cwd [a] "").
  destruct (normalizeString_tail (negb pre.2) (pre.1 +:+ x)) as (stem & Hstem).
  exists ((if pre.2 then "/" else "") +:+ stem).
  intros t Ht. pose proof Ht as (_ & Hlen).
  assert (Hne : String.eqb (x +:+ t) "" = false).
  { apply String.eqb_neq. intros Heq.
    apply (f_equal String.length) in Heq. rewrite string_app_length in Heq.
    simpl in Heq. lia. }
  assert (Hloop :
    Path.resolve_loop process_cwd (rev [a; x +:+ t]) ""
    = (((pre.1 +:+ x) +:+ t) +:+ "/", pre.2)).
  { change (rev [a; x +:+ t]) with [x +:+ t; a].
    rewrite (resolve_loop_cons _ _ _ _ Hne), (isAbsolute_app_tail x t Ht).
    subst pre. destruct (Path.isAbsolute x).
    - simpl. rewrite !string_app_assoc. reflexivity.
    - rewrite resolve_loop_acc. rewrite !string_app_assoc. reflexivity. }
  unfold Path.resolve. rewrite Hloop, (Hstem t Ht).
  destruct pre.2; simpl.
  - rewrite string_app_assoc. reflexivity.
  - assert (Hn : String.eqb (stem +:+ t) "" = false).
    { apply String.eqb_neq. intros Heq.
      apply (f_equal String.length) in Heq. rewrite string_app_length in Heq.
      simpl in Heq. lia. }
    rewrite Hn. reflexivity.
Qed.

Lemma default_suffix_tail (format : string) : segment_tail (default_suffix format).
Proof. destruct (default_suffix_dotted format) as (_ & Hmem & Hlen). split; assumption. Qed.

Lemma segment_tail_app (b t : string) :
  JsString.mem Path.slash b = false -> segment_tail t -> segment_tail (b +:+ t).
Proof.
  intros Hb (Hmem & Hlen). split.
  - rewrite mem_app, Hb, Hmem. reflexivity.
  - rewrite string_app_length. lia.
Qed.

(** Without overrides in the manifest, [replaceName] is given [x.js],
    [x.esm.js], [x.umd.js] or [x.modern.js]: the file of a step is
    [resolve(cwd, resolve('.', mainNoExtension + suffix))] for the suffix
    of its format, whatever the format is called. *)
Lemma output_file_suffix (world : World.t) (options : Options.t) (entry format file : string) :
  no_main_overrides (Options.pkg options) ->
  output_file world options entry format = Ok file ->
  file = resolve world
           [Options.cwd options;
            resolve world ["."; mainNoExtension world options entry
                                  +:+ default_suffix format]].
Proof.
  intros (Hm & Hj & Hc & Hu & Hs & He). unfold output_file, default_suffix.
  destruct (String.eqb format "modern").
  { intros [= <-]. unfold modernMain, replaceName. rewrite Hs, He. reflexivity. }
  destruct (String.eqb format "es").
  { intros [= <-]. unfold moduleMain, replaceName. rewrite Hm, Hj. reflexivity. }
  destruct (String.eqb format "umd").
  { intros [= <-]. unfold umdMain, replaceName. rewrite Hu. reflexivity. }
  destruct (bool_decide _); [discriminate |].
  intros [= <-]. unfold cjsMain, replaceName. rewrite Hc. reflexivity.
Qed.

(** The file of a step is a path that depends on [x] only, followed by
    [t], when [mainNoExtension] is [x] followed by the rest [t] of a
    segment. *)
Lemma resolve_twice_tail (world : World.t) (cwd x : string) :
  exists stem, forall t, segment_tail t ->
    resolve world [cwd; resolve world ["."; x +:+ t]] = stem +:+ t.
Proof.
  destruct (resolve_tail (World.process_cwd world) "." x) as (stem1 & H1).
  destruct (resolve_tail (World.process_cwd world) cwd stem1) as (stem2 & H2).
  exists stem2. intros t Ht. unfold resolve. rewrite (H1 t Ht). apply (H2 t Ht).
Qed.

(** ** The output of the package *)

Lemma split_separator_free (c : ascii) (s : string) :
  Forall (fun seg => JsString.mem c seg = false) (JsString.split c s).
Proof.
  induction s as [|a s IH]; simpl; [repeat constructor |].
  destruct (Ascii.eqb a c) eqn:E; [constructor; [reflexivity | exact IH] |].
  destruct (JsString.split c s) as [|x xs]; [repeat constructor; simpl; rewrite E; reflexivity |].
  inversion IH as [|? ? Hx Hxs]; subst. constructor; [| exact Hxs].
  simpl. rewrite E, Hx. reflexivity.
Qed.

Lemma removelast_Forall {A : Type} (P : A -> Prop) (l : list A) :
  Forall P l -> Forall P (removelast l).
Proof.
  induction l as [|a [|b l] IH]; intros H; simpl; [constructor | constructor |].
  inversion H; subst. constructor; [assumption | apply IH; assumption].
Qed.

(** Below the root, [normalizeString] keeps plain segments only. *)
Lemma normalize_keeps_plain (segs res : list string) :
  Forall (fun seg => JsString.mem Path.slash seg = false) segs ->
  Forall (fun seg => plain_segment seg = true) res ->
  Forall (fun seg => plain_segment seg = true)
    (fold_left (Path.normalize_step false) segs res).
Proof.
  intros Hsegs. revert res.
  induction Hsegs as [|seg segs Hseg _ IH]; intros res Hres; [exact Hres |].
  simpl. apply IH. unfold Path.normalize_step.
  destruct (String.eqb seg "") eqn:H0; [exact Hres |].
  destruct (String.eqb seg ".") eqn:H1; [exact Hres |]. cbn [orb].
  destruct (String.eqb seg "..") eqn:H2.
  - destruct (last res); [| constructor]. cbn [andb]. apply removelast_Forall, Hres.
  - apply Forall_app. split; [exact Hres |]. constructor; [| constructor].
    unfold plain_segment. rewrite H0, H1, H2, Hseg. reflexivity.
Qed.

Lemma resolve_loop_absolute (process_cwd : string) (args_rev : list string) (acc : string) :
  Path.isAbsolute process_cwd = true ->
  (Path.resolve_loop process_cwd args_rev acc).2 = true.
Proof.
  intros Habs. revert acc. induction args_rev as [|path more IH]; intros acc; simpl.
  - destruct (String.eqb process_cwd "") eqn:E; [| exact Habs].
    apply String.eqb_eq in E. subst. discriminate.
  - destruct (String.eqb path ""); [apply IH |].
    destruct (Path.isAbsolute path); [reflexivity | apply IH].
Qed.

(** On a host whose working directory is absolute, [resolve] returns an
    absolute path of plain segments. *)
Lemma resolve_absolute (process_cwd : string) (args : list string) :
  Path.isAbsolute process_cwd = true ->
  exists segs,
    Forall (fun seg => plain_segment seg = true) segs
    /\ Path.resolve process_cwd args = "/" +:+ JsString.join "/" segs.
Proof.
  intros Habs. unfold Path.resolve.
  pose proof (resolve_loop_absolute process_cwd (rev args) "" Habs) as Hloop.
  destruct (Path.resolve_loop process_cwd (rev args) "") as [resolvedPath resolvedAbsolute].
  simpl in Hloop. subst resolvedAbsolute. cbn [negb].
  exists (fold_left (Path.normalize_step false) (JsString.split Path.slash resolvedPath) []).
  split; [| reflexivity].
  apply normalize_keeps_plain; [apply split_separator_free | constructor].
Qed.

Lemma fold_split_plain (segs : list string) :
  Forall (fun seg => plain_segment seg = true) segs ->
  fold_left (Path.normalize_step false)
    (JsString.split Path.slash ("/" +:+ JsString.join "/" segs)) []
  = segs.
Proof.
  intros Hall.
  change (JsString.split Path.slash ("/" +:+ JsString.join "/" segs))
    with (EmptyString :: JsString.split Path.slash (JsString.join "/" segs)).
  destruct segs as [|seg segs]; [reflexivity |].
  rewrite (split_join_segments _ _ Hall). cbn [fold_left].
  change (Path.normalize_step false [] "") with (@nil string).
  apply (normalize_plain_segments false _ [] Hall).
Qed.

(** [resolve(main, b)] for an absolute path [main] of plain segments
    and a segment [b] is [b] inside [main]. *)
Lemma resolve_inside (process_cwd : string) (segs : list string) (b : string) :
  Forall (fun seg => plain_segment seg = true) segs ->
  plain_segment b = true ->
  Path.resolve process_cwd ["/" +:+ JsString.join "/" segs; b]
  = "/" +:+ JsString.join "/" (segs ++ [b]).
Proof.
  intros Hsegs Hb. destruct (plain_segment_relative b Hb) as [Hne Hrel].
  unfold Path.resolve.
  change (rev ["/" +:+ JsString.join "/" segs; b])
    with [b; "/" +:+ JsString.join "/" segs].
  rewrite (resolve_loop_cons _ _ _ _ Hne), Hrel.
  rewrite resolve_loop_cons by reflexivity.
  change (Path.isAbsolute ("/" +:+ JsString.join "/" segs)) with true.
  cbv iota beta. change (negb true) with false. f_equal.
  unfold Path.normalizeString. f_equal.
  change (("/" +:+ JsString.join "/" segs) +:+ "/" +:+ b +:+ "/" +:+ "")
    with (("/" +:+ JsString.join "/" segs)
            +:+ String Path.slash (b +:+ String Path.slash "")).
  rewrite !split_app_separator, !fold_left_app, (fold_split_plain _ Hsegs).
  pose proof Hb as (H0 & Hmem & H1 & H2)%plain_segment_inv.
  rewrite (split_no_separator _ _ Hmem). simpl.
  unfold Path.normalize_step at 2. rewrite H0, H1, H2. reflexivity.
Qed.

Lemma join_nonempty (seg : string) (segs : list string) :
  plain_segment seg = true -> String.eqb (JsString.join "/" (seg :: segs)) "" = false.
Proof.
  intros (H0 & _)%plain_segment_inv. apply String.eqb_neq in H0.
  destruct seg as [|c seg]; [contradiction |].
  unfold JsString.join. destruct segs; reflexivity.
Qed.

(** X11. The output path that [getOutput] returns, where [main] is the
    configured output ([output], else the [main] of the manifest, else
    [dist]) resolved against [cwd]. The path always ends in a dot and one
    or more lower-case letters. It is [main] itself when [main] ends so
    and is not a directory. In every other case, on a host whose
    working directory is absolute and for a package name that has no
    slash once its scope is removed, it is the file named after the
    package, with [.js], directly inside [main]. *)
Theorem getOutput_names_the_output_file (world : World.t) (files : Files.t)
    (removeScope : string -> string) (cwd : string) (output pkgMain : option string)
    (pkgName : string) :
  let main :=
    resolve world [cwd; JsString.or_default (JsString.or_else output pkgMain) "dist"] in
  let result := getOutput world files removeScope cwd output pkgMain pkgName in
  has_extension result = true
  /\ (has_extension main = true -> Files.isDir files main = false -> result = main)
  /\ (Path.isAbsolute (World.process_cwd world) = true ->
      JsString.mem Path.slash (removeScope pkgName) = false ->
      has_extension main = false \/ Files.isDir files main = true ->
      result
      = (if String.eqb main "/" then "" else main)
          +:+ "/" +:+ removeScope pkgName +:+ ".js").
Proof.
  intros main result. subst result. unfold getOutput. fold main.
  split; [| split].
  - destruct (negb (has_extension main) || Files.isDir files main) eqn:E.
    + destruct (resolve_suffix (World.process_cwd world) main (removeScope pkgName))
        as [stem Hstem].
      unfold resolve. rewrite (Hstem ".js"); [apply has_extension_js |].
      split; [exists "js"; reflexivity | split; [reflexivity | simpl; lia]].
    + apply orb_false_iff in E as [E _]. apply negb_false_iff in E. exact E.
  - intros Hext Hdir. rewrite Hext, Hdir. reflexivity.
  - intros Habs Hname Hcase.
    assert (E : negb (has_extension main) || Files.isDir files main = true).
    { destruct Hcase as [-> | ->]; [reflexivity | apply orb_true_r]. }
    rewrite E.
    destruct (resolve_absolute (World.process_cwd world)
                [cwd; JsString.or_default (JsString.or_else output pkgMain) "dist"] Habs)
      as (segs & Hsegs & Hmain).
    fold (resolve world
            [cwd; JsString.or_default (JsString.or_else output pkgMain) "dist"]) in Hmain.
    fold main in Hmain.
    assert (Hb : plain_segment (removeScope pkgName +:+ ".js") = true).
    { assert (Hlong : 3 <= String.length (removeScope pkgName +:+ ".js"))
        by (rewrite string_app_length; simpl; lia).
      unfold plain_segment. rewrite mem_app, Hname.
      rewrite !andb_true_iff, !negb_true_iff, !String.eqb_neq.
      repeat split; try reflexivity; intros Heq; rewrite Heq in Hlong; simpl in Hlong; lia. }
    unfold resolve. rewrite Hmain, (resolve_inside _ _ _ Hsegs Hb), join_snoc.
    destruct segs as [|seg segs].
    + reflexivity.
    + inversion Hsegs as [|? ? Hseg _]; subst.
      assert (Hroot : String.eqb ("/" +:+ JsString.join "/" (seg :: segs)) "/" = false).
      { apply String.eqb_neq. intros Heq.
        pose proof (join_nonempty seg segs Hseg) as Hj. apply String.eqb_neq in Hj.
        apply Hj. injection Heq as Heq. exact Heq. }
      rewrite Hroot. unfold join_before. rewrite !string_app_assoc. reflexivity.
Qed.

Lemma getOutput_names_the_output_file_witness :
  getOutput Examples.world Hosts.typescript_project (fun name => name) "/p"
    None None "demo" = "/p/dist/demo.js"
  /\ getOutput Examples.world Hosts.typescript_project (fun name => name) "/p"
       (Some "lib/out.js") None "demo" = "/p/lib/out.js".
Proof.
  split.
  - apply (getOutput_names_the_output_file Examples.world Hosts.typescript_project
             (fun name => name) "/p" None None "demo");
      [reflexivity | reflexivity | left; reflexivity].
  - apply (getOutput_names_the_output_file Examples.world Hosts.typescript_project
             (fun name => name) "/p" (Some "lib/out.js") None "demo"); reflexivity.
Defined.

(** * The plan as a whole *)

(** ** The size of a plan *)






(** ** The files of the steps *)

Lemma step_format_built {Bundle : Type} (world : World.t) (options : Options.t)
    (request : Request.t) (config : Config.t Bundle) :
  built world options request config ->
  InputOptions.input (Config.inputOptions config) = Request.entry request
  /\ step_format config = Request.format request
  /\ output_file world options (Request.entry request) (Request.format request)
     = Ok (OutputOptions.file (Config.outputOptions config)).
Proof.
  intros H. apply createConfig_fields in H as (Hi & Hc & _ & Hf & _ & Ho).
  split; [exact Hi | split; [| exact Ho]].
  unfold step_format. rewrite Hc, Hf.
  destruct (String.eqb (Request.format request) "modern") eqn:E; [| reflexivity].
  apply String.eqb_eq in E. symmetry. exact E.
Qed.

(** The files that [createConfig] names for one entry are one path
    followed by the suffix of the format. *)
Lemma files_of_an_entry (world : World.t) (options : Options.t) (entry : string) :
  no_main_overrides (Options.pkg options) ->
  exists prefix, forall format file,
    output_file world options entry format = Ok file ->
    file = prefix +:+ default_suffix format.
Proof.
  intros Hpkg.
  destruct (resolve_twice_tail world (Options.cwd options)
              (mainNoExtension world options entry)) as (stem & Hstem).
  exists stem. intros format file H.
  apply (output_file_suffix _ _ _ _ _ Hpkg) in H.
  rewrite (Hstem _ (default_suffix_tail format)) in H. exact H.
Qed.

(** With several entries, [mainNoExtension] is a directory common to the
    entries followed by the main name of the entry. *)
Lemma mainNoExtension_several (world : World.t) (options : Options.t) :
  Options.multipleEntries options = true ->
  exists dir, forall entry,
    plain_segment (Path.basename (entry_name options entry)) = true ->
    mainNoExtension world options entry = dir +:+ main_name options entry.
Proof.
  intros Hmulti.
  destruct (resolve_segment (World.process_cwd world)
              (Path.dirname (Options.output options))) as (dir & Hdir & Hres).
  exists dir. intros entry Hplain.
  unfold mainNoExtension. rewrite Hmulti.
  change (if Patterns.is_index_entry entry then Options.output options else entry)
    with (entry_name options entry).
  unfold resolve. rewrite (Hres _ Hplain).
  apply strip_main_suffix_last_segment; [exact Hdir |].
  apply basename_slash_free.
Qed.

(** With several entries, the files that [createConfig] names are one
    directory followed by the main name of the entry and the suffix of
    the format. *)
Lemma files_of_several_entries (world : World.t) (options : Options.t) :
  no_main_overrides (Options.pkg options) ->
  Options.multipleEntries options = true ->
  exists prefix, forall entry format file,
    plain_segment (Path.basename (entry_name options entry)) = true ->
    output_file world options entry format = Ok file ->
    file = prefix +:+ main_name options entry +:+ default_suffix format.
Proof.
  intros Hpkg Hmulti.
  destruct (mainNoExtension_several world options Hmulti) as (dir & Hmain).
  destruct (resolve_twice_tail world (Options.cwd options) dir) as (stem & Hstem).
  exists stem. intros entry format file Hplain H.
  apply (output_file_suffix _ _ _ _ _ Hpkg) in H.
  rewrite (Hmain _ Hplain), string_app_assoc in H.
  rewrite Hstem in H; [exact H |].
  apply segment_tail_app; [| apply default_suffix_tail].
  apply strip_main_suffix_slash_free, basename_slash_free.
Qed.

Lemma NoDup_fmap_agree {A B C : Type} (f : A -> B) (g : A -> C) (l : list A) :
  (forall x y, x ∈ l -> y ∈ l -> f x = f y <-> g x = g y) ->
  NoDup (f <$> l) <-> NoDup (g <$> l).
Proof.
  induction l as [|a l IH]; intros H; [split; intros _; constructor |].
  rewrite !fmap_cons, !NoDup_cons, !list_elem_of_fmap.
  assert (Hl : forall x y, x ∈ l -> y ∈ l -> f x = f y <-> g x = g y).
  { intros x y Hx Hy. apply H; apply list_elem_of_further; assumption. }
  rewrite (IH Hl).
  assert (Ha : (exists y, f a = f y /\ y ∈ l) <-> (exists y, g a = g y /\ y ∈ l)).
  { split; intros (y & Heq & Hy); exists y; (split; [| exact Hy]);
      apply (H a y (list_elem_of_here _ _) (list_elem_of_further _ _ _ Hy)); exact Heq. }
  rewrite Ha. reflexivity.
Qed.

(** In a plan, the file of a step is a path common to the steps followed
    by the key of the step. *)
Lemma plan_files_by_key {Bundle : Type} (world : World.t) (options : Options.t)
    (steps : list (Config.t Bundle)) :
  microbundle_steps world options = Ok steps ->
  no_main_overrides (Options.pkg options) ->
  plain_entry_names options ->
  exists prefix, forall c, c ∈ steps ->
    OutputOptions.file (Config.outputOptions c) = prefix +:+ file_key options c.
Proof.
  intros Hplan Hpkg Hplain.
  assert (Hpkg' : no_main_overrides (Options.pkg (plan_options options)))
    by (destruct options; exact Hpkg).
  unfold file_key. destruct (1 <? length (Options.entries options)) eqn:Hn.
  - apply Nat.ltb_lt in Hn as Hlt. specialize (Hplain Hlt).
    rewrite Forall_forall in Hplain.
    assert (Hmulti : Options.multipleEntries (plan_options options) = true)
      by exact Hn.
    destruct (files_of_several_entries world (plan_options options) Hpkg' Hmulti)
      as (prefix & Hprefix).
    exists prefix. intros c Hc.
    destruct (plan_step_built _ _ _ _ Hplan Hc) as (r & Hb & He).
    apply step_format_built in Hb as (Hi & Hf & Ho). rewrite Hi, Hf.
    exact (Hprefix _ _ _ (Hplain _ He) Ho).
  - apply Nat.ltb_ge in Hn.
    destruct (Options.entries options) as [|entry [|entry' entries]] eqn:Hentries;
      simpl in Hn; [| | lia].
    + exists "". intros c Hc.
      destruct (plan_step_built _ _ _ _ Hplan Hc) as (r & _ & He).
      rewrite Hentries in He. inversion He.
    + destruct (files_of_an_entry world (plan_options options) entry Hpkg')
        as (prefix & Hprefix).
      exists prefix. intros c Hc.
      destruct (plan_step_built _ _ _ _ Hplan Hc) as (r & Hb & He).
      rewrite Hentries in He. apply list_elem_of_singleton in He.
      apply step_format_built in Hb as (_ & Hf & Ho). rewrite He in Ho.
      rewrite string_app_nil_l, Hf. exact (Hprefix _ _ Ho).
Qed.

(** C2, as amended. Building a plan never fails with a
    [ConfigurationError], and nothing keeps the files of its steps apart.
    When the manifest names no file for any format, in a built plan
    - the files of the steps for one entry are one path followed by the
      suffix of the format, [.modern.js], [.esm.js], [.umd.js], or [.js]
      for [cjs] and for every other name: two such steps write to the
      same file exactly when their formats have the same suffix, as do a
      format named twice, or [cjs] beside a name such as [esm] or [iife];
    - the file of every step is one path of the plan followed by the key
      of the step: the suffix of its format, after the base name of its
      entry without the extension when the plan has several entries (the
      base name of the output, for an entry named [index]); this for
      entries whose name ends in a segment other than [.] and [..];
    - so two steps write to the same file exactly when their keys are
      the same, as do the steps for one format of two entries named
      [index], or of [a/cli.js] and [b/cli.js];
    - and the files of the plan are pairwise distinct exactly when the
      keys are. *)
Theorem C2_files_collide_exactly_on_name_and_suffix {Bundle : Type} (world : World.t)
    (options : Options.t) :
  microbundle_steps (Bundle := Bundle) world options <> Throw ConfigurationError
  /\ forall steps : list (Config.t Bundle),
       microbundle_steps world options = Ok steps ->
       no_main_overrides (Options.pkg options) ->
       (forall entry, exists prefix, forall c1 c2,
          c1 ∈ steps -> c2 ∈ steps ->
          InputOptions.input (Config.inputOptions c1) = entry ->
          InputOptions.input (Config.inputOptions c2) = entry ->
          OutputOptions.file (Config.outputOptions c1)
          = prefix +:+ default_suffix (step_format c1)
          /\ (OutputOptions.file (Config.outputOptions c1)
              = OutputOptions.file (Config.outputOptions c2)
              <-> default_suffix (step_format c1) = default_suffix (step_format c2)))
       /\ (plain_entry_names options ->
           (exists prefix, forall c, c ∈ steps ->
              OutputOptions.file (Config.outputOptions c)
              = prefix +:+ file_key options c)
           /\ (forall c1 c2, c1 ∈ steps -> c2 ∈ steps ->
                 OutputOptions.file (Config.outputOptions c1)
                 = OutputOptions.file (Config.outputOptions c2)
                 <-> file_key options c1 = file_key options c2)
           /\ (NoDup ((fun c => OutputOptions.file (Config.outputOptions c)) <$> steps)
               <-> NoDup (file_key options <$> steps))).
Proof.
  split; [apply microbundle_steps_no_ConfigurationError |].
  intros steps Hplan Hpkg. split.
  - intros entry.
    destruct (files_of_an_entry world (plan_options options) entry) as (prefix & Hprefix);
      [destruct options; exact Hpkg |].
    exists prefix.
    assert (Hfile : forall c, c ∈ steps ->
              InputOptions.input (Config.inputOptions c) = entry ->
              OutputOptions.file (Config.outputOptions c)
              = prefix +:+ default_suffix (step_format c)).
    { intros c Hc Hinput.
      destruct (plan_step_built _ _ _ _ Hplan Hc) as (r & Hb & _).
      apply step_format_built in Hb as (Hi & Hf & Ho).
      rewrite Hi in Hinput. rewrite Hinput in Ho. rewrite Hf.
      exact (Hprefix _ _ Ho). }
    intros c1 c2 H1 H2 Hi1 Hi2. split; [exact (Hfile c1 H1 Hi1) |].
    rewrite (Hfile c1 H1 Hi1), (Hfile c2 H2 Hi2).
    split; [apply String.app_inj | intros ->; reflexivity].
  - intros Hplain.
    destruct (plan_files_by_key world options steps Hplan Hpkg Hplain)
      as (prefix & Hprefix).
    assert (Hkey : forall c1 c2 : Config.t Bundle, c1 ∈ steps -> c2 ∈ steps ->
              OutputOptions.file (Config.outputOptions c1)
              = OutputOptions.file (Config.outputOptions c2)
              <-> file_key options c1 = file_key options c2).
    { intros c1 c2 H1 H2. rewrite (Hprefix c1 H1), (Hprefix c2 H2).
      split; [apply String.app_inj | intros ->; reflexivity]. }
    split; [exists prefix; exact Hprefix | split; [exact Hkey |]].
    apply NoDup_fmap_agree. exact Hkey.
Qed.

(** C2, witness: the scripts [/p/src/a/cli.js] and [/p/src/b/cli.js],
    built for [es] and [cjs]. The plan has four steps; the steps for
    [cjs] of the two scripts write to the same file, the two steps of the
    first script do not, and the files of the plan are not pairwise
    distinct. *)
Lemma C2_witness :
  exists c1 c2 c3 c4 : Config.t unit,
    microbundle_steps Examples.world Plans.two_scripts = Ok [c1; c2; c3; c4]
    /\ InputOptions.input (Config.inputOptions c1) = "/p/src/a/cli.js"
    /\ InputOptions.input (Config.inputOptions c3) = "/p/src/b/cli.js"
    /\ OutputOptions.file (Config.outputOptions c1)
       = OutputOptions.file (Config.outputOptions c3)
    /\ OutputOptions.file (Config.outputOptions c1)
       <> OutputOptions.file (Config.outputOptions c2)
    /\ ~ NoDup ((fun c => OutputOptions.file (Config.outputOptions c))
                  <$> [c1; c2; c3; c4]).
Proof.
  destruct (microbundle_steps (Bundle := unit) Examples.world Plans.two_scripts)
    as [steps | e |] eqn:Hplan; [| vm_compute in Hplan; discriminate..].
  pose proof (C2_files_collide_exactly_on_name_and_suffix (Bundle := unit)
                Examples.world Plans.two_scripts) as [_ Hfiles].
  assert (Hpkg : no_main_overrides (Options.pkg Plans.two_scripts))
    by (repeat split; reflexivity).
  assert (Hplain : plain_entry_names Plans.two_scripts)
    by (intros _; repeat constructor).
  destruct (Hfiles steps Hplan Hpkg) as (Hentry & Hkeys).
  destruct (Hkeys Hplain) as (_ & Hkey & Hdup).
  destruct (Hentry "/p/src/a/cli.js") as (prefix & Hsame). clear Hfiles Hkeys Hentry.
  vm_compute in Hplan. injection Hplan as <-.
  do 4 eexists. split; [reflexivity |].
  split; [reflexivity |]. split; [reflexivity |]. split; [| split].
  - apply Hkey; [repeat constructor.. | reflexivity].
  - intros Heq. apply Hsame in Heq;
      [discriminate | repeat constructor.. | reflexivity | reflexivity].
  - rewrite Hdup. vm_compute. intros Hnd.
    apply NoDup_cons in Hnd as (Hnotin & _). apply Hnotin. repeat constructor.
Defined.

(** ** The classification of specifiers across the steps *)




Lemma alternatives_k_ext (s : string) (pre1 pre2 start : (bool -> string -> bool) -> bool)
    (k : bool -> string -> bool) :
  (forall k', pre1 k' = pre2 k') ->
  alternatives_k s pre1 start k = alternatives_k s pre2 start k.
Proof.
  revert pre1 pre2. induction s as [|c s IH]; intros pre1 pre2 H; cbn [alternatives_k].
  - apply H.
  - destruct (Ascii.eqb c "|"); [rewrite H; reflexivity |].
    apply IH. intros k'. apply H.
Qed.














